(** * pyk5: the RFC 3961 simplified-profile crypto engine and the SPAKE2
    test-vector driver, embedded in Rocq.

    The development follows the two source files:
    - [crypto.py]: n-fold, key derivation, AES-CTS, authenticated
      encryption, keyed checksums;
    - [spake.py]: the [vectors] driver (shared point, transcript checksum,
      confirmation keys).

    Python 2 byte strings are [list byte]; Python integers are [Z]; a Python
    exception is a value of [exn] carried by the [result] monad. *)

From Stdlib Require Import String Ascii Strings.Byte DecimalString.
From Stdlib Require Import ZArith List Lia Bool.
Import ListNotations.

Open Scope Z_scope.

(* ================================================================== *)
(** ** Python values, exceptions and the error monad *)

Definition bytes := list byte.

(** The exceptions the modelled code can raise.  [LoopBound] is not a Python
    exception: it marks a [while] loop of the model that used up its iteration
    bound; [carry_loop_defined] and [derive_ok] show that the bounds are not
    reached. *)
Inductive exn : Type :=
| AssertionError
| ValueError (msg : string)
| StructError
| ZeroDivisionError
| TypeError
| IndexError
| LoopBound.

Inductive result (A : Type) : Type :=
| Ok (a : A)
| Raise (e : exn).

Arguments Ok {A} a.
Arguments Raise {A} e.

Definition bind {A B} (m : result A) (k : A -> result B) : result B :=
  match m with
  | Ok a => k a
  | Raise e => Raise e
  end.

Notation "x <- m ;; k" := (bind m (fun x => k))
  (at level 61, m at next level, right associativity).
Notation "'assert!' b ;; k" := (if b then k else Raise AssertionError)
  (at level 61, b at next level, right associativity).

Fixpoint mapM {A B} (f : A -> result B) (l : list A) : result (list B) :=
  match l with
  | [] => Ok []
  | x :: r => y <- f x ;; ys <- mapM f r ;; Ok (y :: ys)
  end.

(** [len], [ord], [chr] *)
Definition len {A} (s : list A) : Z := Z.of_nat (length s).

Definition ord (b : byte) : Z := Z.of_N (Byte.to_N b).

Definition chr (z : Z) : result byte :=
  if (0 <=? z) && (z <? 256) then
    match Byte.of_N (Z.to_N z) with
    | Some b => Ok b
    | None => Raise (ValueError "chr() arg not in range(256)")
    end
  else Raise (ValueError "chr() arg not in range(256)").

(** [s[i]], with Python's negative indices *)
Definition getitem {A} (s : list A) (i : Z) : result A :=
  let j := if i <? 0 then i + len s else i in
  if (0 <=? j) && (j <? len s) then
    match nth_error s (Z.to_nat j) with
    | Some a => Ok a
    | None => Raise IndexError
    end
  else Raise IndexError.

(** [s[lo:hi]], each bound optional, with Python's clamping *)
Definition clamp (n i : Z) : Z :=
  if i <? 0 then Z.max (i + n) 0 else Z.min i n.

Definition slice {A} (s : list A) (lo hi : option Z) : list A :=
  let n := len s in
  let l := match lo with None => 0 | Some i => clamp n i end in
  let h := match hi with None => n | Some i => clamp n i end in
  firstn (Z.to_nat (h - l)) (skipn (Z.to_nat l) s).

(** [xrange(n)] and [xrange(start, stop, step)] *)
Definition xrange (n : Z) : list Z :=
  map Z.of_nat (seq 0 (Z.to_nat n)).

Definition xrange3 (start stop step : Z) : result (list Z) :=
  if step =? 0 then Raise (ValueError "xrange() arg 3 must not be zero")
  else
    let count :=
      if 0 <? step then (stop - start + step - 1) / step
      else (start - stop - step - 1) / (- step) in
    Ok (map (fun k => start + k * step) (xrange count)).

(** Integer [/] and [%] of Python 2: floor division, the remainder has the
    sign of the divisor. *)
Definition pydiv (a b : Z) : result Z :=
  if b =? 0 then Raise ZeroDivisionError else Ok (a / b).

Definition pymod (a b : Z) : result Z :=
  if b =? 0 then Raise ZeroDivisionError else Ok (a mod b).

(** [fractions.gcd]: Euclid's loop [while b: a, b = b, a%b]; unless [b] is
    zero its result has the sign of [b]. *)
Definition gcd (a b : Z) : Z :=
  if b =? 0 then a else Z.sgn b * Z.gcd a b.

(** [reduce(f, seq)] without initializer *)
Fixpoint reduce_from {A} (f : A -> A -> result A) (acc : A) (l : list A)
  : result A :=
  match l with
  | [] => Ok acc
  | x :: r => a <- f acc x ;; reduce_from f a r
  end.

Definition reduce {A} (f : A -> A -> result A) (l : list A) : result A :=
  match l with
  | [] => Raise TypeError
  | x :: r => reduce_from f x r
  end.

(** ['\0' * n] *)
Definition zeros (n : Z) : bytes := repeat x00 (Z.to_nat n).

(** A string literal as bytes *)
Definition lit (s : string) : bytes := list_byte_of_string s.

(* ================================================================== *)
(** ** crypto.py: helpers *)

Module Enctypenum.
Definition DES_CBC_CRC := 1.
Definition DES_CBC_MD4 := 2.
Definition DES_CBC_MD5 := 3.
Definition DES3_CBC := 16.
Definition AES128_CTS := 17.
Definition AES256_CTS := 18.
Definition RC4_HMAC := 23.
End Enctypenum.

Module Checksumtypenum.
Definition CRC32 := 1.
Definition MD4 := 2.
Definition MD4_DES := 3.
Definition MD5 := 7.
Definition MD5_DES := 8.
Definition SHA1 := 9.
Definition SHA1_DES3 := 12.
Definition SHA1_AES128 := 15.
Definition SHA1_AES256 := 16.
Definition HMAC_MD5 := -138.
End Checksumtypenum.

(** [_zeropad(s, padsize)] *)
Definition _zeropad (s : bytes) (padsize : Z) : result bytes :=
  r <- pymod (len s) padsize ;;
  padlen <- pymod (padsize - r) padsize ;;
  Ok (s ++ zeros padlen).

(** [_xorbytes(b1, b2)] *)
Definition _xorbytes (b1 b2 : bytes) : result bytes :=
  assert! (len b1 =? len b2) ;;
  mapM (fun '(x, y) => chr (Z.lxor (ord x) (ord y))) (combine b1 b2).

(** [_mac_equal(mac1, mac2)] *)
Definition _mac_equal (mac1 mac2 : bytes) : result bool :=
  assert! (len mac1 =? len mac2) ;;
  let res := fold_left (fun res '(x, y) => Z.lor res (Z.lxor (ord x) (ord y)))
                       (combine mac1 mac2) 0 in
  Ok (res =? 0).

(* ================================================================== *)
(** ** crypto.py: [_nfold] *)

(** [rotate_right(str, nbits)] *)
Definition rotate_right (str : bytes) (nbits : Z) : result bytes :=
  nbytes <- pymod (nbits / 8) (len str) ;;
  let remain := nbits mod 8 in
  mapM (fun i =>
          x <- getitem str (i - nbytes) ;;
          y <- getitem str (i - nbytes - 1) ;;
          chr (Z.lor (Z.shiftr (ord x) remain)
                     (Z.land (Z.shiftl (ord y) (8 - remain)) 255)))
       (xrange (len str)).

(** The body of the carry loop of [add_ones_complement]:
    [[(v[i-n+1]>>8) + (v[i]&0xff) for i in xrange(n)]]. *)
Definition carry_step (n : Z) (v : list Z) : result (list Z) :=
  mapM (fun i =>
          hi <- getitem v (i - n + 1) ;;
          lo <- getitem v i ;;
          Ok (Z.shiftr hi 8 + Z.land lo 255))
       (xrange n).

(** [any(x & ~0xff for x in v)] *)
Definition has_carry (v : list Z) : bool :=
  existsb (fun x => negb (Z.land x (Z.lnot 255) =? 0)) v.

(** The [while] loop, bounded by [fuel] iterations. *)
Fixpoint carry_loop (fuel : nat) (n : Z) (v : list Z) : result (list Z) :=
  if has_carry v then
    match fuel with
    | O => Raise LoopBound
    | S fuel' => v' <- carry_step n v ;; carry_loop fuel' n v'
    end
  else Ok v.

Definition sumZ (v : list Z) : Z := fold_right Z.add 0 v.

(** [add_ones_complement(str1, str2)].  Every iteration of the loop lowers the
    sum of [v], so the sum bounds the number of iterations. *)
Definition add_ones_complement (str1 str2 : bytes) : result bytes :=
  let n := len str1 in
  let v := map (fun '(x, y) => ord x + ord y) (combine str1 str2) in
  v' <- carry_loop (Z.to_nat (sumZ v)) n v ;;
  mapM chr v'.

(** [_nfold(str, nbytes)] *)
Definition _nfold (str : bytes) (nbytes : Z) : result bytes :=
  let slen := len str in
  lcm <- pydiv (nbytes * slen) (gcd nbytes slen) ;;
  copies <- pydiv lcm slen ;;
  parts <- mapM (fun i => rotate_right str (13 * i)) (xrange copies) ;;
  let bigstr := concat parts in
  ps <- xrange3 0 lcm nbytes ;;
  let slices := map (fun p => slice bigstr (Some p) (Some (p + nbytes))) ps in
  reduce add_ones_complement slices.

(* ================================================================== *)
(** ** [struct]: [pack('>I', n)], [pack('>IB', n, c)], [unpack('>L', s)] *)

Definition byte_of_Z (z : Z) : byte :=
  match Byte.of_N (Z.to_N z) with
  | Some x => x
  | None => x00
  end.

Definition pack_I (n : Z) : result bytes :=
  if (0 <=? n) && (n <? 4294967296) then
    Ok [byte_of_Z (n / 16777216); byte_of_Z (n / 65536 mod 256);
        byte_of_Z (n / 256 mod 256); byte_of_Z (n mod 256)]
  else Raise StructError.

Definition pack_IB (n c : Z) : result bytes :=
  i <- pack_I n ;;
  if (0 <=? c) && (c <? 256) then Ok (i ++ [byte_of_Z c])
  else Raise StructError.

Definition unpack_L (s : bytes) : result Z :=
  match s with
  | [b3; b2; b1; b0] =>
      Ok (ord b3 * 16777216 + ord b2 * 65536 + ord b1 * 256 + ord b0)
  | _ => Raise StructError
  end.

(* ================================================================== *)
(** ** crypto.py: keys and profiles *)

(** [class Key]: the constructor stores both fields unchecked. *)
Record Key : Type := mkKey { enctype : Z; contents : bytes }.

(** PyCrypto hash modules; the profiles only use [SHA]. *)
Inductive hashmodule : Type := SHA.

(** The class attributes of an enctype profile.  [_AESEnctype] fixes all of
    them but [seedsize], which its two subclasses set. *)
Record EnctypeProfile : Type := mkEnctype {
  cls_enctype : Z;
  blocksize : Z;
  padsize : Z;
  macsize : Z;
  hashmod : hashmodule;
  seedsize : Z
}.

Definition _AESEnctype (seed : Z) : EnctypeProfile :=
  {| cls_enctype := Enctypenum.AES256_CTS;
     blocksize := 16;
     padsize := 1;
     macsize := 12;
     hashmod := SHA;
     seedsize := seed |}.

Definition _AES128CTS : EnctypeProfile := _AESEnctype 16.
Definition _AES256CTS : EnctypeProfile := _AESEnctype 32.

Record ChecksumProfile : Type := mkChecksum {
  ck_macsize : Z;
  enc : EnctypeProfile
}.

Definition _SHA1AES128 : ChecksumProfile :=
  {| ck_macsize := 12; enc := _AES128CTS |}.
Definition _SHA1AES256 : ChecksumProfile :=
  {| ck_macsize := 12; enc := _AES256CTS |}.

Definition _enctype_table : list (Z * EnctypeProfile) :=
  [(Enctypenum.AES128_CTS, _AES128CTS); (Enctypenum.AES256_CTS, _AES256CTS)].

Definition _checksum_table : list (Z * ChecksumProfile) :=
  [(Checksumtypenum.SHA1_AES128, _SHA1AES128);
   (Checksumtypenum.SHA1_AES256, _SHA1AES256)].

Fixpoint lookup {V} (k : Z) (t : list (Z * V)) : option V :=
  match t with
  | [] => None
  | (k', v) :: r => if k =? k' then Some v else lookup k r
  end.

(** ['... %d' % n] *)
Definition fmt_d (prefix : string) (n : Z) : string :=
  (prefix ++ NilZero.string_of_int (Z.to_int n))%string.

Definition _get_enctype_profile (enctype : Z) : result EnctypeProfile :=
  match lookup enctype _enctype_table with
  | None => Raise (ValueError (fmt_d "Invalid enctype " enctype))
  | Some e => Ok e
  end.

Definition _get_checksum_profile (cksumtype : Z) : result ChecksumProfile :=
  match lookup cksumtype _checksum_table with
  | None => Raise (ValueError (fmt_d "Invalid cksumtype " cksumtype))
  | Some c => Ok c
  end.

(** [_Enctype.random_to_key] *)
Definition _Enctype_random_to_key (cls : EnctypeProfile) (seed : bytes) : Key :=
  mkKey (cls_enctype cls) seed.

(* ================================================================== *)
(** ** The primitives of PyCrypto

    The block cipher, the keyed hash, the password KDF and the random source
    belong to PyCrypto, not to this repository: they are parameters.  What
    PyCrypto builds around the block cipher (key-size check, ECB and CBC
    chaining over 16-byte blocks) is written out. *)

Inductive aes_mode : Type := MODE_ECB | MODE_CBC.

Record cipher : Type := mkCipher {
  c_key : bytes;
  c_mode : aes_mode;
  c_iv : bytes
}.

Definition bxor (x y : byte) : byte := byte_of_Z (Z.lxor (ord x) (ord y)).

Definition xor_block (p q : bytes) : bytes :=
  map (fun '(x, y) => bxor x y) (combine p q).

(** The 16-byte blocks of a string whose length is a multiple of 16. *)
Definition blocks16 (data : bytes) : list bytes :=
  map (fun i => slice data (Some (16 * i)) (Some (16 * i + 16)))
      (xrange (len data / 16)).

Section Crypto.

Variable aes_encrypt_block : bytes -> bytes -> bytes.
Variable aes_decrypt_block : bytes -> bytes -> bytes.
Variable HMAC_digest : bytes -> bytes -> hashmodule -> bytes.
Variable PBKDF2 : bytes -> bytes -> Z -> Z -> (bytes -> bytes -> bytes) -> bytes.
Variable get_random_bytes : Z -> bytes.

(** [AES.new(key, mode, IV)]; the empty key is refused first, with a
    message of its own. *)
Definition AES_new (key : bytes) (mode : aes_mode) (iv : bytes)
  : result cipher :=
  if len key =? 0 then Raise (ValueError "Key cannot be the null string")
  else if (len key =? 16) || (len key =? 24) || (len key =? 32) then
    match mode with
    | MODE_ECB => Ok (mkCipher key mode iv)
    | MODE_CBC =>
        if len iv =? 16 then Ok (mkCipher key mode iv)
        else Raise (ValueError "IV must be 16 bytes long")
    end
  else Raise (ValueError "AES key must be either 16, 24, or 32 bytes long").

Fixpoint cbc_encrypt_blocks (key prev : bytes) (blocks : list bytes)
  : list bytes :=
  match blocks with
  | [] => []
  | p :: r =>
      let c := aes_encrypt_block key (xor_block p prev) in
      c :: cbc_encrypt_blocks key c r
  end.

Fixpoint cbc_decrypt_blocks (key prev : bytes) (blocks : list bytes)
  : list bytes :=
  match blocks with
  | [] => []
  | c :: r =>
      xor_block (aes_decrypt_block key c) prev :: cbc_decrypt_blocks key c r
  end.

(** [aes.encrypt(data)] and [aes.decrypt(data)] on a fresh cipher object *)
Definition cipher_encrypt (aes : cipher) (data : bytes) : result bytes :=
  if len data mod 16 =? 0 then
    match c_mode aes with
    | MODE_ECB =>
        Ok (concat (map (aes_encrypt_block (c_key aes)) (blocks16 data)))
    | MODE_CBC =>
        Ok (concat (cbc_encrypt_blocks (c_key aes) (c_iv aes) (blocks16 data)))
    end
  else Raise (ValueError "Input strings must be a multiple of 16 in length").

Definition cipher_decrypt (aes : cipher) (data : bytes) : result bytes :=
  if len data mod 16 =? 0 then
    match c_mode aes with
    | MODE_ECB =>
        Ok (concat (map (aes_decrypt_block (c_key aes)) (blocks16 data)))
    | MODE_CBC =>
        Ok (concat (cbc_decrypt_blocks (c_key aes) (c_iv aes) (blocks16 data)))
    end
  else Raise (ValueError "Input strings must be a multiple of 16 in length").

(* ================================================================== *)
(** ** crypto.py: [_AESEnctype.basic_encrypt] and [basic_decrypt] *)

Definition _AESEnctype_basic_encrypt (key : Key) (plaintext : bytes)
  : result bytes :=
  assert! (16 <=? len plaintext) ;;
  aes <- AES_new (contents key) MODE_CBC (zeros 16) ;;
  padded <- _zeropad plaintext 16 ;;
  ctext <- cipher_encrypt aes padded ;;
  if 16 <? len plaintext then
    let lastlen :=
      if len plaintext mod 16 =? 0 then 16 else len plaintext mod 16 in
    Ok (slice ctext None (Some (-32)) ++ slice ctext (Some (-16)) None ++
        slice (slice ctext (Some (-32)) (Some (-16))) None (Some lastlen))
  else Ok ctext.

(** The [for b in cblocks[:-2]] loop, on the pair (plaintext, prev_cblock). *)
Fixpoint cbc_loop (aes : cipher) (blocks : list bytes)
    (plaintext prev_cblock : bytes) : result (bytes * bytes) :=
  match blocks with
  | [] => Ok (plaintext, prev_cblock)
  | blk :: r =>
      d <- cipher_decrypt aes blk ;;
      x <- _xorbytes d prev_cblock ;;
      cbc_loop aes r (plaintext ++ x) blk
  end.

Definition _AESEnctype_basic_decrypt (key : Key) (ciphertext : bytes)
  : result bytes :=
  assert! (16 <=? len ciphertext) ;;
  aes <- AES_new (contents key) MODE_ECB [] ;;
  if len ciphertext =? 16 then cipher_decrypt aes ciphertext
  else
    ps <- xrange3 0 (len ciphertext) 16 ;;
    let cblocks :=
      map (fun p => slice ciphertext (Some p) (Some (p + 16))) ps in
    lastblock <- getitem cblocks (-1) ;;
    let lastlen := len lastblock in
    st <- cbc_loop aes (slice cblocks None (Some (-2))) [] (zeros 16) ;;
    let '(plaintext, prev_cblock) := st in
    cb2 <- getitem cblocks (-2) ;;
    d2 <- cipher_decrypt aes cb2 ;;
    cb1 <- getitem cblocks (-1) ;;
    lastplaintext <- _xorbytes (slice d2 None (Some lastlen)) cb1 ;;
    let omitted := slice d2 (Some lastlen) None in
    d1 <- cipher_decrypt aes (cb1 ++ omitted) ;;
    x <- _xorbytes d1 prev_cblock ;;
    Ok ((plaintext ++ x) ++ lastplaintext).

(* ================================================================== *)
(** ** crypto.py: [_SimplifiedEnctype] *)

(** The [while len(rndseed) < cls.seedsize] loop of [derive], bounded by
    [fuel] iterations. *)
Fixpoint derive_loop (fuel : nat) (cls : EnctypeProfile) (key : Key)
    (plaintext rndseed : bytes) : result bytes :=
  if len rndseed <? seedsize cls then
    match fuel with
    | O => Raise LoopBound
    | S fuel' =>
        ciphertext <- _AESEnctype_basic_encrypt key plaintext ;;
        derive_loop fuel' cls key ciphertext (rndseed ++ ciphertext)
    end
  else Ok rndseed.

(** [derive(cls, key, constant)]: every pass appends a ciphertext of at least
    16 bytes, so [seedsize] bounds the number of passes. *)
Definition _SimplifiedEnctype_derive (cls : EnctypeProfile) (key : Key)
    (constant : bytes) : result Key :=
  plaintext <- _nfold constant (blocksize cls) ;;
  rndseed <- derive_loop (Z.to_nat (seedsize cls)) cls key plaintext [] ;;
  Ok (_Enctype_random_to_key cls
        (slice rndseed (Some 0) (Some (seedsize cls)))).

Definition _SimplifiedEnctype_encrypt (cls : EnctypeProfile) (key : Key)
    (keyusage : Z) (plaintext : bytes) (confounder : option bytes)
  : result bytes :=
  c55 <- pack_IB keyusage 85 ;;
  ki <- _SimplifiedEnctype_derive cls key c55 ;;
  cAA <- pack_IB keyusage 170 ;;
  ke <- _SimplifiedEnctype_derive cls key cAA ;;
  let confounder :=
    match confounder with
    | None => get_random_bytes (blocksize cls)
    | Some c => c
    end in
  padded <- _zeropad plaintext (padsize cls) ;;
  let basic_plaintext := confounder ++ padded in
  let hmac := HMAC_digest (contents ki) basic_plaintext (hashmod cls) in
  ct <- _AESEnctype_basic_encrypt ke basic_plaintext ;;
  Ok (ct ++ slice hmac None (Some (macsize cls))).

Definition _SimplifiedEnctype_decrypt (cls : EnctypeProfile) (key : Key)
    (keyusage : Z) (ciphertext : bytes) : result bytes :=
  c55 <- pack_IB keyusage 85 ;;
  ki <- _SimplifiedEnctype_derive cls key c55 ;;
  cAA <- pack_IB keyusage 170 ;;
  ke <- _SimplifiedEnctype_derive cls key cAA ;;
  if len ciphertext <? blocksize cls + macsize cls then
    Raise (ValueError "ciphertext too short")
  else
    let basic_ctext := slice ciphertext None (Some (- macsize cls)) in
    let mac := slice ciphertext (Some (- macsize cls)) None in
    r <- pymod (len basic_ctext) (padsize cls) ;;
    if negb (r =? 0) then
      Raise (ValueError "ciphertext does not meet padding requirement")
    else
      basic_plaintext <- _AESEnctype_basic_decrypt ke basic_ctext ;;
      let hmac := HMAC_digest (contents ki) basic_plaintext (hashmod cls) in
      let expmac := slice hmac None (Some (macsize cls)) in
      same <- _mac_equal mac expmac ;;
      if negb same then Raise (ValueError "ciphertext integrity failure")
      else Ok (slice basic_plaintext (Some (blocksize cls)) None).

(** [_AESEnctype.string_to_key]; [params or '\x00\x00\x10\x00'] takes the
    default for [None] and for the empty string.  The [print] of the
    iteration count is not modelled. *)
Definition _AESEnctype_string_to_key (cls : EnctypeProfile)
    (string salt : bytes) (params : option bytes) : result Key :=
  let packed :=
    match params with
    | None | Some [] => [x00; x00; x10; x00]
    | Some p => p
    end in
  iterations <- unpack_L packed ;;
  let prf := fun p s => HMAC_digest p s SHA in
  let seed := PBKDF2 string salt (seedsize cls) iterations prf in
  let tkey := _Enctype_random_to_key cls seed in
  _SimplifiedEnctype_derive cls tkey (lit "kerberos").

(* ================================================================== *)
(** ** crypto.py: [_SimplifiedChecksum] *)

Definition _SimplifiedChecksum_checksum (cls : ChecksumProfile) (key : Key)
    (keyusage : Z) (text : bytes) : result bytes :=
  c99 <- pack_IB keyusage 153 ;;
  kc <- _SimplifiedEnctype_derive (enc cls) key c99 ;;
  let hmac := HMAC_digest (contents kc) text (hashmod (enc cls)) in
  Ok (slice hmac None (Some (ck_macsize cls))).

Definition _SimplifiedChecksum_verify (cls : ChecksumProfile) (key : Key)
    (keyusage : Z) (text cksum : bytes) : result unit :=
  expected <- _SimplifiedChecksum_checksum cls key keyusage text ;;
  same <- _mac_equal cksum expected ;;
  if negb same then Raise (ValueError "checksum verification failure")
  else Ok tt.

(* ================================================================== *)
(** ** crypto.py: the module-level functions *)

Definition random_to_key (enctype : Z) (seed : bytes) : result Key :=
  e <- _get_enctype_profile enctype ;;
  if negb (len seed =? seedsize e) then
    Raise (ValueError "Wrong crypto seed length")
  else Ok (_Enctype_random_to_key e seed).

Definition string_to_key (enctype : Z) (string salt : bytes)
    (params : option bytes) : result Key :=
  e <- _get_enctype_profile enctype ;;
  _AESEnctype_string_to_key e string salt params.

Definition encrypt (key : Key) (keyusage : Z) (plaintext : bytes)
    (confounder : option bytes) : result bytes :=
  e <- _get_enctype_profile (enctype key) ;;
  _SimplifiedEnctype_encrypt e key keyusage plaintext confounder.

Definition decrypt (key : Key) (keyusage : Z) (ciphertext : bytes)
  : result bytes :=
  e <- _get_enctype_profile (enctype key) ;;
  _SimplifiedEnctype_decrypt e key keyusage ciphertext.

Definition make_checksum (cksumtype : Z) (key : Key) (keyusage : Z)
    (text : bytes) : result bytes :=
  c <- _get_checksum_profile cksumtype ;;
  _SimplifiedChecksum_checksum c key keyusage text.

Definition verify_checksum (cksumtype : Z) (key : Key) (keyusage : Z)
    (text cksum : bytes) : result unit :=
  c <- _get_checksum_profile cksumtype ;;
  _SimplifiedChecksum_verify c key keyusage text cksum.

End Crypto.

(* ================================================================== *)
(** ** spake.py

    [spake.py] imports modules outside the two files modelled here: the
    curve arithmetic ([ecc]), the DER encoders behind the three
    [make_*_encoding] functions ([asn1], [pyasn1]), and two functions that
    [crypto.py] does not define ([prfplus], and [seedsize], here
    [crypto_seedsize]).  They are parameters, as is each draw of
    [random.randrange].  In [vectors] a call of [output] adds one
    (prefix, bytes) entry to the log, and the log of a run that raises is
    dropped; the lines printed for an entry are modelled apart, as
    [output_lines] below. *)

Definition KEY_USAGE_SPAKE_TRANSCRIPT := 65.
Definition KEY_USAGE_SPAKE_FACTOR := 66.

(** The methods of a curve object [ec] that [vectors] calls; [ec_eqb] is
    [==] on points. *)
Record curve (point : Type) : Type := mkCurve {
  ec_add : point -> point -> point;
  ec_neg : point -> point;
  ec_mul : point -> Z -> point;
  ec_eqb : point -> point -> bool;
  ec_encode_point : point -> bytes;
  ec_encode_int : Z -> bytes;
  ec_decode_int : bytes -> Z
}.

Arguments ec_add {point} c _ _.
Arguments ec_neg {point} c _.
Arguments ec_mul {point} c _ _.
Arguments ec_eqb {point} c _ _.
Arguments ec_encode_point {point} c _.
Arguments ec_encode_int {point} c _.
Arguments ec_decode_int {point} c _.

(** Truth value of an optional byte string: [None] and [''] are false. *)
Definition truthy (s : option bytes) : bool :=
  match s with
  | None | Some [] => false
  | Some _ => true
  end.

Definition log := list (string * bytes).

(** [output(prefix, b)] *)
Definition output (out : log) (prefix : string) (s : bytes) : log :=
  out ++ [(prefix, s)].

Section Spake.

Variable aes_encrypt_block : bytes -> bytes -> bytes.
Variable HMAC_digest : bytes -> bytes -> hashmodule -> bytes.
Variable PBKDF2 : bytes -> bytes -> Z -> Z -> (bytes -> bytes -> bytes) -> bytes.
Variable prfplus : Key -> bytes -> Z -> bytes.
Variable crypto_seedsize : Z -> Z.
Variable make_support_encoding : Z -> bytes.
Variable make_challenge_encoding : Z -> bytes -> bytes.
Variable make_body_encoding : Z -> bytes.

Variable point : Type.

Definition update_checksum (cksumtype : Z) (key : Key) (cksum s : bytes)
  : result bytes :=
  make_checksum aes_encrypt_block HMAC_digest
    cksumtype key KEY_USAGE_SPAKE_TRANSCRIPT (cksum ++ s).

Definition derive_key (k : Key) (gnum : Z) (Kbytes cksum body : bytes)
    (n : Z) : result Key :=
  g4 <- pack_I gnum ;;
  e4 <- pack_I (enctype k) ;;
  n4 <- pack_I n ;;
  let s := lit "SPAKEkey" ++ g4 ++ e4 ++ Kbytes ++ cksum ++ body ++ n4 in
  random_to_key (enctype k) (prfplus k s (crypto_seedsize (enctype k))).

(** Lines 141 to 150 of [vectors]: the ephemeral scalars, the public points
    and the shared point with its three cross-checks.  [rx] and [ry] are the
    values the two calls of [random.randrange(0, order)] return; the call
    raises on an empty range.  Returns (x, y, X, Y, T, S, K). *)
Definition vectors_points (ec : curve point) (order cofactor : Z)
    (G M N : point) (w rx ry : Z)
  : result (Z * Z * point * point * point * point * point) :=
  if order <=? 0 then Raise (ValueError "empty range for randrange()")
  else
    let x := rx * cofactor in
    let y := ry * cofactor in
    let X := ec_mul ec G x in
    let Y := ec_mul ec G y in
    let T := ec_add ec (ec_mul ec M w) X in
    let S := ec_add ec (ec_mul ec N w) Y in
    let K := ec_mul ec X y in
    assert! (ec_eqb ec K (ec_mul ec Y x)) ;;
    assert! (ec_eqb ec K
               (ec_mul ec (ec_add ec S (ec_neg ec (ec_mul ec N w))) x)) ;;
    assert! (ec_eqb ec K
               (ec_mul ec (ec_add ec T (ec_neg ec (ec_mul ec M w))) y)) ;;
    Ok (x, y, X, Y, T, S, K).

(** Lines 160 to 180 of [vectors]: the transcript checksum.  Returns the
    final checksum and the log. *)
Definition vectors_transcript (cksumtype gnum : Z) (k : Key)
    (Tbytes Sbytes : bytes) (skip_support : bool)
    (rejected_challenge : option bytes) (out : log)
  : result (bytes * log) :=
  empty <- make_checksum aes_encrypt_block HMAC_digest cksumtype k 0 [] ;;
  let cksumlen := len empty in
  let cksum := zeros cksumlen in
  st <- (if truthy rejected_challenge then
           let rc := match rejected_challenge with
                     | Some r => r
                     | None => []
                     end in
           cksum <- update_checksum cksumtype k cksum rc ;;
           let out := output out "Optimistic SPAKEChallenge: " rc in
           let out :=
             output out "Checksum after optimist SPAKEChallenge: " cksum in
           Ok (cksum, out)
         else Ok (cksum, out)) ;;
  let '(cksum, out) := st in
  st <- (if negb skip_support then
           let support := make_support_encoding gnum in
           cksum <- update_checksum cksumtype k cksum support ;;
           let out := output out "SPAKESupport: " support in
           let out := output out "Checksum after SPAKESupport: " cksum in
           Ok (cksum, out)
         else Ok (cksum, out)) ;;
  let '(cksum, out) := st in
  let challenge := make_challenge_encoding gnum Tbytes in
  cksum <- update_checksum cksumtype k cksum challenge ;;
  let out := output out "SPAKEChallenge: " challenge in
  let out := output out "Checksum after SPAKEChallenge: " cksum in
  cksum <- update_checksum cksumtype k cksum Sbytes ;;
  let out := output out "Final checksum after pubkey: " cksum in
  Ok (cksum, out).

(** [vectors(enctype, cksumtype, gnum, ec, order, cofactor, wbytes, G, M, N,
    skip_support, rejected_challenge)] *)
Definition vectors (enctype cksumtype gnum : Z) (ec : curve point)
    (order cofactor wbytes : Z) (G M N : point) (skip_support : bool)
    (rejected_challenge : option bytes) (rx ry : Z) : result log :=
  assert! (negb skip_support || negb (truthy rejected_challenge)) ;;
  k <- string_to_key aes_encrypt_block HMAC_digest PBKDF2
         enctype (lit "password") (lit "ATHENA.MIT.EDUraeburn") None ;;
  g4 <- pack_I gnum ;;
  let wprf := prfplus k (lit "SPAKEsecret" ++ g4) wbytes in
  w <- pymod (ec_decode_int ec wprf) order ;;
  let out := output [] "key: " (contents k) in
  let out := output out "w: " (ec_encode_int ec w) in
  pts <- vectors_points ec order cofactor G M N w rx ry ;;
  let '(x, y, X, Y, T, S_, K) := pts in
  let out := output out "x: " (ec_encode_int ec x) in
  let out := output out "y: " (ec_encode_int ec y) in
  let out := output out "X: " (ec_encode_point ec X) in
  let out := output out "Y: " (ec_encode_point ec Y) in
  let out := output out "T: " (ec_encode_point ec T) in
  let out := output out "S: " (ec_encode_point ec S_) in
  let out := output out "K: " (ec_encode_point ec K) in
  st <- vectors_transcript cksumtype gnum k (ec_encode_point ec T)
          (ec_encode_point ec S_) skip_support rejected_challenge out ;;
  let '(cksum, out) := st in
  let body := make_body_encoding enctype in
  let out := output out "KDC-REQ-BODY: " body in
  let Kbytes := ec_encode_point ec K in
  K0 <- derive_key k gnum Kbytes cksum body 0 ;;
  K1 <- derive_key k gnum Kbytes cksum body 1 ;;
  K2 <- derive_key k gnum Kbytes cksum body 2 ;;
  K3 <- derive_key k gnum Kbytes cksum body 3 ;;
  let out := output out "K'[0]: " (contents K0) in
  let out := output out "K'[1]: " (contents K1) in
  let out := output out "K'[2]: " (contents K2) in
  let out := output out "K'[3]: " (contents K3) in
  Ok out.

End Spake.

(* ================================================================== *)
(** ** spake.py: the lines [output] prints

    [output(prefix, b)] prints the hexadecimal form of [b] after [prefix],
    on several lines when the two together exceed 69 characters; where no
    chunk length fits the prefix it writes a message to the standard error
    stream and leaves the program through [sys.exit(1)].  The strings are
    Python 2 byte strings; the [while] loop is bounded by the length of the
    hexadecimal string. *)

Inductive printed : Type :=
| Lines (lines : list bytes)              (* one element for each [print] *)
| SysExit (stderr : bytes) (status : Z)
| Unfinished.                             (* the loop bound was reached *)

(** [b.encode('hex')] *)
Definition hex_digit (d : Z) : byte :=
  if d <? 10 then byte_of_Z (48 + d) else byte_of_Z (87 + d).

Definition hex_encode (b : bytes) : bytes :=
  flat_map (fun x => [hex_digit (ord x / 16); hex_digit (ord x mod 16)]) b.

(** [' ' * n] *)
Definition spaces (n : Z) : bytes := repeat x20 (Z.to_nat n).

(** The [while len(s) > maxlen] loop: the lines it prints, and the final
    values of [prefix] and [s]. *)
Fixpoint wrap_loop (fuel : nat) (maxlen : Z) (prefix s : bytes)
  : option (list bytes * bytes * bytes) :=
  if maxlen <? len s then
    match fuel with
    | O => None
    | S fuel' =>
        let line := prefix ++ slice s None (Some maxlen) in
        let s := slice s (Some maxlen) None in
        let prefix := spaces (len prefix) in
        match wrap_loop fuel' maxlen prefix s with
        | Some (lines, prefix, s) => Some (line :: lines, prefix, s)
        | None => None
        end
    end
  else Some ([], prefix, s).

(** The chunk length [maxlen] chosen for a prefix and a hexadecimal string
    that do not fit one line; [None] where the code gives up. *)
Definition output_maxlen (maxlinelen : Z) (prefix s : bytes) : option Z :=
  if len prefix <=? maxlinelen - 64 then Some 64
  else if (len prefix <=? maxlinelen - 32) && (len s =? 64) then Some 32
  else if len prefix <=? maxlinelen - 48 then Some 48
  else if (len prefix <=? maxlinelen - 20) && (len s =? 40) then Some 20
  else if len prefix <=? maxlinelen - 32 then Some 32
  else None.

Definition output_lines (prefix : string) (b : bytes) : printed :=
  let prefix := lit prefix in
  let s := hex_encode b in
  let maxlinelen := 69 in
  if maxlinelen <? len prefix + len s then
    match output_maxlen maxlinelen prefix s with
    | None => SysExit (lit "formatting error!" ++ [x0a]) 1
    | Some maxlen =>
        match wrap_loop (length s) maxlen prefix s with
        | Some (lines, prefix, s) => Lines (lines ++ [prefix ++ s])
        | None => Unfinished
        end
    end
  else Lines [prefix ++ s].

(* ================================================================== *)
(** ** Vocabulary of the statements *)

(** [s[i]] for an index known to be in range *)
Definition znth {A} (d : A) (s : list A) (i : Z) : A := nth (Z.to_nat i) s d.

(** A 16-byte block, and the [k]-th 16-byte chunk of a string *)
Definition is_block (blk : bytes) : Prop := len blk = 16.

Definition chunk_at (s : bytes) (k : Z) : bytes :=
  slice s (Some (16 * k)) (Some (16 * k + 16)).

(** A key the AES cipher accepts *)
Definition aes_key (k : bytes) : Prop := len k = 16 \/ len k = 24 \/ len k = 32.

(** A key usage is an unsigned 32-bit number, the ['>I'] field of the
    derivation labels; the supported profiles are the two registered ones. *)
Definition uint32 (n : Z) : Prop := 0 <= n < 4294967296.

Definition supported (cls : EnctypeProfile) : Prop :=
  cls = _AES128CTS \/ cls = _AES256CTS.

(** The three errors [decrypt] raises itself are told apart from everything
    its callees can raise: a [quiet] computation returns, or raises something
    else. *)
Definition decrypt_error (e : exn) : bool :=
  match e with
  | ValueError m =>
      (m =? "ciphertext too short")%string
      || (m =? "ciphertext does not meet padding requirement")%string
      || (m =? "ciphertext integrity failure")%string
  | _ => false
  end.

Definition quiet {A} (r : result A) : Prop :=
  match r with
  | Ok _ => True
  | Raise e => decrypt_error e = false
  end.

(** The curve as an abelian group written additively, with [ec_mul] the
    action of the integers on it and [ec_eqb] deciding equality. *)
Record group_laws {point : Type} (ec : curve point) (zero : point) : Prop := {
  add_assoc : forall a b c,
    ec_add ec a (ec_add ec b c) = ec_add ec (ec_add ec a b) c;
  add_comm : forall a b, ec_add ec a b = ec_add ec b a;
  add_zero : forall a, ec_add ec a zero = a;
  add_neg : forall a, ec_add ec a (ec_neg ec a) = zero;
  mul_zero : forall a, ec_mul ec a 0 = zero;
  mul_succ : forall a n, ec_mul ec a (n + 1) = ec_add ec (ec_mul ec a n) a;
  eqb_eq : forall a b, ec_eqb ec a b = true <-> a = b
}.

(** The four kinds of transcript update, each recognised in the log by the
    line [vectors] prints after it. *)
Inductive update : Type :=
| RejectedChallenge   (* (a) the optimistic challenge the peer rejected *)
| Support             (* (b) the support message *)
| Challenge           (* (c) the challenge message *)
| Pubkey.             (* (d) the peer's public point *)

Definition update_of_label (l : string) : option update :=
  if (l =? "Checksum after optimist SPAKEChallenge: ")%string
  then Some RejectedChallenge
  else if (l =? "Checksum after SPAKESupport: ")%string then Some Support
  else if (l =? "Checksum after SPAKEChallenge: ")%string then Some Challenge
  else if (l =? "Final checksum after pubkey: ")%string then Some Pubkey
  else None.

Definition updates_of (out : log) : list update :=
  flat_map (fun e => match update_of_label (fst e) with
                     | Some u => [u]
                     | None => []
                     end) out.

(** The updates a run makes, by its two optional arguments. *)
Definition expected_updates (skip_support : bool)
    (rejected_challenge : option bytes) : list update :=
  (if truthy rejected_challenge then [RejectedChallenge] else [])
  ++ (if skip_support then [] else [Support])
  ++ [Challenge; Pubkey].

(** The messages behind them. *)
Definition expected_messages (skip_support : bool)
    (rejected_challenge : option bytes) (support challenge Sbytes : bytes)
  : list bytes :=
  (match rejected_challenge with
   | Some (x :: r) => [x :: r]
   | _ => []
   end)
  ++ (if skip_support then [] else [support])
  ++ [challenge; Sbytes].

Fixpoint fold_updates (upd : bytes -> bytes -> result bytes) (cksum : bytes)
    (msgs : list bytes) : result bytes :=
  match msgs with
  | [] => Ok cksum
  | m :: r => c <- upd cksum m ;; fold_updates upd c r
  end.

(** The updates of a run with their messages, and the updates found in a
    log with the checksums logged for them. *)
Definition expected_steps (skip_support : bool)
    (rejected_challenge : option bytes) (support challenge Sbytes : bytes)
  : list (update * bytes) :=
  combine (expected_updates skip_support rejected_challenge)
          (expected_messages skip_support rejected_challenge
             support challenge Sbytes).

Definition logged_updates (out : log) : list (update * bytes) :=
  flat_map (fun e => match update_of_label (fst e) with
                     | Some u => [(u, snd e)]
                     | None => []
                     end) out.

(** Making the updates one after the other: each step replaces the running
    checksum by [upd] of it and the message of the step, and yields the
    update with the new checksum. *)
Fixpoint trace_updates (upd : bytes -> bytes -> result bytes) (cksum : bytes)
    (steps : list (update * bytes)) : result (list (update * bytes)) :=
  match steps with
  | [] => Ok []
  | (u, m) :: r =>
      c <- upd cksum m ;;
      t <- trace_updates upd c r ;;
      Ok ((u, c) :: t)
  end.

(** A string cut into chunks and laid out under a prefix: the first chunk
    follows the prefix, the others follow as many spaces. *)
Definition indent (prefix : bytes) (chunks : list bytes) : list bytes :=
  match chunks with
  | [] => []
  | c :: r => (prefix ++ c) :: map (app (spaces (len prefix))) r
  end.

(** A log entry that [output] prints, rather than leaving the program. *)
Definition prints (e : string * bytes) : Prop :=
  exists lines, output_lines (fst e) (snd e) = Lines lines.

(* ================================================================== *)
(** ** The string-to-key parameter, in the words of the specification

    The iteration count is "the 4-byte big-endian unsigned integer held in
    params, defaulting to 4096 when params is absent". *)

Definition be_uint (p : bytes) : Z :=
  fold_left (fun acc x => acc * 256 + ord x) p 0.

Definition iteration_count (params : option bytes) : Z :=
  match params with
  | None => 4096
  | Some p => be_uint p
  end.

(** The value of a list of base-256 digits, most significant first; a digit
    may exceed 255 while carries are pending. *)
Definition digits_value (v : list Z) : Z :=
  fold_left (fun acc x => acc * 256 + x) v 0.

(* ================================================================== *)
(** ** A small instance of the parameters

    Stand-ins for the PyCrypto primitives and the curve, on which the model
    runs: a key-dependent involutive block map for AES, a 20-byte keyed
    digest, and the integers under addition as the group. *)

Definition toy_encrypt_block (k blk : bytes) : bytes :=
  rev (xor_block blk (firstn 16 k)).

Definition toy_decrypt_block (k blk : bytes) : bytes :=
  xor_block (rev blk) (firstn 16 k).

Definition toy_digest (k m : bytes) (h : hashmodule) : bytes :=
  firstn 20 (rev m ++ k ++ zeros 20).

Definition toy_PBKDF2 (password salt : bytes) (dkLen count : Z)
    (prf : bytes -> bytes -> bytes) : bytes :=
  firstn (Z.to_nat dkLen) (prf password salt ++ zeros dkLen).

Definition toy_random_bytes (n : Z) : bytes := zeros n.

Definition toy_prfplus (k : Key) (s : bytes) (n : Z) : bytes :=
  firstn (Z.to_nat n) (rev s ++ contents k ++ zeros n).

Definition toy_seedsize (etype : Z) : Z :=
  if etype =? 17 then 16 else 32.

Definition Zcurve : curve Z :=
  {| ec_add := Z.add;
     ec_neg := Z.opp;
     ec_mul := Z.mul;
     ec_eqb := Z.eqb;
     ec_encode_point := fun p => [byte_of_Z (p mod 256)];
     ec_encode_int := fun n => [byte_of_Z (n mod 256)];
     ec_decode_int := fun s => be_uint s |}.

Definition toy_support_encoding (gnum : Z) : bytes :=
  lit "support" ++ [byte_of_Z gnum].

Definition toy_challenge_encoding (gnum : Z) (Tbytes : bytes) : bytes :=
  lit "challenge" ++ [byte_of_Z gnum] ++ Tbytes.

Definition toy_body_encoding (etype : Z) : bytes :=
  lit "body" ++ [byte_of_Z etype].

Definition toy_vectors (skip_support : bool)
    (rejected_challenge : option bytes) : result log :=
  vectors toy_encrypt_block toy_digest toy_PBKDF2 toy_prfplus toy_seedsize
    toy_support_encoding toy_challenge_encoding toy_body_encoding
    Z 18 16 1 Zcurve 101 1 32 3 5 7 skip_support rejected_challenge 11 13.

(** The log of the default toy run. *)
Definition toy_log_default : log :=
  Eval vm_compute in
    match toy_vectors false None with
    | Ok out => out
    | Raise _ => []
    end.

Definition key17 : Key := mkKey 17 (lit "0123456789abcdef").
Definition key18 : Key := mkKey 18 (lit "0123456789abcdef0123456789abcdef").

(** The 16-byte fold of the label ["kerberos"]. *)
Definition kerberos16 : bytes :=
  Eval vm_compute in
    match _nfold (lit "kerberos") 16 with
    | Ok p => p
    | Raise _ => []
    end.

(** A ciphertext the toy instance accepts, cut into body and MAC. *)
Definition toy_body : bytes :=
  Eval vm_compute in
    match encrypt toy_encrypt_block toy_digest toy_random_bytes
                  key17 2 (lit "9 bytesss") (Some (lit "CONFOUNDERconfou"))
    with
    | Ok c => firstn 25 c
    | Raise _ => []
    end.

Definition toy_mac : bytes :=
  Eval vm_compute in
    match encrypt toy_encrypt_block toy_digest toy_random_bytes
                  key17 2 (lit "9 bytesss") (Some (lit "CONFOUNDERconfou"))
    with
    | Ok c => skipn 25 c
    | Raise _ => []
    end.

(** The lines of one call of [output], and one run of the transcript
    block. *)
Definition toy_lines : list bytes :=
  Eval vm_compute in
    match output_lines "KDC-REQ-BODY: "
            (lit "a request body of forty bytes in all ...")
    with
    | Lines l => l
    | _ => []
    end.

Definition toy_transcript : bytes * log :=
  Eval vm_compute in
    match vectors_transcript toy_encrypt_block toy_digest
            toy_support_encoding toy_challenge_encoding
            16 1 key18 (lit "T") (lit "S") false (Some (lit "rejected")) []
    with
    | Ok r => r
    | Raise _ => ([], [])
    end.

(* ================================================================== *)
(** * Facts *)

(** ** Bytes and small integers *)

Lemma ord_range (x : byte) : 0 <= ord x < 256.
Proof.
  unfold ord. pose proof (Byte.to_N_bounded x). lia.
Qed.

Lemma byte_of_Z_ord (x : byte) : byte_of_Z (ord x) = x.
Proof.
  unfold byte_of_Z, ord. now rewrite N2Z.id, Byte.of_to_N.
Qed.

Lemma ord_byte_of_Z (z : Z) : 0 <= z < 256 -> ord (byte_of_Z z) = z.
Proof.
  intros Hz. unfold byte_of_Z, ord.
  destruct (Byte.of_N (Z.to_N z)) as [x|] eqn:E.
  - apply Byte.to_of_N in E. rewrite E. lia.
  - apply Byte.of_N_None_iff in E. lia.
Qed.

Lemma chr_ok (z : Z) : 0 <= z < 256 -> chr z = Ok (byte_of_Z z).
Proof.
  intros Hz. unfold chr, byte_of_Z.
  replace ((0 <=? z) && (z <? 256)) with true by lia.
  destruct (Byte.of_N (Z.to_N z)) eqn:E; [reflexivity|].
  apply Byte.of_N_None_iff in E. lia.
Qed.

Lemma chr_ord (x : byte) : chr (ord x) = Ok x.
Proof.
  rewrite chr_ok by apply ord_range. now rewrite byte_of_Z_ord.
Qed.

(** An integer fits in a byte exactly when it has no bit from position 8 up. *)
Lemma small_bits (z : Z) :
  0 <= z < 256 <-> (forall i, 8 <= i -> Z.testbit z i = false).
Proof.
  split.
  - intros Hz i Hi. rewrite <- (Z.mod_small z (2 ^ 8)) by lia.
    apply Z.mod_pow2_bits_high. lia.
  - intros H.
    assert (E : z mod 2 ^ 8 = z).
    { apply Z.bits_inj'. intros n Hn.
      destruct (Z.ltb_spec n 8).
      - apply Z.mod_pow2_bits_low. lia.
      - rewrite Z.mod_pow2_bits_high by lia. symmetry. apply H. lia. }
    pose proof (Z.mod_pos_bound z (2 ^ 8)). lia.
Qed.

Lemma lxor_small (x y : Z) :
  0 <= x < 256 -> 0 <= y < 256 -> 0 <= Z.lxor x y < 256.
Proof.
  rewrite !small_bits. intros Hx Hy i Hi.
  now rewrite Z.lxor_spec, Hx, Hy.
Qed.

Lemma lor_small (x y : Z) :
  0 <= x < 256 -> 0 <= y < 256 -> 0 <= Z.lor x y < 256.
Proof.
  rewrite !small_bits. intros Hx Hy i Hi.
  now rewrite Z.lor_spec, Hx, Hy.
Qed.

Lemma land255_small (x : Z) : 0 <= Z.land x 255 < 256.
Proof.
  change 255 with (Z.ones 8). rewrite Z.land_ones by lia.
  apply Z.mod_pos_bound. lia.
Qed.

Lemma shiftr_small (x n : Z) : 0 <= x < 256 -> 0 <= n -> 0 <= Z.shiftr x n < 256.
Proof.
  intros Hx Hn. rewrite Z.shiftr_div_pow2 by lia.
  assert (0 < 2 ^ n) by (apply Z.pow_pos_nonneg; lia).
  split.
  - apply Z.div_pos; lia.
  - apply Z.le_lt_trans with x; [|lia].
    apply Z.div_le_upper_bound; nia.
Qed.

Lemma no_carry_small (x : Z) :
  (Z.land x (Z.lnot 255) =? 0) = true <-> 0 <= x < 256.
Proof.
  rewrite Z.eqb_eq, small_bits. split.
  - intros H i Hi.
    assert (B : Z.testbit (Z.land x (Z.lnot 255)) i = false)
      by (rewrite H; apply Z.bits_0).
    rewrite Z.land_spec, Z.lnot_spec in B by lia.
    change 255 with (Z.ones 8) in B.
    rewrite Z.ones_spec_high in B by lia.
    now rewrite andb_true_r in B.
  - intros H. apply Z.bits_inj'. intros n Hn.
    rewrite Z.bits_0, Z.land_spec, Z.lnot_spec by lia.
    change 255 with (Z.ones 8).
    destruct (Z.ltb_spec n 8).
    + rewrite Z.ones_spec_low by lia. apply andb_false_r.
    + rewrite H by lia. reflexivity.
Qed.

Lemma bxor_zero_r (x : byte) : bxor x x00 = x.
Proof.
  unfold bxor. change (ord x00) with 0. rewrite Z.lxor_0_r.
  apply byte_of_Z_ord.
Qed.

Lemma bxor_cancel (x y : byte) : bxor (bxor x y) y = x.
Proof.
  unfold bxor.
  rewrite ord_byte_of_Z by (apply lxor_small; apply ord_range).
  rewrite Z.lxor_assoc, Z.lxor_nilpotent, Z.lxor_0_r.
  apply byte_of_Z_ord.
Qed.

(** ** The error monad *)

Lemma bind_Ok {A B} (m : result A) (k : A -> result B) (y : B) :
  bind m k = Ok y -> exists a, m = Ok a /\ k a = Ok y.
Proof.
  destruct m as [a|e]; simpl; intros H; [eauto | discriminate].
Qed.

Lemma mapM_map {A B} (f : A -> result B) (g : A -> B) (l : list A) :
  (forall x, In x l -> f x = Ok (g x)) -> mapM f l = Ok (map g l).
Proof.
  induction l as [|x r IH]; simpl; intros H; [reflexivity|].
  rewrite H by now left. simpl. rewrite IH by (intros; apply H; now right).
  reflexivity.
Qed.

Lemma mapM_Forall {A B} (P : B -> Prop) (f : A -> result B) (l : list A) :
  (forall x, In x l -> exists y, f x = Ok y /\ P y) ->
  exists r, mapM f l = Ok r /\ Forall P r /\ length r = length l.
Proof.
  induction l as [|x r IH]; simpl; intros H.
  - exists []. auto.
  - destruct (H x) as (y & Ey & Py); [now left|].
    destruct IH as (ys & Eys & Pys & Lys); [intros; apply H; now right|].
    exists (y :: ys). rewrite Ey, Eys. simpl. auto.
Qed.

(** ** Lists, indices and slices *)

Lemma len_nonneg {A} (s : list A) : 0 <= len s.
Proof. unfold len. lia. Qed.

Lemma len_app {A} (s t : list A) : len (s ++ t) = len s + len t.
Proof. unfold len. rewrite length_app. lia. Qed.

Lemma in_xrange (n i : Z) : In i (xrange n) <-> 0 <= i < n.
Proof.
  unfold xrange. rewrite in_map_iff. split.
  - intros (k & <- & Hk). apply in_seq in Hk. lia.
  - intros Hi. exists (Z.to_nat i). split; [lia|]. apply in_seq. lia.
Qed.

Lemma length_xrange (n : Z) : length (xrange n) = Z.to_nat n.
Proof. unfold xrange. now rewrite length_map, length_seq. Qed.

Lemma getitem_znth {A} (d : A) (s : list A) (i : Z) :
  0 <= i < len s -> getitem s i = Ok (znth d s i).
Proof.
  intros Hi. unfold getitem, znth.
  replace (i <? 0) with false by lia.
  replace ((0 <=? i) && (i <? len s)) with true by lia.
  destruct (nth_error s (Z.to_nat i)) as [a|] eqn:E.
  - now rewrite (nth_error_nth _ _ d E).
  - apply nth_error_None in E. unfold len in *. lia.
Qed.

Lemma getitem_znth_neg {A} (d : A) (s : list A) (i : Z) :
  - len s <= i < 0 -> getitem s i = Ok (znth d s (i + len s)).
Proof.
  intros Hi. unfold getitem, znth.
  replace (i <? 0) with true by lia.
  replace ((0 <=? i + len s) && (i + len s <? len s)) with true by lia.
  destruct (nth_error s (Z.to_nat (i + len s))) as [a|] eqn:E.
  - now rewrite (nth_error_nth _ _ d E).
  - apply nth_error_None in E. unfold len in *. lia.
Qed.

Lemma map_nth_seq {A} (d : A) (s : list A) :
  map (fun k => nth k s d) (seq 0 (length s)) = s.
Proof.
  induction s as [|a r IH]; simpl; [reflexivity|].
  f_equal. rewrite <- seq_shift, map_map. exact IH.
Qed.

Lemma map_znth_xrange {A} (d : A) (s : list A) :
  map (znth d s) (xrange (len s)) = s.
Proof.
  unfold xrange, len, znth. rewrite Nat2Z.id, map_map.
  etransitivity; [|apply (map_nth_seq d s)].
  apply map_ext. intros k. now rewrite Nat2Z.id.
Qed.

Lemma firstn_to_nat_len {A} (z : Z) (a b : list A) :
  z = len a -> firstn (Z.to_nat z) (a ++ b) = a.
Proof.
  intros ->. unfold len. rewrite Nat2Z.id.
  rewrite firstn_app, Nat.sub_diag, firstn_all. simpl. apply app_nil_r.
Qed.

Lemma skipn_to_nat_len {A} (z : Z) (a b : list A) :
  z = len a -> skipn (Z.to_nat z) (a ++ b) = b.
Proof.
  intros ->. unfold len. rewrite Nat2Z.id.
  rewrite skipn_app, Nat.sub_diag, skipn_all. reflexivity.
Qed.

Lemma firstn_to_nat_all {A} (z : Z) (a : list A) :
  len a <= z -> firstn (Z.to_nat z) a = a.
Proof.
  intros H. apply firstn_all2. unfold len in H. lia.
Qed.

(** Slices with bounds counted from the left *)
Lemma slice_lo_hi {A} (s : list A) (lo hi : Z) :
  0 <= lo -> 0 <= hi ->
  slice s (Some lo) (Some hi) =
  firstn (Z.to_nat (hi - lo)) (skipn (Z.to_nat lo) s).
Proof.
  intros Hlo Hhi. unfold slice, clamp.
  replace (lo <? 0) with false by lia. replace (hi <? 0) with false by lia.
  destruct (Z.le_gt_cases lo (len s)) as [L|L].
  - rewrite (Z.min_l lo) by lia.
    destruct (Z.le_gt_cases hi (len s)) as [H|H].
    + now rewrite (Z.min_l hi) by lia.
    + rewrite (Z.min_r hi) by lia.
      rewrite !firstn_all2; [reflexivity| |]; rewrite length_skipn;
        unfold len in *; lia.
  - rewrite !skipn_all2 by (unfold len in *; lia).
    now rewrite !firstn_nil.
Qed.

Lemma slice_hi {A} (s : list A) (hi : Z) :
  0 <= hi -> slice s None (Some hi) = firstn (Z.to_nat hi) s.
Proof.
  intros Hhi. unfold slice, clamp. replace (hi <? 0) with false by lia.
  simpl skipn. rewrite Z.sub_0_r.
  destruct (Z.le_gt_cases hi (len s)) as [H|H].
  - now rewrite Z.min_l by lia.
  - rewrite Z.min_r by lia.
    rewrite !firstn_all2; [reflexivity| |]; unfold len in *; lia.
Qed.

Lemma slice_lo {A} (s : list A) (lo : Z) :
  0 <= lo -> slice s (Some lo) None = skipn (Z.to_nat lo) s.
Proof.
  intros Hlo. unfold slice, clamp. replace (lo <? 0) with false by lia.
  destruct (Z.le_gt_cases lo (len s)) as [L|L].
  - rewrite Z.min_l by lia.
    apply firstn_all2. rewrite length_skipn. unfold len. lia.
  - rewrite !skipn_all2 by (unfold len in *; lia). apply firstn_nil.
Qed.

(** Slices with bounds counted from the right, on a concatenation *)
Lemma slice_app_neg_hi {A} (a c : list A) :
  0 < len c -> slice (a ++ c) None (Some (- len c)) = a.
Proof.
  intros Hc. unfold slice, clamp. rewrite len_app.
  pose proof (len_nonneg a).
  replace (- len c <? 0) with true by lia.
  rewrite Z.max_l by lia. simpl skipn.
  apply firstn_to_nat_len. lia.
Qed.

Lemma slice_app_neg_lo {A} (a c : list A) :
  0 < len c -> slice (a ++ c) (Some (- len c)) None = c.
Proof.
  intros Hc. unfold slice, clamp. rewrite len_app.
  pose proof (len_nonneg a).
  replace (- len c <? 0) with true by lia.
  rewrite Z.max_l by lia.
  rewrite (skipn_to_nat_len _ a c) by lia.
  apply firstn_to_nat_all. lia.
Qed.

Lemma slice_app_neg_mid {A} (a m c : list A) :
  0 < len c ->
  slice (a ++ m ++ c) (Some (- (len m + len c))) (Some (- len c)) = m.
Proof.
  intros Hc. unfold slice, clamp. rewrite !len_app.
  pose proof (len_nonneg a). pose proof (len_nonneg m).
  replace (- (len m + len c) <? 0) with true by lia.
  replace (- len c <? 0) with true by lia.
  rewrite !Z.max_l by lia.
  rewrite (skipn_to_nat_len _ a (m ++ c)) by lia.
  apply firstn_to_nat_len. lia.
Qed.

Lemma slice_app_shift {A} (a r : list A) (lo hi : Z) :
  0 <= lo -> 0 <= hi ->
  slice (a ++ r) (Some (len a + lo)) (Some (len a + hi)) =
  slice r (Some lo) (Some hi).
Proof.
  intros Hlo Hhi. pose proof (len_nonneg a).
  rewrite !slice_lo_hi by lia.
  replace (Z.to_nat (len a + lo)) with (Z.to_nat lo + length a)%nat
    by (unfold len; lia).
  rewrite <- skipn_skipn.
  replace (skipn (length a) (a ++ r)) with r
    by (rewrite skipn_app, Nat.sub_diag, skipn_all; reflexivity).
  f_equal. lia.
Qed.

Lemma xrange_succ (m : Z) :
  0 <= m -> xrange (1 + m) = 0 :: map (fun k => k + 1) (xrange m).
Proof.
  intros Hm. unfold xrange.
  replace (Z.to_nat (1 + m)) with (S (Z.to_nat m)) by lia.
  simpl. f_equal. rewrite <- seq_shift, !map_map.
  apply map_ext. intros k. lia.
Qed.

(** ** Cutting a string into 16-byte blocks *)

Lemma len_concat_blocks (bs : list bytes) :
  Forall is_block bs -> len (concat bs) = 16 * len bs.
Proof.
  induction 1 as [|x r Hx Hr IH]; [reflexivity|].
  simpl concat. rewrite len_app, IH, Hx. unfold len. simpl length. lia.
Qed.

Lemma chunk_at_0 (s : bytes) : chunk_at s 0 = firstn (Z.to_nat 16) s.
Proof.
  unfold chunk_at. rewrite slice_lo_hi by lia. reflexivity.
Qed.

Lemma chunks_concat (bs : list bytes) (t : bytes) :
  Forall is_block bs -> len t <= 16 ->
  map (chunk_at (concat bs ++ t))
      (xrange ((len (concat bs ++ t) + 15) / 16)) =
  bs ++ match t with [] => [] | _ => [t] end.
Proof.
  intros Hbs Ht. induction Hbs as [|x r Hx Hr IH].
  - simpl concat. simpl app at 1 2.
    destruct t as [|c t'] eqn:Et; [reflexivity|]. rewrite <- Et in *.
    assert (0 < len t) by (subst t; unfold len; simpl; lia).
    replace ((len t + 15) / 16) with 1
      by (apply Z.div_unique with (len t - 1); lia).
    change (xrange 1) with [0]. cbn [map app]. rewrite chunk_at_0.
    f_equal. apply firstn_to_nat_all. lia.
  - simpl concat. rewrite <- app_assoc.
    pose proof (len_nonneg (concat r ++ t)) as Hn.
    rewrite (len_app x), Hx.
    replace ((16 + len (concat r ++ t) + 15) / 16)
      with (1 + (len (concat r ++ t) + 15) / 16)
      by (rewrite <- Z.div_add_l by lia; f_equal; lia).
    rewrite xrange_succ by (apply Z.div_pos; lia).
    cbn [map app]. rewrite map_map. f_equal.
    + rewrite chunk_at_0.
      apply firstn_to_nat_len. unfold is_block in Hx. now rewrite Hx.
    + rewrite <- IH. apply map_ext_in. intros k Hk.
      apply in_xrange in Hk. unfold chunk_at.
      replace (16 * (k + 1)) with (len x + 16 * k)
        by (unfold is_block in Hx; lia).
      replace (len x + 16 * k + 16) with (len x + (16 * k + 16)) by lia.
      apply slice_app_shift; lia.
Qed.

(** Every string longer than one block is a run of full blocks, then one
    more full block, then a tail of 1 to 16 bytes. *)
Lemma split_last_two (n : nat) (s : bytes) :
  (length s <= 16 * n + 32)%nat -> 16 < len s ->
  exists bs pen last,
    s = concat bs ++ pen ++ last /\ Forall is_block bs /\
    is_block pen /\ 0 < len last <= 16.
Proof.
  revert s. induction n as [|n IH]; intros s Hn Hs.
  - exists [], (firstn 16 s), (skipn 16 s). cbn [concat app].
    rewrite firstn_skipn. unfold is_block, len in *.
    rewrite length_firstn, length_skipn. repeat split; auto; lia.
  - destruct (Z.le_gt_cases (len s) 32) as [H|H].
    + exists [], (firstn 16 s), (skipn 16 s). cbn [concat app].
      rewrite firstn_skipn. unfold is_block, len in *.
      rewrite length_firstn, length_skipn. repeat split; auto; lia.
    + destruct (IH (skipn 16 s)) as (bs & pen & last & E & Hbs & Hp & Hl).
      * rewrite length_skipn. lia.
      * unfold len in *. rewrite length_skipn. lia.
      * exists (firstn 16 s :: bs), pen, last. cbn [concat].
        rewrite <- app_assoc, <- E, firstn_skipn.
        split; [reflexivity|]. split; [|split; assumption].
        constructor; [|assumption].
        unfold is_block, len in *. rewrite length_firstn. lia.
Qed.

(** ** [_nfold] *)

Lemma getitem_defined {A} (s : list A) (i : Z) :
  - len s <= i < len s -> exists a, getitem s i = Ok a.
Proof.
  intros Hi. destruct s as [|d s']; [unfold len in Hi; simpl in Hi; lia|].
  destruct (Z.lt_ge_cases i 0).
  - eexists. apply (getitem_znth_neg d). lia.
  - eexists. apply (getitem_znth d). lia.
Qed.

Lemma shiftl8_low (y : Z) : Z.land (Z.shiftl y 8) 255 = 0.
Proof.
  change 255 with (Z.ones 8). rewrite Z.land_ones, Z.shiftl_mul_pow2 by lia.
  apply Z.mod_mul. lia.
Qed.

(** Rotating by zero bits copies the string. *)
Lemma rotate_right_0 (s : bytes) : s <> [] -> rotate_right s 0 = Ok s.
Proof.
  intros Hs. unfold rotate_right.
  assert (Hn : 0 < len s).
  { destruct s; [congruence | unfold len; simpl; lia]. }
  unfold pymod. replace (len s =? 0) with false by lia.
  change (0 / 8) with 0. change (0 mod 8) with 0.
  rewrite Z.mod_0_l by lia. cbn [bind].
  rewrite (mapM_map _ (znth x00 s)); [now rewrite map_znth_xrange|].
  intros i Hi. apply in_xrange in Hi.
  rewrite Z.sub_0_r, (getitem_znth x00) by lia. cbn [bind].
  destruct (getitem_defined s (i - 1)) as (y & ->); [lia|]. cbn [bind].
  rewrite Z.shiftr_0_r, Z.sub_0_r, shiftl8_low, Z.lor_0_r.
  apply chr_ord.
Qed.

(** C7: for a non-empty [s], [_nfold(s, len(s))] is [s]: one copy rotated by
    zero bits, one slice, and [reduce] over a single slice returns it. *)
Theorem nfold_same_length (s : bytes) : s <> [] -> _nfold s (len s) = Ok s.
Proof.
  intros Hs. unfold _nfold.
  assert (Hn : 0 < len s).
  { destruct s; [congruence | unfold len; simpl; lia]. }
  set (n := len s) in *.
  assert (Hg : gcd n n = n).
  { unfold gcd. replace (n =? 0) with false by lia.
    rewrite Z.gcd_diag, Z.sgn_pos by lia. lia. }
  rewrite Hg. unfold pydiv. replace (n =? 0) with false by lia.
  cbn [bind]. rewrite Z.div_mul by lia.
  replace (n =? 0) with false by lia. cbn [bind].
  rewrite Z.div_same by lia. change (xrange 1) with [0].
  cbn [mapM]. change (13 * 0) with 0. rewrite rotate_right_0 by assumption.
  cbn [bind concat]. rewrite app_nil_r.
  unfold xrange3. replace (n =? 0) with false by lia.
  replace (0 <? n) with true by lia.
  replace ((n - 0 + n - 1) / n) with 1
    by (apply Z.div_unique with (n - 1); lia).
  change (xrange 1) with [0]. cbn [bind map reduce reduce_from].
  rewrite slice_lo_hi by lia.
  f_equal. change (Z.to_nat 0) with 0%nat. cbn [skipn].
  apply firstn_to_nat_all. subst n. lia.
Qed.

Lemma nfold_same_length_witness :
  _nfold (lit "kerberos") (len (lit "kerberos")) = Ok (lit "kerberos").
Proof.
  apply (nfold_same_length (lit "kerberos")). discriminate.
Defined.

Lemma rotate_right_defined (s : bytes) (nbits : Z) :
  s <> [] -> exists r, rotate_right s nbits = Ok r /\ len r = len s.
Proof.
  intros Hs. unfold rotate_right.
  assert (Hn : 0 < len s).
  { destruct s; [congruence | unfold len; simpl; lia]. }
  unfold pymod. replace (len s =? 0) with false by lia. cbn [bind].
  pose proof (Z.mod_pos_bound (nbits / 8) (len s) Hn) as Hq.
  pose proof (Z.mod_pos_bound nbits 8 eq_refl) as Hr.
  set (q := (nbits / 8) mod len s) in *. set (rem := nbits mod 8) in *.
  match goal with |- context [mapM ?f ?l] =>
    destruct (mapM_Forall (fun _ => True) f l) as (r & E & _ & L)
  end.
  - intros i Hi. apply in_xrange in Hi.
    destruct (getitem_defined s (i - q)) as (x & ->); [lia|].
    destruct (getitem_defined s (i - q - 1)) as (y & ->); [lia|].
    cbn [bind]. eexists. split; [|exact I].
    apply chr_ok. apply lor_small.
    + apply shiftr_small; [apply ord_range | lia].
    + apply land255_small.
  - exists r. split; [exact E|].
    unfold len in *. rewrite L, length_xrange. lia.
Qed.

Lemma sumZ_app (u v : list Z) : sumZ (u ++ v) = sumZ u + sumZ v.
Proof.
  induction u as [|x u IH]; simpl; [reflexivity|]. rewrite IH. lia.
Qed.

Lemma sumZ_map_add {A} (f g : A -> Z) (l : list A) :
  sumZ (map (fun i => f i + g i) l) = sumZ (map f l) + sumZ (map g l).
Proof.
  induction l as [|x l IH]; simpl; [reflexivity|]. rewrite IH. lia.
Qed.

Lemma sumZ_nonneg (v : list Z) : Forall (fun x => 0 <= x) v -> 0 <= sumZ v.
Proof.
  induction 1; simpl; lia.
Qed.

Lemma xrange_snoc (m : Z) : 0 <= m -> xrange (m + 1) = xrange m ++ [m].
Proof.
  intros Hm. unfold xrange.
  replace (Z.to_nat (m + 1)) with (Z.to_nat m + 1)%nat by lia.
  rewrite seq_app, map_app. simpl. f_equal. f_equal. lia.
Qed.

(** Reading a list one place to the right, cyclically, moves its head to the
    end. *)
Lemma map_znth_rot (a : Z) (r : list Z) :
  map (fun i => znth 0 (a :: r) ((i + 1) mod len (a :: r)))
      (xrange (len (a :: r))) = r ++ [a].
Proof.
  assert (Hl : len (a :: r) = len r + 1) by (unfold len; simpl; lia).
  pose proof (len_nonneg r) as Hr.
  rewrite Hl, xrange_snoc, map_app by lia. f_equal.
  - etransitivity; [|apply (map_znth_xrange 0 r)].
    apply map_ext_in. intros i Hi. apply in_xrange in Hi.
    rewrite Z.mod_small by lia. unfold znth.
    replace (Z.to_nat (i + 1)) with (S (Z.to_nat i)) by lia. reflexivity.
  - simpl. rewrite Z.mod_same by lia. reflexivity.
Qed.

Lemma carry_step_eq (v : list Z) :
  v <> [] ->
  carry_step (len v) v =
  Ok (map (fun i => Z.shiftr (znth 0 v ((i + 1) mod len v)) 8
                    + Z.land (znth 0 v i) 255)
          (xrange (len v))).
Proof.
  intros Hv. unfold carry_step. apply mapM_map.
  intros i Hi. apply in_xrange in Hi.
  rewrite (getitem_znth 0 v i) by lia.
  destruct (Z.eq_dec i (len v - 1)) as [->|Hne].
  - replace (len v - 1 - len v + 1) with 0 by lia.
    rewrite (getitem_znth 0) by lia.
    replace (len v - 1 + 1) with (len v) by lia.
    rewrite Z.mod_same by lia. reflexivity.
  - rewrite (getitem_znth_neg 0) by lia.
    replace (i - len v + 1 + len v) with (i + 1) by lia.
    rewrite Z.mod_small by lia. reflexivity.
Qed.

Lemma split_byte (x : Z) : x = 256 * Z.shiftr x 8 + Z.land x 255.
Proof.
  change 255 with (Z.ones 8).
  rewrite Z.land_ones, Z.shiftr_div_pow2 by lia.
  apply Z.div_mod. lia.
Qed.

Lemma sumZ_split (v : list Z) :
  sumZ v = 256 * sumZ (map (fun x => Z.shiftr x 8) v)
           + sumZ (map (fun x => Z.land x 255) v).
Proof.
  induction v as [|x v IH]; [reflexivity|].
  cbn [map sumZ fold_right]. fold (sumZ v).
  fold (sumZ (map (fun x => Z.shiftr x 8) v)).
  fold (sumZ (map (fun x => Z.land x 255) v)).
  pose proof (split_byte x). lia.
Qed.

Lemma sumZ_carry_step (v : list Z) :
  v <> [] ->
  sumZ (map (fun i => Z.shiftr (znth 0 v ((i + 1) mod len v)) 8
                      + Z.land (znth 0 v i) 255)
            (xrange (len v)))
  = sumZ (map (fun x => Z.shiftr x 8) v)
    + sumZ (map (fun x => Z.land x 255) v).
Proof.
  intros Hv.
  rewrite (sumZ_map_add
             (fun i => Z.shiftr (znth 0 v ((i + 1) mod len v)) 8)
             (fun i => Z.land (znth 0 v i) 255)).
  f_equal.
  - destruct v as [|a r]; [congruence|].
    rewrite <- (map_map (fun i => znth 0 (a :: r) ((i + 1) mod len (a :: r)))
                        (fun x => Z.shiftr x 8)).
    rewrite map_znth_rot, map_app, sumZ_app. simpl. lia.
  - rewrite <- (map_map (znth 0 v) (fun x => Z.land x 255)).
    now rewrite map_znth_xrange.
Qed.

Lemma has_carry_false (v : list Z) :
  has_carry v = false -> Forall (fun x => 0 <= x < 256) v.
Proof.
  unfold has_carry. intros H. apply Forall_forall. intros x Hx.
  apply no_carry_small.
  destruct (Z.land x (Z.lnot 255) =? 0) eqn:E; [reflexivity|].
  assert (existsb (fun x => negb (Z.land x (Z.lnot 255) =? 0)) v = true).
  { apply existsb_exists. exists x. rewrite E. auto. }
  congruence.
Qed.

Lemma has_carry_true (v : list Z) :
  Forall (fun x => 0 <= x) v -> has_carry v = true ->
  1 <= sumZ (map (fun x => Z.shiftr x 8) v).
Proof.
  unfold has_carry. intros Hv H.
  apply existsb_exists in H. destruct H as (x & Hx & Hc).
  apply in_split in Hx. destruct Hx as (u & w & ->).
  apply Forall_app in Hv. destruct Hv as (Hu & Hw).
  inversion Hw as [|? ? Hx0 Hw']; subst.
  rewrite map_app, sumZ_app. cbn [map sumZ fold_right].
  fold (sumZ (map (fun x => Z.shiftr x 8) w)).
  assert (Hbig : 256 <= x).
  { destruct (Z.lt_ge_cases x 256) as [Hlt|]; [|assumption].
    assert (E : (Z.land x (Z.lnot 255) =? 0) = true)
      by (apply no_carry_small; lia).
    rewrite E in Hc. discriminate. }
  assert (1 <= Z.shiftr x 8).
  { rewrite Z.shiftr_div_pow2 by lia. apply Z.div_le_lower_bound; lia. }
  assert (Hs : forall l, Forall (fun x => 0 <= x) l ->
                         0 <= sumZ (map (fun x => Z.shiftr x 8) l)).
  { intros l Hl. apply sumZ_nonneg. apply Forall_map.
    eapply Forall_impl; [|exact Hl]. intros y Hy. now apply Z.shiftr_nonneg. }
  pose proof (Hs u Hu). pose proof (Hs w Hw'). lia.
Qed.

(** The carry loop stops within [sumZ v] passes, with the length kept and
    every entry a byte. *)
Lemma carry_loop_defined (fuel : nat) (v : list Z) :
  Forall (fun x => 0 <= x) v -> (Z.to_nat (sumZ v) <= fuel)%nat ->
  exists v', carry_loop fuel (len v) v = Ok v' /\ len v' = len v /\
             Forall (fun x => 0 <= x < 256) v'.
Proof.
  revert v. induction fuel as [|fuel IH]; intros v Hv Hf.
  - simpl. destruct (has_carry v) eqn:C.
    + pose proof (has_carry_true v Hv C).
      pose proof (sumZ_split v).
      assert (0 <= sumZ (map (fun x => Z.land x 255) v)).
      { apply sumZ_nonneg, Forall_map, Forall_forall. intros x _.
        apply land255_small. }
      lia.
    + exists v. auto using has_carry_false.
  - simpl. destruct (has_carry v) eqn:C.
    + assert (Hne : v <> []) by (intros ->; discriminate).
      rewrite carry_step_eq by assumption. cbn [bind].
      set (v1 := map _ (xrange (len v))).
      assert (L1 : len v1 = len v).
      { unfold v1, len. rewrite length_map, length_xrange. lia. }
      assert (N1 : Forall (fun x => 0 <= x) v1).
      { unfold v1. apply Forall_map, Forall_forall. intros i Hi.
        apply in_xrange in Hi.
        assert (0 <= znth 0 v ((i + 1) mod len v)).
        { unfold znth. rewrite Forall_forall in Hv.
          destruct (nth_in_or_default
                      (Z.to_nat ((i + 1) mod len v)) v 0) as [Hin| ->];
            [now apply Hv | lia]. }
        pose proof (land255_small (znth 0 v i)).
        assert (0 <= Z.shiftr (znth 0 v ((i + 1) mod len v)) 8)
          by now apply Z.shiftr_nonneg.
        lia. }
      assert (S1 : sumZ v1 <= sumZ v - 255).
      { unfold v1. rewrite sumZ_carry_step by assumption.
        pose proof (sumZ_split v). pose proof (has_carry_true v Hv C). lia. }
      destruct (IH v1 N1) as (v' & E & L & F).
      * pose proof (sumZ_nonneg v1 N1). lia.
      * exists v'. rewrite <- L1. rewrite E. rewrite L. auto.
    + exists v. auto using has_carry_false.
Qed.

Lemma add_ones_complement_defined (n : Z) (s1 s2 : bytes) :
  len s1 = n -> len s2 = n ->
  exists r, add_ones_complement s1 s2 = Ok r /\ len r = n.
Proof.
  intros H1 H2. unfold add_ones_complement.
  set (v := map _ (combine s1 s2)).
  assert (Lv : len v = len s1).
  { unfold v, len in *. rewrite length_map, length_combine. lia. }
  assert (Nv : Forall (fun x => 0 <= x) v).
  { unfold v. apply Forall_map, Forall_forall. intros [x y] _.
    pose proof (ord_range x). pose proof (ord_range y). lia. }
  destruct (carry_loop_defined (Z.to_nat (sumZ v)) v Nv (le_n _))
    as (v' & E & L & F).
  rewrite <- Lv, E. cbn [bind].
  rewrite (mapM_map chr byte_of_Z).
  - eexists. split; [reflexivity|].
    unfold len in *. rewrite length_map. lia.
  - intros x Hx. rewrite Forall_forall in F. apply chr_ok. now apply F.
Qed.

Lemma reduce_from_defined (n : Z) (l : list bytes) (acc : bytes) :
  len acc = n -> Forall (fun s => len s = n) l ->
  exists r, reduce_from add_ones_complement acc l = Ok r /\ len r = n.
Proof.
  revert acc. induction l as [|x l IH]; intros acc Ha Hl; simpl.
  - eauto.
  - inversion Hl; subst.
    destruct (add_ones_complement_defined (len acc) acc x) as (r & -> & Lr);
      auto.
    cbn [bind]. apply IH; auto.
Qed.

Lemma len_concat_uniform {A} (m : Z) (ps : list (list A)) :
  Forall (fun p => len p = m) ps -> len (concat ps) = m * len ps.
Proof.
  induction 1 as [|p ps Hp Hps IH]; [unfold len; simpl; lia|].
  simpl concat. rewrite len_app, IH, Hp. unfold len. simpl length. lia.
Qed.

Lemma len_slice_within {A} (s : list A) (lo hi : Z) :
  0 <= lo -> lo <= hi -> hi <= len s ->
  len (slice s (Some lo) (Some hi)) = hi - lo.
Proof.
  intros H1 H2 H3. rewrite slice_lo_hi by lia.
  unfold len in *. rewrite length_firstn, length_skipn. lia.
Qed.

(** For a non-empty string and a positive size, [_nfold] returns a string of
    exactly that size. *)
Lemma nfold_defined (s : bytes) (n : Z) :
  s <> [] -> 0 < n -> exists r, _nfold s n = Ok r /\ len r = n.
Proof.
  intros Hs Hn. unfold _nfold.
  assert (Hl : 0 < len s).
  { destruct s; [congruence | unfold len; simpl; lia]. }
  set (slen := len s) in *.
  pose proof (Z.gcd_nonneg n slen) as Hg0.
  assert (Hg : Z.gcd n slen <> 0).
  { intros E. apply Z.gcd_eq_0_l in E. lia. }
  destruct (Z.gcd_divide_l n slen) as (a & Ha).
  destruct (Z.gcd_divide_r n slen) as (c & Hc).
  assert (Egcd : gcd n slen = Z.gcd n slen).
  { unfold gcd. replace (slen =? 0) with false by lia.
    rewrite Z.sgn_pos by lia. lia. }
  set (g := Z.gcd n slen) in *.
  assert (Hapos : 0 < a) by nia. assert (Hcpos : 0 < c) by nia.
  rewrite Egcd. unfold pydiv. replace (g =? 0) with false by lia.
  cbn [bind]. replace (slen =? 0) with false by lia. cbn [bind].
  assert (Elcm : n * slen / g = a * slen).
  { rewrite Ha at 1. replace (a * g * slen) with (a * slen * g) by lia.
    apply Z.div_mul. lia. }
  rewrite Elcm, Z.div_mul by lia.
  destruct (mapM_Forall (fun r : bytes => len r = slen)
              (fun i => rotate_right s (13 * i)) (xrange a))
    as (parts & -> & Fp & Lp).
  { intros i _. destruct (rotate_right_defined s (13 * i) Hs) as (r & E & L).
    exists r. auto. }
  cbn [bind].
  assert (Lbig : len (concat parts) = a * slen).
  { rewrite (len_concat_uniform slen) by assumption.
    unfold len at 1. unfold bytes in *. rewrite Lp, length_xrange. lia. }
  set (bigstr := concat parts) in *.
  unfold xrange3. replace (n =? 0) with false by lia.
  replace (0 <? n) with true by lia.
  assert (Elcm' : a * slen = n * c) by nia.
  replace ((a * slen - 0 + n - 1) / n) with c
    by (apply Z.div_unique with (n - 1); lia).
  cbn [bind].
  replace (xrange c) with (xrange (1 + (c - 1))) by (f_equal; lia).
  rewrite xrange_succ by lia. cbn [map reduce].
  apply reduce_from_defined.
  - rewrite len_slice_within; nia.
  - rewrite !map_map. apply Forall_map, Forall_forall. intros k Hk.
    apply in_xrange in Hk. rewrite len_slice_within; nia.
Qed.

(** ** Byte-wise xor *)

Lemma xorbytes_eq (p q : bytes) :
  len p = len q -> _xorbytes p q = Ok (xor_block p q).
Proof.
  intros H. unfold _xorbytes, xor_block.
  replace (len p =? len q) with true by lia.
  apply mapM_map. intros [x y] _. unfold bxor.
  apply chr_ok, lxor_small; apply ord_range.
Qed.

Lemma len_xor_block (p q : bytes) : len p = len q -> len (xor_block p q) = len p.
Proof.
  intros H. unfold xor_block, len in *.
  rewrite length_map, length_combine. lia.
Qed.

Lemma xor_block_app (p p' q q' : bytes) :
  len p = len q ->
  xor_block (p ++ p') (q ++ q') = xor_block p q ++ xor_block p' q'.
Proof.
  unfold len. revert q. induction p as [|x p IH]; intros [|y q] H;
    simpl in H; try lia; [reflexivity|].
  unfold xor_block in *. simpl. f_equal. apply IH. lia.
Qed.

Lemma xor_block_zeros_r (p : bytes) (n : Z) : n = len p -> xor_block p (zeros n) = p.
Proof.
  intros ->. unfold zeros, len, xor_block. rewrite Nat2Z.id.
  induction p as [|x p IH]; simpl; [reflexivity|].
  now rewrite IH, bxor_zero_r.
Qed.

Lemma xor_block_zeros_l (p : bytes) (n : Z) : n = len p -> xor_block (zeros n) p = p.
Proof.
  intros ->. unfold zeros, len, xor_block. rewrite Nat2Z.id.
  induction p as [|x p IH]; simpl; [reflexivity|].
  rewrite IH. f_equal. unfold bxor. change (ord x00) with 0.
  rewrite Z.lxor_0_l. apply byte_of_Z_ord.
Qed.

Lemma xor_block_cancel (p q : bytes) :
  len p = len q -> xor_block (xor_block p q) q = p.
Proof.
  unfold len. revert q. induction p as [|x p IH]; intros [|y q] H;
    simpl in H; try lia; [reflexivity|].
  unfold xor_block in *. simpl. rewrite bxor_cancel. f_equal.
  apply IH. lia.
Qed.

Lemma firstn_skipn_xor_block (n : nat) (p q : bytes) :
  len p = len q ->
  xor_block p q = xor_block (firstn n p) (firstn n q)
                  ++ xor_block (skipn n p) (skipn n q).
Proof.
  intros H. rewrite <- (firstn_skipn n p) at 1. rewrite <- (firstn_skipn n q) at 1.
  apply xor_block_app. unfold len in *. rewrite !length_firstn. lia.
Qed.

Lemma last_cons_default {A} (c d : A) (l : list A) : last (c :: l) d = last l c.
Proof.
  revert c d. induction l as [|x l IH]; intros c d; [reflexivity|].
  change (last (c :: x :: l) d) with (last (x :: l) d).
  now rewrite (IH x d), (IH x c).
Qed.

Lemma ord_inj (x y : byte) : ord x = ord y -> x = y.
Proof.
  intros H. rewrite <- (byte_of_Z_ord x), <- (byte_of_Z_ord y). now rewrite H.
Qed.

Lemma mac_fold_zero (l : list (byte * byte)) (r : Z) :
  0 <= r ->
  fold_left (fun res '(x, y) => Z.lor res (Z.lxor (ord x) (ord y))) l r = 0
  <-> r = 0 /\ Forall (fun xy => fst xy = snd xy) l.
Proof.
  revert r. induction l as [|[x y] l IH]; intros r Hr; simpl.
  - split; [auto | tauto].
  - pose proof (lxor_small _ _ (ord_range x) (ord_range y)) as Hx.
    rewrite IH by (apply Z.lor_nonneg; lia).
    rewrite Z.lor_eq_0_iff. split.
    + intros ((H1 & H2) & F). split; [assumption|].
      constructor; [|assumption]. simpl.
      apply ord_inj. now apply Z.lxor_eq.
    + intros (H1 & F). inversion F as [|? ? Hxy F']; subst. simpl in Hxy.
      subst y. rewrite Z.lxor_nilpotent. auto.
Qed.

Lemma combine_eq_iff (p q : bytes) :
  length p = length q ->
  (Forall (fun xy => fst xy = snd xy) (combine p q) <-> p = q).
Proof.
  revert q. induction p as [|x p IH]; intros [|y q] H; simpl in H;
    try discriminate.
  - split; auto.
  - simpl. split.
    + intros F. inversion F as [|? ? Hxy F']; subst. simpl in Hxy. subst y.
      f_equal. apply IH; [lia | assumption].
    + intros [= -> ->]. constructor; [reflexivity|]. apply IH; auto.
Qed.

(** On MACs of one length, [_mac_equal] decides equality. *)
Lemma mac_equal_decides (mac1 mac2 : bytes) :
  len mac1 = len mac2 ->
  exists same, _mac_equal mac1 mac2 = Ok same /\
               (same = true <-> mac1 = mac2).
Proof.
  intros H. unfold _mac_equal. rewrite H, Z.eqb_refl.
  eexists. split; [reflexivity|].
  rewrite Z.eqb_eq, mac_fold_zero by lia.
  rewrite combine_eq_iff by (unfold len in H; lia). tauto.
Qed.

(** ** The block cipher and its chaining modes

    AES enters as any pair of functions on 16-byte blocks, one per valid key,
    where decryption undoes encryption; HMAC-SHA1 as any function with
    20-byte digests. *)

Section CryptoFacts.

Variable aes_encrypt_block : bytes -> bytes -> bytes.
Variable aes_decrypt_block : bytes -> bytes -> bytes.
Variable HMAC_digest : bytes -> bytes -> hashmodule -> bytes.
Variable PBKDF2 : bytes -> bytes -> Z -> Z -> (bytes -> bytes -> bytes) -> bytes.
Variable get_random_bytes : Z -> bytes.

Hypothesis aes_encrypt_block_len :
  forall k blk, aes_key k -> is_block blk -> is_block (aes_encrypt_block k blk).
Hypothesis aes_decrypt_block_len :
  forall k blk, aes_key k -> is_block blk -> is_block (aes_decrypt_block k blk).
Hypothesis aes_decrypt_encrypt :
  forall k blk, aes_key k -> is_block blk ->
                aes_decrypt_block k (aes_encrypt_block k blk) = blk.
Hypothesis HMAC_digest_len :
  forall k m h, len (HMAC_digest k m h) = 20.

Local Abbreviation basic_encrypt := (_AESEnctype_basic_encrypt aes_encrypt_block).
Local Abbreviation basic_decrypt := (_AESEnctype_basic_decrypt aes_decrypt_block).
Local Abbreviation cbc_enc := (cbc_encrypt_blocks aes_encrypt_block).
Local Abbreviation cbc_dec := (cbc_decrypt_blocks aes_decrypt_block).
Local Abbreviation E := aes_encrypt_block.
Local Abbreviation D := aes_decrypt_block.

Lemma AES_new_ok (k : bytes) (mode : aes_mode) (iv : bytes) :
  aes_key k -> (mode = MODE_CBC -> len iv = 16) ->
  AES_new k mode iv = Ok (mkCipher k mode iv).
Proof.
  intros Hk Hiv. unfold AES_new.
  replace (len k =? 0) with false by (unfold aes_key in Hk; lia).
  replace ((len k =? 16) || (len k =? 24) || (len k =? 32)) with true
    by (unfold aes_key in Hk; lia).
  destruct mode; [reflexivity|].
  now rewrite (Hiv eq_refl).
Qed.

Lemma AES_new_bad (k : bytes) (mode : aes_mode) (iv : bytes) :
  ~ aes_key k ->
  AES_new k mode iv =
  Raise (ValueError
           (if len k =? 0 then "Key cannot be the null string"
            else "AES key must be either 16, 24, or 32 bytes long")).
Proof.
  intros Hk. unfold AES_new. destruct (len k =? 0); [reflexivity|].
  replace ((len k =? 16) || (len k =? 24) || (len k =? 32)) with false
    by (unfold aes_key in Hk; lia).
  reflexivity.
Qed.

Lemma len_zeros (n : Z) : 0 <= n -> len (zeros n) = n.
Proof. intros H. unfold len, zeros. rewrite repeat_length. lia. Qed.

Lemma blocks16_concat (bs : list bytes) :
  Forall is_block bs -> blocks16 (concat bs) = bs.
Proof.
  intros H. pose proof (chunks_concat bs [] H) as C.
  rewrite !app_nil_r, len_concat_blocks in C by assumption.
  unfold blocks16. rewrite len_concat_blocks by assumption.
  pose proof (len_nonneg bs).
  replace ((16 * len bs + 15) / 16) with (len bs) in C
    by (apply Z.div_unique with 15; lia).
  replace (16 * len bs / 16) with (len bs)
    by (apply Z.div_unique with 0; lia).
  apply C. unfold len. simpl. lia.
Qed.

Lemma len_concat_mod16 (bs : list bytes) :
  Forall is_block bs -> (len (concat bs) mod 16 =? 0) = true.
Proof.
  intros H. rewrite len_concat_blocks by assumption.
  rewrite Z.mul_comm, Z.mod_mul by lia. reflexivity.
Qed.

Lemma cbc_encrypt_concat (k iv : bytes) (bs : list bytes) :
  Forall is_block bs ->
  cipher_encrypt E (mkCipher k MODE_CBC iv) (concat bs) =
  Ok (concat (cbc_enc k iv bs)).
Proof.
  intros H. unfold cipher_encrypt. rewrite len_concat_mod16 by assumption.
  cbn [c_mode c_key c_iv]. now rewrite blocks16_concat.
Qed.

Lemma ecb_decrypt_one (k iv blk : bytes) :
  is_block blk -> cipher_decrypt D (mkCipher k MODE_ECB iv) blk = Ok (D k blk).
Proof.
  intros H. rewrite <- (app_nil_r blk) at 1.
  change (blk ++ []) with (concat [blk]).
  assert (F : Forall is_block [blk]) by (constructor; auto).
  unfold cipher_decrypt. rewrite len_concat_mod16 by assumption.
  cbn [c_mode c_key]. rewrite blocks16_concat by assumption.
  simpl. now rewrite app_nil_r.
Qed.

Lemma cbc_enc_app (k prev : bytes) (xs ys : list bytes) :
  cbc_enc k prev (xs ++ ys) =
  cbc_enc k prev xs ++ cbc_enc k (last (cbc_enc k prev xs) prev) ys.
Proof.
  revert prev. induction xs as [|p r IH]; intros prev; [reflexivity|].
  cbn [cbc_encrypt_blocks app]. rewrite IH, last_cons_default. reflexivity.
Qed.

Lemma cbc_enc_blocks (k prev : bytes) (bs : list bytes) :
  aes_key k -> is_block prev -> Forall is_block bs ->
  Forall is_block (cbc_enc k prev bs) /\ is_block (last (cbc_enc k prev bs) prev).
Proof.
  intros Hk. revert prev. induction bs as [|p r IH]; intros prev Hp Hb.
  - simpl. auto.
  - inversion Hb as [|? ? Hp0 Hr]; subst. cbn [cbc_encrypt_blocks].
    assert (Hc : is_block (E k (xor_block p prev))).
    { apply aes_encrypt_block_len; [assumption|].
      unfold is_block in *. rewrite len_xor_block; congruence. }
    destruct (IH _ Hc Hr) as (F & L). rewrite last_cons_default. auto.
Qed.

(** CBC decryption undoes CBC encryption, block by block. *)
Lemma cbc_dec_enc (k prev : bytes) (bs : list bytes) :
  aes_key k -> is_block prev -> Forall is_block bs ->
  cbc_dec k prev (cbc_enc k prev bs) = bs.
Proof.
  intros Hk. revert prev. induction bs as [|p r IH]; intros prev Hp Hb;
    [reflexivity|].
  inversion Hb as [|? ? Hp0 Hr]; subst.
  cbn [cbc_encrypt_blocks cbc_decrypt_blocks].
  assert (Hx : is_block (xor_block p prev)).
  { unfold is_block in *. rewrite len_xor_block; congruence. }
  rewrite aes_decrypt_encrypt by assumption.
  rewrite xor_block_cancel by (unfold is_block in *; congruence).
  f_equal. apply IH; [|assumption].
  now apply aes_encrypt_block_len.
Qed.

(** ** [basic_encrypt] and [basic_decrypt] in closed form *)

Lemma zeropad16_block_tail (bs : list bytes) (pen last : bytes) :
  Forall is_block bs -> is_block pen -> 0 < len last <= 16 ->
  _zeropad (concat bs ++ pen ++ last) 16 =
  Ok (concat (bs ++ [pen; last ++ zeros (16 - len last)])).
Proof.
  intros Hbs Hpen Hlast. unfold _zeropad, pymod. cbn [Z.eqb bind].
  rewrite !len_app, len_concat_blocks, Hpen by assumption.
  replace ((16 * len bs + (16 + len last)) mod 16) with (len last mod 16)
    by (rewrite <- (Z.mod_add (len last) (len bs + 1) 16) by lia;
        f_equal; lia).
  rewrite concat_app. cbn [concat]. rewrite app_nil_r, <- !app_assoc.
  do 4 f_equal.
  destruct (Z.eq_dec (len last) 16) as [E|NE].
  - rewrite E. reflexivity.
  - rewrite (Z.mod_small (len last)) by lia.
    now rewrite Z.mod_small by lia.
Qed.

Lemma is_block_padded (last : bytes) :
  0 < len last <= 16 -> is_block (last ++ zeros (16 - len last)).
Proof.
  intros H. unfold is_block. rewrite len_app, len_zeros; lia.
Qed.

(** One block: plain block encryption. *)
Lemma basic_encrypt_one (key : Key) (blk : bytes) :
  aes_key (contents key) -> is_block blk ->
  basic_encrypt key blk = Ok (E (contents key) blk).
Proof.
  intros Hk Hb. unfold _AESEnctype_basic_encrypt.
  rewrite Hb. cbn [Z.leb Z.compare Pos.compare Pos.compare_cont].
  rewrite AES_new_ok by (auto; intros; now apply len_zeros). cbn [bind].
  unfold _zeropad, pymod. cbn [Z.eqb bind]. rewrite Hb.
  change (zeros ((16 - 16 mod 16) mod 16)) with (@nil byte).
  rewrite app_nil_r. rewrite <- (app_nil_r blk) at 1.
  change (blk ++ []) with (concat [blk]).
  rewrite cbc_encrypt_concat by (constructor; auto). cbn [bind].
  change (16 <? 16) with false. cbn [cbc_encrypt_blocks concat].
  rewrite app_nil_r, xor_block_zeros_r by congruence. reflexivity.
Qed.

(** More than one block: CBC over the padded blocks, then the last two
    ciphertext blocks swapped and the new last one cut to the length of the
    plaintext tail. *)
Lemma basic_encrypt_long (key : Key) (bs : list bytes) (pen last : bytes) :
  aes_key (contents key) ->
  Forall is_block bs -> is_block pen -> 0 < len last <= 16 ->
  let k := contents key in
  let cs := cbc_enc k (zeros 16) bs in
  let cpen := E k (xor_block pen (Stdlib.Lists.List.last cs (zeros 16))) in
  let clast := E k (xor_block (last ++ zeros (16 - len last)) cpen) in
  basic_encrypt key (concat bs ++ pen ++ last) =
  Ok (concat cs ++ clast ++ firstn (Z.to_nat (len last)) cpen).
Proof.
  intros Hk Hbs Hpen Hlast k cs cpen clast.
  pose proof (len_nonneg bs) as Hn.
  assert (HL : len (concat bs ++ pen ++ last) = 16 * len bs + 16 + len last).
  { rewrite !len_app, len_concat_blocks, Hpen by assumption. lia. }
  unfold _AESEnctype_basic_encrypt.
  replace (16 <=? len (concat bs ++ pen ++ last)) with true by lia.
  rewrite AES_new_ok by (auto; intros; now apply len_zeros). cbn [bind].
  rewrite zeropad16_block_tail by assumption. cbn [bind].
  pose proof (is_block_padded last Hlast) as Hpad.
  rewrite cbc_encrypt_concat
    by (apply Forall_app; split; [assumption | repeat constructor; assumption]).
  cbn [bind]. replace (16 <? len (concat bs ++ pen ++ last)) with true by lia.
  rewrite cbc_enc_app. cbn [cbc_encrypt_blocks].
  fold k cs cpen clast.
  destruct (cbc_enc_blocks k (zeros 16) bs Hk) as (Fcs & Lcs);
    [now apply len_zeros | assumption |]. fold cs in Fcs, Lcs.
  assert (Hcpen : is_block cpen).
  { apply aes_encrypt_block_len; [assumption|].
    unfold is_block in *. rewrite len_xor_block; congruence. }
  assert (Hclast : is_block clast).
  { apply aes_encrypt_block_len; [assumption|].
    unfold is_block in *. rewrite len_xor_block; congruence. }
  rewrite concat_app. cbn [concat]. rewrite app_nil_r.
  set (ctext := concat cs ++ cpen ++ clast).
  assert (S1 : slice ctext None (Some (-32)) = concat cs).
  { unfold ctext. replace (-32) with (- len (cpen ++ clast))
      by (rewrite len_app, Hcpen, Hclast; lia).
    apply slice_app_neg_hi. rewrite len_app, Hcpen, Hclast. lia. }
  assert (S2 : slice ctext (Some (-16)) None = clast).
  { unfold ctext. rewrite app_assoc.
    replace (-16) with (- len clast) by (rewrite Hclast; lia).
    apply slice_app_neg_lo. rewrite Hclast. lia. }
  assert (S3 : slice ctext (Some (-32)) (Some (-16)) = cpen).
  { unfold ctext.
    replace (-32) with (- (len cpen + len clast))
      by (rewrite Hcpen, Hclast; lia).
    replace (-16) with (- len clast) by (rewrite Hclast; lia).
    apply slice_app_neg_mid. rewrite Hclast. lia. }
  rewrite S1, S2, S3, HL.
  replace ((16 * len bs + 16 + len last) mod 16) with (len last mod 16)
    by (rewrite <- (Z.mod_add (len last) (len bs + 1) 16) by lia;
        f_equal; lia).
  destruct (Z.eq_dec (len last) 16) as [E16|NE].
  - rewrite E16. change (16 mod 16) with 0. cbn [Z.eqb].
    rewrite slice_hi by lia. reflexivity.
  - rewrite Z.mod_small by lia.
    replace (len last =? 0) with false by lia.
    rewrite slice_hi by lia. reflexivity.
Qed.

Lemma getitem_last {A} (l : list A) (x : A) : getitem (l ++ [x]) (-1) = Ok x.
Proof.
  pose proof (len_nonneg l).
  rewrite (getitem_znth_neg x)
    by (rewrite len_app; change (len [x]) with 1; lia).
  f_equal. unfold znth. rewrite len_app.
  replace (Z.to_nat (-1 + (len l + len [x]))) with (length l + 0)%nat
    by (change (len [x]) with 1; unfold len; lia).
  now rewrite app_nth2_plus.
Qed.

Lemma getitem_last2 {A} (l : list A) (x y : A) :
  getitem (l ++ [x; y]) (-2) = Ok x.
Proof.
  pose proof (len_nonneg l).
  rewrite (getitem_znth_neg x)
    by (rewrite len_app; change (len [x; y]) with 2; lia).
  f_equal. unfold znth. rewrite len_app.
  replace (Z.to_nat (-2 + (len l + len [x; y]))) with (length l + 0)%nat
    by (change (len [x; y]) with 2; unfold len; lia).
  now rewrite app_nth2_plus.
Qed.

Lemma cbc_loop_eq (k iv0 : bytes) (cs : list bytes) (acc prev : bytes) :
  aes_key k -> is_block prev -> Forall is_block cs ->
  cbc_loop D (mkCipher k MODE_ECB iv0) cs acc prev =
  Ok (acc ++ concat (cbc_dec k prev cs), last cs prev).
Proof.
  intros Hk. revert acc prev.
  induction cs as [|c r IH]; intros acc prev Hp Hcs.
  - simpl. now rewrite app_nil_r.
  - inversion Hcs as [|? ? Hc Hr]; subst. cbn [cbc_loop].
    rewrite ecb_decrypt_one by assumption. cbn [bind].
    rewrite xorbytes_eq
      by (rewrite (aes_decrypt_block_len k c Hk Hc); now rewrite Hp).
    cbn [bind]. rewrite IH by assumption.
    cbn [cbc_decrypt_blocks concat].
    now rewrite last_cons_default, <- app_assoc.
Qed.

Lemma basic_decrypt_one (key : Key) (ct : bytes) :
  aes_key (contents key) -> is_block ct ->
  basic_decrypt key ct = Ok (D (contents key) ct).
Proof.
  intros Hk Hb. unfold _AESEnctype_basic_decrypt. rewrite Hb.
  cbn [Z.leb Z.compare Pos.compare Pos.compare_cont].
  rewrite AES_new_ok by (auto; discriminate). cbn [bind Z.eqb Pos.eqb].
  now apply ecb_decrypt_one.
Qed.

(** The Python-level block split of a ciphertext longer than one block. *)
Lemma cblocks_eq (cs : list bytes) (c2 c1 : bytes) :
  Forall is_block cs -> is_block c2 -> 0 < len c1 <= 16 ->
  let ct := concat cs ++ c2 ++ c1 in
  map (fun p => slice ct (Some p) (Some (p + 16)))
      (map (fun k => 0 + k * 16) (xrange ((len ct - 0 + 16 - 1) / 16)))
  = cs ++ [c2; c1].
Proof.
  intros Hcs Hc2 Hc1 ct.
  assert (F : Forall is_block (cs ++ [c2]))
    by (apply Forall_app; split; [assumption | repeat constructor; assumption]).
  pose proof (chunks_concat (cs ++ [c2]) c1 F (proj2 Hc1)) as C.
  rewrite concat_app in C. cbn [concat] in C.
  rewrite app_nil_r, <- !app_assoc in C. fold ct in C.
  destruct c1 as [|x c1'] eqn:E1; [unfold len in Hc1; simpl in Hc1; lia|].
  rewrite <- E1 in *. cbn [app] in C. rewrite <- C, map_map.
  replace ((len ct - 0 + 16 - 1) / 16) with ((len ct + 15) / 16)
    by (f_equal; lia).
  apply map_ext. intros i. unfold chunk_at.
  now replace (0 + i * 16) with (16 * i) by lia.
Qed.

(** More than one block: CBC decryption of all blocks but the last two, then
    the last two blocks recovered from the stolen bytes. *)
Lemma basic_decrypt_long (key : Key) (cs : list bytes) (c2 c1 : bytes) :
  aes_key (contents key) ->
  Forall is_block cs -> is_block c2 -> 0 < len c1 <= 16 ->
  let k := contents key in
  let d2 := D k c2 in
  let n := Z.to_nat (len c1) in
  basic_decrypt key (concat cs ++ c2 ++ c1) =
  Ok ((concat (cbc_dec k (zeros 16) cs)
       ++ xor_block (D k (c1 ++ skipn n d2)) (last cs (zeros 16)))
      ++ xor_block (firstn n d2) c1).
Proof.
  intros Hk Hcs Hc2 Hc1 k d2 n.
  pose proof (len_nonneg cs) as Hn.
  assert (HL : len (concat cs ++ c2 ++ c1) = 16 * len cs + 16 + len c1).
  { rewrite !len_app, len_concat_blocks, Hc2 by assumption. lia. }
  unfold _AESEnctype_basic_decrypt.
  replace (16 <=? len (concat cs ++ c2 ++ c1)) with true by lia.
  rewrite AES_new_ok by (auto; discriminate). cbn [bind].
  replace (len (concat cs ++ c2 ++ c1) =? 16) with false by lia.
  unfold xrange3. cbn [Z.eqb Z.ltb Z.compare bind].
  rewrite (cblocks_eq cs c2 c1) by assumption.
  replace (cs ++ [c2; c1]) with ((cs ++ [c2]) ++ [c1])
    by (now rewrite <- app_assoc).
  rewrite getitem_last. cbn [bind]. rewrite <- app_assoc. cbn [app].
  change (-2) with (- len [c2; c1]).
  rewrite slice_app_neg_hi by (unfold len; simpl; lia).
  change (- len [c2; c1]) with (-2).
  rewrite cbc_loop_eq by (auto; now apply len_zeros). cbn [bind app].
  rewrite getitem_last2. cbn [bind].
  rewrite ecb_decrypt_one by assumption. cbn [bind].
  fold k d2.
  assert (Hd2 : is_block d2) by now apply aes_decrypt_block_len.
  rewrite slice_hi, slice_lo by lia. fold n.
  assert (Hf : len (firstn n d2) = len c1).
  { unfold is_block in Hd2. unfold len in *. rewrite length_firstn.
    unfold n. lia. }
  rewrite xorbytes_eq by assumption. cbn [bind].
  assert (Hb : is_block (c1 ++ skipn n d2)).
  { unfold is_block, len in *. rewrite length_app, length_skipn.
    unfold n. lia. }
  rewrite ecb_decrypt_one by assumption. cbn [bind].
  assert (Hprev : is_block (last cs (zeros 16))).
  { clear - Hcs. assert (Hz : is_block (zeros 16)) by now apply len_zeros.
    revert Hz. generalize (zeros 16).
    induction Hcs as [|c r Hc Hr IH]; intros z Hz; [assumption|].
    rewrite last_cons_default. now apply IH. }
  rewrite xorbytes_eq
    by (rewrite (aes_decrypt_block_len k _ Hk Hb); now rewrite Hprev).
  reflexivity.
Qed.

(** On every plaintext of at least 16 bytes, under every valid AES key,
    [basic_encrypt] returns a ciphertext of the same length and
    [basic_decrypt] maps it back to the plaintext. *)
Lemma cts_roundtrip (key : Key) (plaintext : bytes) :
  aes_key (contents key) -> 16 <= len plaintext ->
  exists ctext,
    basic_encrypt key plaintext = Ok ctext /\
    len ctext = len plaintext /\
    basic_decrypt key ctext = Ok plaintext.
Proof.
  intros Hk Hlen. set (k := contents key) in *.
  assert (Hz : is_block (zeros 16)) by now apply len_zeros.
  destruct (Z.eq_dec (len plaintext) 16) as [H16|Hne].
  - exists (E k plaintext).
    assert (Hc : is_block (E k plaintext)) by now apply aes_encrypt_block_len.
    split; [now apply basic_encrypt_one|]. split; [congruence|].
    rewrite basic_decrypt_one by assumption.
    f_equal. now apply aes_decrypt_encrypt.
  - destruct (split_last_two (length plaintext) plaintext)
      as (bs & pen & last & -> & Hbs & Hpen & Hlast); [lia | lia |].
    pose proof (basic_encrypt_long key bs pen last Hk Hbs Hpen Hlast) as Henc.
    cbv zeta in Henc. fold k in Henc.
    destruct (cbc_enc_blocks k (zeros 16) bs Hk Hz Hbs) as (Fcs & Lcs).
    set (cs := cbc_enc k (zeros 16) bs) in *.
    set (prev := List.last cs (zeros 16)) in *.
    set (cpen := E k (xor_block pen prev)) in *.
    set (lastp := last ++ zeros (16 - len last)) in *.
    set (clast := E k (xor_block lastp cpen)) in *.
    set (n := Z.to_nat (len last)) in *.
    assert (Hxp : is_block (xor_block pen prev)).
    { unfold is_block in *. rewrite len_xor_block; congruence. }
    assert (Hcpen : is_block cpen) by now apply aes_encrypt_block_len.
    assert (Hlastp : is_block lastp) by now apply is_block_padded.
    assert (Hxl : is_block (xor_block lastp cpen)).
    { unfold is_block in *. rewrite len_xor_block; congruence. }
    assert (Hclast : is_block clast) by now apply aes_encrypt_block_len.
    assert (Hc1 : len (firstn n cpen) = len last).
    { unfold is_block in Hcpen. unfold len in *. rewrite length_firstn.
      unfold n. lia. }
    exists (concat cs ++ clast ++ firstn n cpen).
    split; [exact Henc|]. split.
    { rewrite !len_app, !len_concat_blocks, Hclast, Hpen, Hc1 by assumption.
      unfold cs, len.
      assert (L : forall p l, length (cbc_enc k p l) = length l).
      { intros p l. revert p. induction l as [|x l IH]; intros p; simpl;
          [reflexivity | now rewrite IH]. }
      rewrite L. lia. }
    rewrite basic_decrypt_long; try assumption; [|rewrite Hc1; lia].
    cbv zeta. fold k. rewrite Hc1. fold n. fold prev.
    unfold cs at 1. rewrite cbc_dec_enc by assumption.
    unfold clast at 1 2. rewrite aes_decrypt_encrypt by assumption.
    rewrite (firstn_skipn_xor_block n lastp cpen)
      by (unfold is_block in *; congruence).
    assert (Hfl : firstn n lastp = last).
    { unfold lastp. rewrite firstn_app.
      replace (n - length last)%nat with 0%nat by (unfold n, len; lia).
      rewrite firstn_all2 by (unfold n, len; lia). simpl. apply app_nil_r. }
    assert (Hsl : skipn n lastp = zeros (16 - len last)).
    { unfold lastp. rewrite skipn_app.
      replace (n - length last)%nat with 0%nat by (unfold n, len; lia).
      rewrite skipn_all2 by (unfold n, len; lia). reflexivity. }
    rewrite Hfl, Hsl.
    assert (Hxf : length (xor_block last (firstn n cpen)) = n).
    { pose proof (len_xor_block last (firstn n cpen) (eq_sym Hc1)) as X.
      transitivity (length last); [unfold len in X; lia | unfold n, len; lia]. }
    rewrite firstn_app, skipn_app, Hxf, Nat.sub_diag.
    replace (firstn n (xor_block last (firstn n cpen)))
      with (xor_block last (firstn n cpen))
      by (symmetry; apply firstn_all2; rewrite Hxf; lia).
    replace (skipn n (xor_block last (firstn n cpen))) with (@nil byte)
      by (symmetry; apply skipn_all2; rewrite Hxf; lia).
    cbn [firstn skipn app]. rewrite app_nil_r.
    rewrite xor_block_cancel by congruence.
    rewrite xor_block_zeros_l.
    2:{ unfold is_block in Hcpen. unfold len in *. rewrite length_skipn.
        unfold n. lia. }
    rewrite firstn_skipn. unfold cpen at 1.
    rewrite aes_decrypt_encrypt by assumption.
    rewrite xor_block_cancel by (unfold is_block in *; congruence).
    now rewrite <- app_assoc.
Qed.

(** C2: for every AES key and every plaintext of at least 16 bytes,
    [basic_decrypt(key, basic_encrypt(key, plaintext))] is the plaintext:
    one block (plain block encryption and decryption), whole blocks (the last
    two ciphertext blocks swapped), or a partial last block (swapped, cut,
    and completed again from the stolen bytes). *)
Theorem basic_decrypt_encrypt (key : Key) (plaintext : bytes) :
  aes_key (contents key) -> 16 <= len plaintext ->
  (ctext <- basic_encrypt key plaintext ;; basic_decrypt key ctext)
  = Ok plaintext.
Proof.
  intros Hk Hlen.
  destruct (cts_roundtrip key plaintext Hk Hlen) as (ctext & Henc & _ & Hdec).
  rewrite Henc. cbn [bind]. exact Hdec.
Qed.

(** ** Key derivation *)

Lemma get_enctype_profile_supported (etype : Z) (cls : EnctypeProfile) :
  _get_enctype_profile etype = Ok cls ->
  (etype = 17 /\ cls = _AES128CTS) \/ (etype = 18 /\ cls = _AES256CTS).
Proof.
  unfold _get_enctype_profile, _enctype_table. cbn [lookup].
  unfold Enctypenum.AES128_CTS, Enctypenum.AES256_CTS.
  destruct (Z.eqb_spec etype 17); [intros [= <-]; auto|].
  destruct (Z.eqb_spec etype 18); [intros [= <-]; auto|].
  discriminate.
Qed.

Lemma pack_IB_ok (n c : Z) :
  uint32 n -> 0 <= c < 256 ->
  exists s, pack_IB n c = Ok s /\ s <> [].
Proof.
  intros Hn Hc. unfold pack_IB, pack_I, uint32 in *.
  replace ((0 <=? n) && (n <? 4294967296)) with true by lia. cbn [bind].
  replace ((0 <=? c) && (c <? 256)) with true by lia.
  eexists. split; [reflexivity | discriminate].
Qed.

Lemma derive_loop_stop (fuel : nat) (cls : EnctypeProfile) (key : Key)
    (p seed : bytes) :
  seedsize cls <= len seed ->
  derive_loop E fuel cls key p seed = Ok seed.
Proof.
  intros H. destruct fuel; simpl;
    replace (len seed <? seedsize cls) with false by lia; reflexivity.
Qed.

Lemma derive_loop_step (fuel : nat) (cls : EnctypeProfile) (key : Key)
    (p seed : bytes) :
  aes_key (contents key) -> is_block p -> len seed < seedsize cls ->
  derive_loop E (S fuel) cls key p seed =
  derive_loop E fuel cls key (E (contents key) p)
              (seed ++ E (contents key) p).
Proof.
  intros Hk Hp H. simpl.
  replace (len seed <? seedsize cls) with true by lia.
  now rewrite basic_encrypt_one.
Qed.

(** Under a valid AES key, [derive] returns a key of the profile's seed
    size; its tag is the profile's [enctype] attribute. *)
Lemma derive_ok (cls : EnctypeProfile) (key : Key) (constant : bytes) :
  supported cls -> aes_key (contents key) -> constant <> [] ->
  exists seed,
    _SimplifiedEnctype_derive E cls key constant =
      Ok (mkKey Enctypenum.AES256_CTS seed) /\
    len seed = seedsize cls.
Proof.
  intros Hcls Hk Hc. unfold _SimplifiedEnctype_derive.
  assert (Hb : blocksize cls = 16) by (destruct Hcls; subst; reflexivity).
  rewrite Hb.
  destruct (nfold_defined constant 16 Hc) as (p & -> & Hp); [lia|].
  cbn [bind].
  assert (H1 : is_block (E (contents key) p))
    by now apply aes_encrypt_block_len.
  assert (H2 : is_block (E (contents key) (E (contents key) p)))
    by now apply aes_encrypt_block_len.
  destruct Hcls; subst cls; cbn [seedsize _AES128CTS _AES256CTS _AESEnctype].
  - change (Z.to_nat 16) with (S 15).
    rewrite derive_loop_step by (auto; reflexivity).
    rewrite derive_loop_stop
      by (cbn [app seedsize _AES128CTS _AESEnctype]; rewrite H1; lia).
    cbn [bind app]. eexists. split; [reflexivity|].
    rewrite slice_lo_hi by lia. unfold len. rewrite length_firstn.
    change (Z.to_nat 0) with 0%nat. cbn [skipn].
    unfold is_block, len in H1. lia.
  - change (Z.to_nat 32) with (S (S 30)).
    rewrite derive_loop_step by (auto; reflexivity).
    rewrite derive_loop_step
      by (auto; cbn [app seedsize _AES256CTS _AESEnctype]; rewrite H1; lia).
    rewrite derive_loop_stop
      by (cbn [app seedsize _AES256CTS _AESEnctype];
          rewrite len_app, H1, H2; lia).
    cbn [bind app]. eexists. split; [reflexivity|].
    rewrite slice_lo_hi by lia. unfold len. rewrite length_firstn.
    change (Z.to_nat 0) with 0%nat. cbn [skipn]. rewrite length_app.
    unfold is_block, len in H1, H2. lia.
Qed.

Lemma zeropad_1 (s : bytes) : _zeropad s 1 = Ok s.
Proof.
  unfold _zeropad, pymod. cbn [Z.eqb bind]. rewrite Z.mod_1_r.
  change (zeros ((1 - 0) mod 1)) with (@nil byte). now rewrite app_nil_r.
Qed.

Lemma mac_equal_refl (m : bytes) : _mac_equal m m = Ok true.
Proof.
  unfold _mac_equal. rewrite Z.eqb_refl. f_equal.
  assert (H : forall r,
             fold_left (fun res '(x, y) => Z.lor res (Z.lxor (ord x) (ord y)))
                       (combine m m) r = r).
  { induction m as [|x m IH]; intros r; simpl; [reflexivity|].
    rewrite IH, Z.lxor_nilpotent, Z.lor_0_r. reflexivity. }
  now rewrite H.
Qed.

Lemma mac_equal_defined (m1 m2 : bytes) :
  len m1 = len m2 -> exists r, _mac_equal m1 m2 = Ok r.
Proof.
  intros H. unfold _mac_equal. rewrite H, Z.eqb_refl. eauto.
Qed.

Lemma seed_is_aes_key (cls : EnctypeProfile) (seed : bytes) :
  supported cls -> len seed = seedsize cls -> aes_key seed.
Proof.
  intros [-> | ->] H; unfold aes_key; rewrite H; cbn; auto.
Qed.

(** ** Authenticated encryption *)

Lemma basic_decrypt_defined (key : Key) (ct : bytes) :
  aes_key (contents key) -> 16 <= len ct ->
  exists p, basic_decrypt key ct = Ok p.
Proof.
  intros Hk Hlen. destruct (Z.eq_dec (len ct) 16) as [H16|Hne].
  - eexists. now apply basic_decrypt_one.
  - destruct (split_last_two (length ct) ct)
      as (cs & c2 & c1 & -> & Hcs & Hc2 & Hc1); [lia | lia |].
    eexists. now apply basic_decrypt_long.
Qed.

(** The two sub-keys of a call of [encrypt] or [decrypt]. *)
Lemma usage_keys (cls : EnctypeProfile) (key : Key) (keyusage : Z) :
  supported cls -> aes_key (contents key) -> uint32 keyusage ->
  exists c55 cAA ki ke,
    pack_IB keyusage 85 = Ok c55 /\
    pack_IB keyusage 170 = Ok cAA /\
    _SimplifiedEnctype_derive E cls key c55 = Ok ki /\
    _SimplifiedEnctype_derive E cls key cAA = Ok ke /\
    aes_key (contents ke).
Proof.
  intros Hcls Hk Hu.
  destruct (pack_IB_ok keyusage 85 Hu) as (c55 & E55 & N55); [lia|].
  destruct (pack_IB_ok keyusage 170 Hu) as (cAA & EAA & NAA); [lia|].
  destruct (derive_ok cls key c55 Hcls Hk N55) as (si & Ei & Li).
  destruct (derive_ok cls key cAA Hcls Hk NAA) as (se & Ee & Le).
  exists c55, cAA, (mkKey Enctypenum.AES256_CTS si),
         (mkKey Enctypenum.AES256_CTS se).
  repeat split; auto. exact (seed_is_aes_key cls se Hcls Le).
Qed.

(** C1: for a key of a supported enctype whose contents have the profile's
    seed size, a 32-bit key usage and a 16-byte confounder, [encrypt] returns
    a ciphertext and [decrypt] maps it back to the plaintext.  The plaintext
    is arbitrary, which covers every length from 1 to 200. *)
Theorem decrypt_encrypt (cls : EnctypeProfile) (key : Key) (keyusage : Z)
    (plaintext confounder : bytes) :
  _get_enctype_profile (enctype key) = Ok cls ->
  len (contents key) = seedsize cls ->
  uint32 keyusage ->
  len confounder = 16 ->
  exists ctext,
    encrypt E HMAC_digest get_random_bytes
            key keyusage plaintext (Some confounder) = Ok ctext /\
    decrypt E D HMAC_digest key keyusage ctext = Ok plaintext.
Proof.
  intros Hprof Hlen Hu Hconf. unfold encrypt, decrypt. rewrite Hprof.
  cbn [bind].
  assert (Hcls : supported cls).
  { apply get_enctype_profile_supported in Hprof.
    destruct Hprof as [[_ ->] | [_ ->]]; [left | right]; reflexivity. }
  assert (Hk : aes_key (contents key))
    by exact (seed_is_aes_key cls _ Hcls Hlen).
  destruct (usage_keys cls key keyusage Hcls Hk Hu)
    as (c55 & cAA & ki & ke & E55 & EAA & Eki & Eke & Hke).
  unfold _SimplifiedEnctype_encrypt, _SimplifiedEnctype_decrypt.
  rewrite E55, EAA. cbn [bind]. rewrite Eki, Eke. cbn [bind].
  assert (Hconst : padsize cls = 1 /\ macsize cls = 12 /\ blocksize cls = 16
                   /\ hashmod cls = SHA)
    by (destruct Hcls; subst; auto).
  destruct Hconst as (-> & -> & -> & ->).
  rewrite zeropad_1. cbn [bind].
  set (bp := confounder ++ plaintext).
  assert (Hbp : 16 <= len bp).
  { unfold bp. rewrite len_app. pose proof (len_nonneg plaintext). lia. }
  destruct (cts_roundtrip ke bp Hke Hbp) as (ct0 & Henc & Lct & Hdec).
  rewrite Henc. cbn [bind].
  set (hmac := HMAC_digest (contents ki) bp SHA).
  assert (Lmac : len (slice hmac None (Some 12)) = 12).
  { rewrite slice_hi by lia. pose proof (HMAC_digest_len (contents ki) bp SHA).
    fold hmac in H. unfold len in *. rewrite length_firstn. lia. }
  set (mac := slice hmac None (Some 12)) in *.
  eexists. split; [reflexivity|].
  replace (len (ct0 ++ mac) <? 16 + 12) with false
    by (rewrite len_app; lia).
  replace (Z.opp 12) with (- len mac) by lia.
  rewrite slice_app_neg_hi, slice_app_neg_lo by lia.
  unfold pymod. cbn [Z.eqb bind]. rewrite Z.mod_1_r. cbn [Z.eqb negb].
  rewrite Hdec. cbn [bind]. fold hmac. fold mac.
  rewrite mac_equal_refl. cbn [bind negb].
  rewrite slice_lo by lia. f_equal. unfold bp.
  apply skipn_to_nat_len. lia.
Qed.

(** ** Which errors can reach the caller of [decrypt] *)

Lemma quiet_bind {A B} (m : result A) (k : A -> result B) :
  quiet m -> (forall a, quiet (k a)) -> quiet (bind m k).
Proof.
  destruct m as [a|e]; simpl; auto.
Qed.

Lemma quiet_mapM {A B} (f : A -> result B) (l : list A) :
  (forall x, quiet (f x)) -> quiet (mapM f l).
Proof.
  intros H. induction l as [|x l IH]; simpl; [exact I|].
  apply quiet_bind; [apply H|]. intros y.
  apply quiet_bind; [apply IH|]. intros ys. exact I.
Qed.

Create HintDb quiet.

Ltac quiet_step :=
  match goal with
  | |- quiet (Ok _) => exact I
  | |- quiet (Raise _) => reflexivity
  | |- quiet (bind _ _) => apply quiet_bind; [|intros]
  | |- quiet (mapM _ _) => apply quiet_mapM; intros
  | |- quiet (if ?c then _ else _) => destruct c
  | |- quiet (match ?x with _ => _ end) => destruct x
  | |- quiet _ => solve [auto with quiet]
  end.

Ltac quiet_tac := repeat quiet_step.

Lemma quiet_chr (z : Z) : quiet (chr z).
Proof. unfold chr. quiet_tac. Qed.

Lemma quiet_getitem {A} (s : list A) (i : Z) : quiet (getitem s i).
Proof. unfold getitem. quiet_tac. Qed.

Lemma quiet_pymod (x y : Z) : quiet (pymod x y).
Proof. unfold pymod. quiet_tac. Qed.

Lemma quiet_pydiv (x y : Z) : quiet (pydiv x y).
Proof. unfold pydiv. quiet_tac. Qed.

Lemma quiet_xrange3 (x y z : Z) : quiet (xrange3 x y z).
Proof. unfold xrange3. quiet_tac. Qed.

#[local] Hint Resolve quiet_chr quiet_getitem quiet_pymod quiet_pydiv
  quiet_xrange3 : quiet.

Lemma quiet_zeropad (s : bytes) (n : Z) : quiet (_zeropad s n).
Proof. unfold _zeropad. quiet_tac. Qed.

Lemma quiet_xorbytes (p q : bytes) : quiet (_xorbytes p q).
Proof. unfold _xorbytes. quiet_tac. Qed.

Lemma quiet_mac_equal (p q : bytes) : quiet (_mac_equal p q).
Proof. unfold _mac_equal. quiet_tac. Qed.

Lemma quiet_rotate_right (s : bytes) (n : Z) : quiet (rotate_right s n).
Proof. unfold rotate_right. quiet_tac. Qed.

Lemma quiet_carry_loop (fuel : nat) (n : Z) (v : list Z) :
  quiet (carry_loop fuel n v).
Proof.
  revert v. induction fuel as [|fuel IH]; intros v; simpl.
  - quiet_tac.
  - destruct (has_carry v); [|exact I].
    apply quiet_bind; [unfold carry_step; quiet_tac | apply IH].
Qed.

#[local] Hint Resolve quiet_zeropad quiet_xorbytes quiet_mac_equal
  quiet_rotate_right quiet_carry_loop : quiet.

Lemma quiet_add_ones_complement (p q : bytes) :
  quiet (add_ones_complement p q).
Proof. unfold add_ones_complement. quiet_tac. Qed.

Lemma quiet_reduce_from (l : list bytes) (acc : bytes) :
  quiet (reduce_from add_ones_complement acc l).
Proof.
  revert acc. induction l as [|x l IH]; intros acc; simpl; [exact I|].
  apply quiet_bind; [apply quiet_add_ones_complement | apply IH].
Qed.

#[local] Hint Resolve quiet_add_ones_complement quiet_reduce_from : quiet.

Lemma quiet_nfold (s : bytes) (n : Z) : quiet (_nfold s n).
Proof. unfold _nfold, reduce. quiet_tac. Qed.

Lemma quiet_pack_IB (n c : Z) : quiet (pack_IB n c).
Proof. unfold pack_IB, pack_I. quiet_tac. Qed.

Lemma quiet_AES_new (k : bytes) (m : aes_mode) (iv : bytes) :
  quiet (AES_new k m iv).
Proof. unfold AES_new. quiet_tac. Qed.

Lemma quiet_cipher_encrypt (aes : cipher) (s : bytes) :
  quiet (cipher_encrypt E aes s).
Proof. unfold cipher_encrypt. quiet_tac. Qed.

Lemma quiet_cipher_decrypt (aes : cipher) (s : bytes) :
  quiet (cipher_decrypt D aes s).
Proof. unfold cipher_decrypt. quiet_tac. Qed.

#[local] Hint Resolve quiet_nfold quiet_pack_IB quiet_AES_new
  quiet_cipher_encrypt quiet_cipher_decrypt : quiet.

Lemma quiet_basic_encrypt (key : Key) (s : bytes) :
  quiet (basic_encrypt key s).
Proof. unfold _AESEnctype_basic_encrypt. quiet_tac. Qed.

Lemma quiet_cbc_loop (aes : cipher) (l : list bytes) (acc prev : bytes) :
  quiet (cbc_loop D aes l acc prev).
Proof.
  revert acc prev. induction l as [|x l IH]; intros acc prev; simpl;
    [exact I|].
  apply quiet_bind; [auto with quiet|]. intros d.
  apply quiet_bind; [auto with quiet|]. intros y. apply IH.
Qed.

#[local] Hint Resolve quiet_basic_encrypt quiet_cbc_loop : quiet.

Lemma quiet_basic_decrypt (key : Key) (s : bytes) :
  quiet (basic_decrypt key s).
Proof. unfold _AESEnctype_basic_decrypt. quiet_tac. Qed.

Lemma quiet_derive_loop (fuel : nat) (cls : EnctypeProfile) (key : Key)
    (p seed : bytes) : quiet (derive_loop E fuel cls key p seed).
Proof.
  revert p seed. induction fuel as [|fuel IH]; intros p seed; simpl.
  - quiet_tac.
  - destruct (len seed <? seedsize cls); [|exact I].
    apply quiet_bind; [auto with quiet|]. intros c. apply IH.
Qed.

#[local] Hint Resolve quiet_basic_decrypt quiet_derive_loop : quiet.

Lemma quiet_derive (cls : EnctypeProfile) (key : Key) (c : bytes) :
  quiet (_SimplifiedEnctype_derive E cls key c).
Proof. unfold _SimplifiedEnctype_derive. quiet_tac. Qed.

Lemma split_tail {A} (s : list A) (k : Z) :
  0 <= k <= len s ->
  exists a c, s = a ++ c /\ len c = k /\ len a = len s - k.
Proof.
  intros H. exists (firstn (Z.to_nat (len s - k)) s),
                   (skipn (Z.to_nat (len s - k)) s).
  rewrite firstn_skipn. unfold len in *.
  rewrite length_firstn, length_skipn. repeat split; lia.
Qed.

(** For a valid key and key usage, [decrypt] checks the length first and
    after that can only fail the integrity check. *)
Lemma decrypt_valid_cases (cls : EnctypeProfile) (key : Key) (keyusage : Z)
    (ct : bytes) :
  supported cls -> aes_key (contents key) -> uint32 keyusage ->
  let r := _SimplifiedEnctype_decrypt E D HMAC_digest cls key keyusage ct in
  (len ct < 28 /\ r = Raise (ValueError "ciphertext too short")) \/
  (28 <= len ct /\
   ((exists p, r = Ok p) \/
    r = Raise (ValueError "ciphertext integrity failure"))).
Proof.
  intros Hcls Hk Hu r. subst r.
  destruct (usage_keys cls key keyusage Hcls Hk Hu)
    as (c55 & cAA & ki & ke & E55 & EAA & Eki & Eke & Hke).
  unfold _SimplifiedEnctype_decrypt.
  rewrite E55, EAA. cbn [bind]. rewrite Eki, Eke. cbn [bind].
  assert (Hconst : padsize cls = 1 /\ macsize cls = 12 /\ blocksize cls = 16
                   /\ hashmod cls = SHA)
    by (destruct Hcls; subst; auto).
  destruct Hconst as (-> & -> & -> & ->).
  destruct (Z.ltb_spec (len ct) (16 + 12)) as [Hs|Hl]; [left; split; [lia|reflexivity]|].
  right. split; [lia|].
  destruct (split_tail ct 12) as (body & mac & -> & Lmac & Lbody); [lia|].
  replace (Z.opp 12) with (- len mac) by lia.
  rewrite slice_app_neg_hi, slice_app_neg_lo by lia.
  unfold pymod. cbn [Z.eqb bind]. rewrite Z.mod_1_r. cbn [Z.eqb negb].
  rewrite len_app in Hl.
  destruct (basic_decrypt_defined ke body Hke) as (bp & ->); [lia|].
  cbn [bind].
  destruct (mac_equal_defined mac
              (slice (HMAC_digest (contents ki) bp SHA) None (Some 12)))
    as (same & ->).
  { rewrite slice_hi by lia. unfold len in *. rewrite length_firstn.
    pose proof (HMAC_digest_len (contents ki) bp SHA) as HH.
    unfold len in HH. lia. }
  cbn [bind]. destruct same; cbn [negb]; eauto.
Qed.

(** Whatever the key and key usage, an error raised by [decrypt] is one of a
    callee, or "too short" on a ciphertext below 28 bytes, or the integrity
    failure: never the padding error. *)
Lemma decrypt_raises (cls : EnctypeProfile) (key : Key) (keyusage : Z)
    (ct : bytes) (e : exn) :
  supported cls ->
  _SimplifiedEnctype_decrypt E D HMAC_digest cls key keyusage ct = Raise e ->
  decrypt_error e = false \/
  (e = ValueError "ciphertext too short" /\ len ct < 28) \/
  e = ValueError "ciphertext integrity failure".
Proof.
  intros Hcls. unfold _SimplifiedEnctype_decrypt.
  assert (Hconst : padsize cls = 1 /\ macsize cls = 12 /\ blocksize cls = 16)
    by (destruct Hcls; subst; auto).
  destruct Hconst as (-> & -> & ->).
  pose proof (quiet_pack_IB keyusage 85) as Q1.
  destruct (pack_IB keyusage 85) as [c55|e1];
    [|cbn [bind]; intros [= <-]; left; exact Q1]. cbn [bind].
  pose proof (quiet_derive cls key c55) as Q2.
  destruct (_SimplifiedEnctype_derive E cls key c55) as [ki|e2];
    [|cbn [bind]; intros [= <-]; left; exact Q2]. cbn [bind].
  pose proof (quiet_pack_IB keyusage 170) as Q3.
  destruct (pack_IB keyusage 170) as [cAA|e3];
    [|cbn [bind]; intros [= <-]; left; exact Q3]. cbn [bind].
  pose proof (quiet_derive cls key cAA) as Q4.
  destruct (_SimplifiedEnctype_derive E cls key cAA) as [ke|e4];
    [|cbn [bind]; intros [= <-]; left; exact Q4]. cbn [bind].
  destruct (Z.ltb_spec (len ct) (16 + 12)) as [Hs|Hl].
  { intros [= <-]. right. left. split; [reflexivity | lia]. }
  unfold pymod. cbn [Z.eqb bind]. rewrite Z.mod_1_r. cbn [Z.eqb negb].
  match goal with |- context [_AESEnctype_basic_decrypt D ke ?s] =>
    pose proof (quiet_basic_decrypt ke s) as Q5;
    destruct (_AESEnctype_basic_decrypt D ke s) as [bp|e5]
  end; [|cbn [bind]; intros [= <-]; left; exact Q5]. cbn [bind].
  match goal with |- context [_mac_equal ?m1 ?m2] =>
    pose proof (quiet_mac_equal m1 m2) as Q6;
    destruct (_mac_equal m1 m2) as [same|e6]
  end; [|cbn [bind]; intros [= <-]; left; exact Q6]. cbn [bind].
  destruct same; cbn [negb]; [discriminate|].
  intros [= <-]. right. right. reflexivity.
Qed.

Lemma len_slice_neg_hi {A} (s : list A) (k : Z) :
  0 < k -> len (slice s None (Some (- k))) = Z.max (len s - k) 0.
Proof.
  intros Hk. unfold slice, clamp. replace (- k <? 0) with true by lia.
  cbn [skipn Z.to_nat]. change (Z.to_nat 0) with 0%nat. cbn [skipn].
  unfold len. rewrite length_firstn. lia.
Qed.

(** A key that is not an AES key stops [decrypt] in the first sub-key
    derivation, before any look at the ciphertext. *)
Lemma decrypt_bad_key (cls : EnctypeProfile) (key : Key) (keyusage : Z)
    (ct : bytes) :
  supported cls -> ~ aes_key (contents key) -> uint32 keyusage ->
  _SimplifiedEnctype_decrypt E D HMAC_digest cls key keyusage ct =
  Raise (ValueError
           (if len (contents key) =? 0 then "Key cannot be the null string"
            else "AES key must be either 16, 24, or 32 bytes long")).
Proof.
  intros Hcls Hk Hu. unfold _SimplifiedEnctype_decrypt.
  destruct (pack_IB_ok keyusage 85 Hu) as (c55 & -> & N55); [lia|].
  cbn [bind]. unfold _SimplifiedEnctype_derive.
  assert (Hb : blocksize cls = 16) by (destruct Hcls; subst; reflexivity).
  rewrite Hb.
  destruct (nfold_defined c55 16 N55) as (p & -> & Hp); [lia|].
  cbn [bind].
  assert (Hf : exists f, Z.to_nat (seedsize cls) = S f /\ 0 < seedsize cls).
  { destruct Hcls; subst; cbn; eexists; split; try reflexivity; lia. }
  destruct Hf as (f & -> & Hpos). cbn [derive_loop].
  change (len (@nil byte)) with 0.
  replace (0 <? seedsize cls) with true by lia.
  unfold _AESEnctype_basic_encrypt. rewrite Hp.
  cbn [Z.leb Z.compare Pos.compare Pos.compare_cont].
  now rewrite AES_new_bad.
Qed.

(** C5, amended: 28 = blocksize + macsize is the threshold.  For a key of a
    supported enctype whose contents are an AES key, and a 32-bit key usage,
    [decrypt] raises "ciphertext too short" exactly on ciphertexts below 28
    bytes, which are those whose body, after the 12 MAC bytes are split off,
    is below one block.  For every key and key usage, a ciphertext of 28
    bytes or more does not raise that error. *)
Theorem decrypt_too_short_iff (cls : EnctypeProfile) (key : Key)
    (keyusage : Z) (ct : bytes) :
  _get_enctype_profile (enctype key) = Ok cls ->
  let r := decrypt E D HMAC_digest key keyusage ct in
  blocksize cls + macsize cls = 28 /\
  (len (slice ct None (Some (- macsize cls))) < blocksize cls <->
   len ct < blocksize cls + macsize cls) /\
  (aes_key (contents key) -> uint32 keyusage ->
   (r = Raise (ValueError "ciphertext too short") <->
    len ct < blocksize cls + macsize cls)) /\
  (blocksize cls + macsize cls <= len ct ->
   r <> Raise (ValueError "ciphertext too short")).
Proof.
  intros Hprof r. subst r. unfold decrypt. rewrite Hprof. cbn [bind].
  assert (Hcls : supported cls).
  { apply get_enctype_profile_supported in Hprof.
    destruct Hprof as [[_ ->] | [_ ->]]; [left | right]; reflexivity. }
  assert (Hconst : macsize cls = 12 /\ blocksize cls = 16)
    by (destruct Hcls; subst; auto).
  destruct Hconst as (-> & ->).
  split; [reflexivity|]. split; [|split].
  - rewrite len_slice_neg_hi by lia. pose proof (len_nonneg ct). lia.
  - intros Hk Hu.
    destruct (decrypt_valid_cases cls key keyusage ct Hcls Hk Hu)
      as [(Hs & ->) | (Hl & [(p & ->) | ->])].
    + split; [lia | reflexivity].
    + split; [discriminate | lia].
    + split; [discriminate | lia].
  - intros Hl Hr.
    destruct (decrypt_raises cls key keyusage ct _ Hcls Hr)
      as [Hq | [(_ & Hs) | Hi]]; [discriminate | lia | discriminate].
Qed.

(** C9, amended: with the padding multiple 1 of the supported enctypes,
    [decrypt] never raises the padding error, whatever the key, the key
    usage and the ciphertext.  When the key contents are an AES key and the
    key usage fits 32 bits, [decrypt] returns a plaintext or raises "too
    short" or the integrity failure, and nothing else. *)
Theorem decrypt_padding_unreachable (cls : EnctypeProfile) (key : Key)
    (keyusage : Z) (ct : bytes) :
  _get_enctype_profile (enctype key) = Ok cls ->
  let r := decrypt E D HMAC_digest key keyusage ct in
  padsize cls = 1 /\
  r <> Raise (ValueError "ciphertext does not meet padding requirement") /\
  (aes_key (contents key) -> uint32 keyusage ->
   (exists p, r = Ok p) \/
   r = Raise (ValueError "ciphertext too short") \/
   r = Raise (ValueError "ciphertext integrity failure")).
Proof.
  intros Hprof r. subst r. unfold decrypt. rewrite Hprof. cbn [bind].
  assert (Hcls : supported cls).
  { apply get_enctype_profile_supported in Hprof.
    destruct Hprof as [[_ ->] | [_ ->]]; [left | right]; reflexivity. }
  split; [destruct Hcls; subst; reflexivity|]. split.
  - intros Hr.
    destruct (decrypt_raises cls key keyusage ct _ Hcls Hr)
      as [Hq | [(Hs & _) | Hi]]; discriminate.
  - intros Hk Hu.
    destruct (decrypt_valid_cases cls key keyusage ct Hcls Hk Hu)
      as [(_ & ->) | (_ & [(p & ->) | ->])]; eauto.
Qed.

(** ** Further facts: the CTS mode *)

Lemma length_cbc_dec (k prev : bytes) (cs : list bytes) :
  length (cbc_dec k prev cs) = length cs.
Proof.
  revert prev. induction cs as [|c r IH]; intros prev; simpl;
    [reflexivity | now rewrite IH].
Qed.

Lemma cbc_dec_blocks (k prev : bytes) (cs : list bytes) :
  aes_key k -> is_block prev -> Forall is_block cs ->
  Forall is_block (cbc_dec k prev cs) /\ is_block (last cs prev).
Proof.
  intros Hk. revert prev. induction cs as [|c r IH]; intros prev Hp Hcs.
  - simpl. auto.
  - inversion Hcs as [|? ? Hc Hr]; subst. cbn [cbc_decrypt_blocks].
    destruct (IH c Hc Hr) as (F & L). rewrite last_cons_default.
    split; [|assumption]. constructor; [|assumption].
    unfold is_block in *.
    rewrite len_xor_block; rewrite (aes_decrypt_block_len k c Hk Hc); auto.
Qed.

(** CBC encryption undoes CBC decryption when block encryption undoes block
    decryption. *)
Lemma cbc_enc_dec (k prev : bytes) (cs : list bytes) :
  (forall blk, is_block blk -> E k (D k blk) = blk) ->
  aes_key k -> is_block prev -> Forall is_block cs ->
  cbc_enc k prev (cbc_dec k prev cs) = cs.
Proof.
  intros HED Hk. revert prev. induction cs as [|c r IH]; intros prev Hp Hcs;
    [reflexivity|].
  inversion Hcs as [|? ? Hc Hr]; subst.
  cbn [cbc_encrypt_blocks cbc_decrypt_blocks].
  rewrite xor_block_cancel
    by (rewrite (aes_decrypt_block_len k c Hk Hc); now rewrite Hp).
  rewrite HED by assumption. f_equal. now apply IH.
Qed.

(** Under an AES key, [basic_decrypt] returns a string as long as its
    input. *)
Lemma basic_decrypt_length (key : Key) (s : bytes) :
  aes_key (contents key) -> 16 <= len s ->
  exists p, basic_decrypt key s = Ok p /\ len p = len s.
Proof.
  intros Hk Hlen.
  assert (Hz : is_block (zeros 16)) by now apply len_zeros.
  destruct (Z.eq_dec (len s) 16) as [H16|Hne].
  - exists (D (contents key) s). rewrite basic_decrypt_one by assumption.
    split; [reflexivity|].
    rewrite (aes_decrypt_block_len _ s Hk H16). now rewrite H16.
  - destruct (split_last_two (length s) s)
      as (cs & c2 & c1 & Es & Hcs & Hc2 & Hc1); [lia | lia |].
    assert (HL : len s = 16 * len cs + 16 + len c1).
    { rewrite Es, !len_app, len_concat_blocks, Hc2 by assumption.
      unfold bytes in *. lia. }
    pose proof (basic_decrypt_long key cs c2 c1 Hk Hcs Hc2 Hc1) as Hdec.
    cbv zeta in Hdec. rewrite <- Es in Hdec.
    eexists. split; [exact Hdec|].
    destruct (cbc_dec_blocks (contents key) (zeros 16) cs Hk Hz Hcs)
      as (Fd & Lp).
    assert (Hd2 : is_block (D (contents key) c2))
      by now apply aes_decrypt_block_len.
    set (n := Z.to_nat (len c1)).
    assert (Hb : is_block (c1 ++ skipn n (D (contents key) c2))).
    { unfold is_block, len in *. rewrite length_app, length_skipn.
      unfold n. lia. }
    assert (Hf : len (firstn n (D (contents key) c2)) = len c1).
    { unfold is_block in Hd2. unfold len in *. rewrite length_firstn.
      unfold n. lia. }
    pose proof (aes_decrypt_block_len _ _ Hk Hb) as Hdb.
    rewrite !len_app, len_concat_blocks by assumption.
    rewrite (len_xor_block (D (contents key) _) _)
      by (unfold is_block in *; congruence).
    rewrite (len_xor_block (firstn n _) c1) by exact Hf.
    rewrite Hdb, Hf, HL.
    unfold len at 1. rewrite length_cbc_dec.
    unfold bytes, len in *. lia.
Qed.

(** X10: the CTS mode never changes the length.  Below 16 bytes both
    directions stop at their assertion, whatever the key; from 16 bytes on
    and under an AES key, [basic_encrypt] and [basic_decrypt] each return a
    string as long as their input. *)
Theorem cts_keeps_length (key : Key) (s : bytes) :
  (len s < 16 ->
   basic_encrypt key s = Raise AssertionError /\
   basic_decrypt key s = Raise AssertionError) /\
  (16 <= len s -> aes_key (contents key) ->
   exists c p,
     basic_encrypt key s = Ok c /\ len c = len s /\
     basic_decrypt key s = Ok p /\ len p = len s).
Proof.
  split.
  - intros H. unfold _AESEnctype_basic_encrypt, _AESEnctype_basic_decrypt.
    replace (16 <=? len s) with false by lia. auto.
  - intros Hlen Hk.
    destruct (cts_roundtrip key s Hk Hlen) as (c & Henc & Lc & _).
    destruct (basic_decrypt_length key s Hk Hlen) as (p & Hdec & Lp).
    exists c, p. auto.
Qed.

(** X11: when block encryption also undoes block decryption, the CTS mode is
    a bijection in both directions: [basic_encrypt] maps the result of
    [basic_decrypt] back to the ciphertext, for every string of at least 16
    bytes. *)
Theorem basic_encrypt_decrypt (key : Key) (ctext : bytes) :
  (forall k blk, aes_key k -> is_block blk -> E k (D k blk) = blk) ->
  aes_key (contents key) -> 16 <= len ctext ->
  (ptext <- basic_decrypt key ctext ;; basic_encrypt key ptext) = Ok ctext.
Proof.
  intros HED Hk Hlen. set (k := contents key) in *.
  assert (Hz : is_block (zeros 16)) by now apply len_zeros.
  destruct (Z.eq_dec (len ctext) 16) as [H16|Hne].
  - rewrite basic_decrypt_one by assumption. cbn [bind]. fold k.
    rewrite basic_encrypt_one by (auto; now apply aes_decrypt_block_len).
    fold k. now rewrite HED.
  - destruct (split_last_two (length ctext) ctext)
      as (cs & c2 & c1 & -> & Hcs & Hc2 & Hc1); [lia | lia |].
    rewrite basic_decrypt_long by assumption. cbv zeta. cbn [bind]. fold k.
    set (n := Z.to_nat (len c1)).
    set (d2 := D k c2). set (prev := last cs (zeros 16)).
    destruct (cbc_dec_blocks k (zeros 16) cs Hk Hz Hcs) as (Fd & Lp).
    fold prev in Lp.
    assert (Hd2 : is_block d2) by now apply aes_decrypt_block_len.
    assert (Hb : is_block (c1 ++ skipn n d2)).
    { unfold is_block, len in *. rewrite length_app, length_skipn.
      unfold n. lia. }
    assert (Hf : len (firstn n d2) = len c1).
    { unfold is_block in Hd2. unfold len in *. rewrite length_firstn.
      unfold n. lia. }
    assert (Hdb : is_block (D k (c1 ++ skipn n d2)))
      by now apply aes_decrypt_block_len.
    set (pen := xor_block (D k (c1 ++ skipn n d2)) prev).
    set (lastpt := xor_block (firstn n d2) c1).
    assert (Hpen : is_block pen).
    { unfold pen, is_block in *.
      rewrite len_xor_block; [exact Hdb | rewrite Hdb; symmetry; exact Lp]. }
    assert (Llast : len lastpt = len c1).
    { unfold lastpt. rewrite len_xor_block; congruence. }
    rewrite <- app_assoc.
    rewrite basic_encrypt_long; try assumption; [|lia].
    cbv zeta. fold k.
    rewrite (cbc_enc_dec k (zeros 16) cs (fun blk => HED k blk Hk))
      by assumption.
    fold prev. unfold pen.
    rewrite xor_block_cancel by (unfold is_block in *; congruence).
    rewrite HED by assumption.
    rewrite Llast.
    rewrite (xor_block_app lastpt _ c1 _) by exact Llast.
    unfold lastpt. rewrite xor_block_cancel by exact Hf.
    rewrite xor_block_zeros_l.
    2:{ unfold is_block in Hd2. unfold len in *. rewrite length_skipn.
        unfold n. lia. }
    rewrite firstn_skipn. unfold d2. rewrite HED by assumption.
    rewrite firstn_to_nat_len by reflexivity. reflexivity.
Qed.

(** ** Further facts: key derivation *)

Lemma nfold_ok_block (constant p : bytes) :
  _nfold constant 16 = Ok p -> constant <> [] /\ is_block p.
Proof.
  intros H. destruct constant as [|c r]; [vm_compute in H; discriminate|].
  split; [discriminate|].
  destruct (nfold_defined (c :: r) 16) as (q & Hq & Lq);
    [discriminate | lia |].
  rewrite Hq in H. injection H as <-. exact Lq.
Qed.

Lemma slice_whole {A} (s : list A) (n : Z) :
  len s = n -> slice s (Some 0) (Some n) = s.
Proof.
  intros H. pose proof (len_nonneg s). rewrite slice_lo_hi by lia.
  change (Z.to_nat 0) with 0%nat. cbn [skipn]. rewrite Z.sub_0_r.
  rewrite <- H. unfold len. rewrite Nat2Z.id. apply firstn_all.
Qed.

(** X12: the derived key in closed form.  With [p] the 16-byte fold of the
    constant, the AES-128 profile returns the single block [E p], and the
    AES-256 profile returns [E p] followed by [E (E p)]: under the same base
    key, the AES-128 derived key is the first half of the AES-256 one.  Both
    carry the tag 18. *)
Theorem derive_chain (key : Key) (constant p : bytes) :
  aes_key (contents key) ->
  _nfold constant 16 = Ok p ->
  let c1 := E (contents key) p in
  let c2 := E (contents key) c1 in
  _SimplifiedEnctype_derive E _AES128CTS key constant = Ok (mkKey 18 c1) /\
  _SimplifiedEnctype_derive E _AES256CTS key constant =
    Ok (mkKey 18 (c1 ++ c2)).
Proof.
  intros Hk Hp c1 c2. destruct (nfold_ok_block _ _ Hp) as (_ & Lp).
  assert (L1 : is_block c1) by now apply aes_encrypt_block_len.
  assert (L2 : is_block c2) by now apply aes_encrypt_block_len.
  unfold _SimplifiedEnctype_derive.
  change (blocksize _AES128CTS) with 16. change (blocksize _AES256CTS) with 16.
  rewrite Hp. cbn [bind]. split.
  - change (Z.to_nat (seedsize _AES128CTS)) with 16%nat.
    rewrite derive_loop_step by (auto; reflexivity).
    fold c1. cbn [app].
    rewrite derive_loop_stop by (rewrite L1; cbn; lia).
    cbn [bind]. change (seedsize _AES128CTS) with 16.
    now rewrite slice_whole.
  - change (Z.to_nat (seedsize _AES256CTS)) with 32%nat.
    rewrite derive_loop_step by (auto; reflexivity).
    fold c1. cbn [app].
    rewrite derive_loop_step by (auto; rewrite L1; reflexivity).
    fold c2.
    assert (L : len (c1 ++ c2) = 32)
      by (rewrite len_app; unfold is_block in *; lia).
    rewrite derive_loop_stop by (rewrite L; cbn; lia).
    cbn [bind]. change (seedsize _AES256CTS) with 32.
    now rewrite slice_whole.
Qed.

(** A key that AES does not accept stops [derive] at its first encryption. *)
Lemma derive_bad_key (cls : EnctypeProfile) (key : Key) (constant : bytes) :
  supported cls -> ~ aes_key (contents key) -> constant <> [] ->
  _SimplifiedEnctype_derive E cls key constant =
  Raise (ValueError
           (if len (contents key) =? 0 then "Key cannot be the null string"
            else "AES key must be either 16, 24, or 32 bytes long")).
Proof.
  intros Hcls Hk Hc. unfold _SimplifiedEnctype_derive.
  assert (Hb : blocksize cls = 16) by (destruct Hcls; subst; reflexivity).
  rewrite Hb.
  destruct (nfold_defined constant 16 Hc) as (p & -> & Hp); [lia|].
  cbn [bind].
  assert (Hf : exists f, Z.to_nat (seedsize cls) = S f /\ 0 < seedsize cls).
  { destruct Hcls; subst; cbn; eexists; split; try reflexivity; lia. }
  destruct Hf as (f & -> & Hpos). cbn [derive_loop].
  change (len (@nil byte)) with 0.
  replace (0 <? seedsize cls) with true by lia.
  unfold _AESEnctype_basic_encrypt. rewrite Hp.
  cbn [Z.leb Z.compare Pos.compare Pos.compare_cont].
  now rewrite AES_new_bad.
Qed.

Lemma get_checksum_profile_supported (cksumtype : Z) :
  cksumtype = 15 \/ cksumtype = 16 ->
  exists c, _get_checksum_profile cksumtype = Ok c /\
            supported (enc c) /\ ck_macsize c = 12.
Proof.
  intros [-> | ->]; eexists; (split; [reflexivity|]);
    (split; [|reflexivity]); [left | right]; reflexivity.
Qed.

(** X13: the length of the key contents is checked nowhere but in
    [AES.new].  With a key whose contents are not 16, 24 or 32 bytes long
    and a 32-bit key usage, [encrypt], [decrypt], [make_checksum] and
    [verify_checksum] all raise the ValueError of [AES.new], whatever the
    text: "Key cannot be the null string" for empty contents, and "AES key
    must be either 16, 24, or 32 bytes long" for any other length.  The
    checksum functions do so whatever the tag of the key. *)
Theorem bad_key_rejected (key : Key) (keyusage : Z) :
  ~ aes_key (contents key) -> uint32 keyusage ->
  let e := ValueError
             (if len (contents key) =? 0
              then "Key cannot be the null string"
              else "AES key must be either 16, 24, or 32 bytes long") in
  (enctype key = 17 \/ enctype key = 18 ->
   (forall plaintext confounder,
      encrypt E HMAC_digest get_random_bytes key keyusage plaintext confounder
      = Raise e) /\
   (forall ciphertext,
      decrypt E D HMAC_digest key keyusage ciphertext = Raise e)) /\
  (forall cksumtype text cksum,
     cksumtype = 15 \/ cksumtype = 16 ->
     make_checksum E HMAC_digest cksumtype key keyusage text = Raise e /\
     verify_checksum E HMAC_digest cksumtype key keyusage text cksum
     = Raise e).
Proof.
  intros Hk Hu e. subst e.
  destruct (pack_IB_ok keyusage 85 Hu) as (c55 & E55 & N55); [lia|].
  destruct (pack_IB_ok keyusage 153 Hu) as (c99 & E99 & N99); [lia|].
  split.
  - intros Ht.
    assert (Hp : exists cls, _get_enctype_profile (enctype key) = Ok cls /\
                             supported cls).
    { destruct Ht as [-> | ->]; eexists; (split; [reflexivity|]);
        [left | right]; reflexivity. }
    destruct Hp as (cls & Hp & Hcls).
    unfold encrypt, decrypt. rewrite Hp. cbn [bind].
    unfold _SimplifiedEnctype_encrypt, _SimplifiedEnctype_decrypt.
    rewrite E55. cbn [bind]. rewrite derive_bad_key by assumption.
    split; reflexivity.
  - intros cksumtype text cksum Hc.
    destruct (get_checksum_profile_supported cksumtype Hc)
      as (c & Hprof & Hcls & _).
    unfold make_checksum, verify_checksum. rewrite Hprof. cbn [bind].
    unfold _SimplifiedChecksum_verify, _SimplifiedChecksum_checksum.
    rewrite E99. cbn [bind]. rewrite derive_bad_key by assumption.
    split; reflexivity.
Qed.

(** X14: the key usage is packed as an unsigned 32-bit field before anything
    else is looked at.  Outside that range, [encrypt], [decrypt] and
    [make_checksum] raise [struct.error], whatever the key contents and the
    text. *)
Theorem keyusage_out_of_range (key : Key) (keyusage : Z) :
  ~ uint32 keyusage ->
  (enctype key = 17 \/ enctype key = 18 ->
   (forall plaintext confounder,
      encrypt E HMAC_digest get_random_bytes key keyusage plaintext confounder
      = Raise StructError) /\
   (forall ciphertext,
      decrypt E D HMAC_digest key keyusage ciphertext = Raise StructError)) /\
  (forall cksumtype text,
     cksumtype = 15 \/ cksumtype = 16 ->
     make_checksum E HMAC_digest cksumtype key keyusage text
     = Raise StructError).
Proof.
  intros Hu.
  assert (Hp : forall c, pack_IB keyusage c = Raise StructError).
  { intros c. unfold pack_IB, pack_I, uint32 in *.
    replace ((0 <=? keyusage) && (keyusage <? 4294967296)) with false by lia.
    reflexivity. }
  split.
  - intros Ht.
    assert (Hc : exists cls, _get_enctype_profile (enctype key) = Ok cls).
    { destruct Ht as [-> | ->]; eexists; reflexivity. }
    destruct Hc as (cls & Hc).
    unfold encrypt, decrypt. rewrite Hc. cbn [bind].
    unfold _SimplifiedEnctype_encrypt, _SimplifiedEnctype_decrypt.
    rewrite Hp. split; reflexivity.
  - intros cksumtype text Hc.
    destruct (get_checksum_profile_supported cksumtype Hc) as (c & Hc' & _).
    unfold make_checksum. rewrite Hc'. cbn [bind].
    unfold _SimplifiedChecksum_checksum. now rewrite Hp.
Qed.

(** ** Further facts: authenticated encryption *)

Lemma len_mac12 (k m : bytes) :
  len (slice (HMAC_digest k m SHA) None (Some 12)) = 12.
Proof.
  rewrite slice_hi by lia. pose proof (HMAC_digest_len k m SHA) as H.
  unfold len in *. rewrite length_firstn. lia.
Qed.

Lemma supported_tag (etype : Z) :
  etype = 17 \/ etype = 18 ->
  exists cls, _get_enctype_profile etype = Ok cls /\ supported cls.
Proof.
  intros [-> | ->]; eexists; (split; [reflexivity|]);
    [left | right]; reflexivity.
Qed.

(** [decrypt] on a ciphertext cut into a body of at least one block and its
    12 MAC bytes: the body is decrypted under [ke] and the MAC compared with
    the truncated HMAC under [ki]. *)
Lemma decrypt_split (cls : EnctypeProfile) (key : Key) (keyusage : Z)
    (c55 cAA : bytes) (ki ke : Key) (body mac : bytes) :
  supported cls ->
  pack_IB keyusage 85 = Ok c55 -> pack_IB keyusage 170 = Ok cAA ->
  _SimplifiedEnctype_derive E cls key c55 = Ok ki ->
  _SimplifiedEnctype_derive E cls key cAA = Ok ke ->
  aes_key (contents ke) -> 16 <= len body -> len mac = 12 ->
  exists bp same,
    basic_decrypt ke body = Ok bp /\ len bp = len body /\
    (same = true <->
     mac = slice (HMAC_digest (contents ki) bp SHA) None (Some 12)) /\
    _SimplifiedEnctype_decrypt E D HMAC_digest cls key keyusage (body ++ mac)
    = if same then Ok (skipn 16 bp)
      else Raise (ValueError "ciphertext integrity failure").
Proof.
  intros Hcls E55 EAA Eki Eke Hke Hb Hm.
  destruct (basic_decrypt_length ke body Hke Hb) as (bp & Hdec & Lbp).
  destruct (mac_equal_decides mac
              (slice (HMAC_digest (contents ki) bp SHA) None (Some 12)))
    as (same & Hsame & Hiff); [now rewrite len_mac12|].
  exists bp, same. split; [exact Hdec|]. split; [exact Lbp|].
  split; [exact Hiff|].
  unfold _SimplifiedEnctype_decrypt.
  rewrite E55, EAA. cbn [bind]. rewrite Eki, Eke. cbn [bind].
  assert (Hconst : padsize cls = 1 /\ macsize cls = 12 /\ blocksize cls = 16
                   /\ hashmod cls = SHA)
    by (destruct Hcls; subst; auto).
  destruct Hconst as (-> & -> & -> & ->).
  replace (len (body ++ mac) <? 16 + 12) with false
    by (rewrite len_app; lia).
  replace (Z.opp 12) with (- len mac) by lia.
  rewrite slice_app_neg_hi, slice_app_neg_lo by lia.
  unfold pymod. cbn [Z.eqb bind]. rewrite Z.mod_1_r. cbn [Z.eqb negb].
  rewrite Hdec. cbn [bind]. rewrite Hsame. cbn [bind].
  destruct same; cbn [negb]; [|reflexivity].
  now rewrite slice_lo by lia.
Qed.

(** X15: [encrypt] with any confounder, also the random one it draws when
    none is given.  The confounder's length is not checked: when confounder
    and plaintext together are below 16 bytes the CTS assertion fails;
    otherwise the ciphertext is 12 bytes longer than the two together, and
    [decrypt] returns them without their first 16 bytes, which is the
    plaintext exactly when the confounder has 16 bytes. *)
Theorem encrypt_any_confounder (key : Key) (keyusage : Z)
    (plaintext : bytes) (confounder : option bytes) :
  enctype key = 17 \/ enctype key = 18 ->
  aes_key (contents key) -> uint32 keyusage ->
  let conf := match confounder with
              | None => get_random_bytes 16
              | Some c => c
              end in
  let r := encrypt E HMAC_digest get_random_bytes
                   key keyusage plaintext confounder in
  (len conf + len plaintext < 16 -> r = Raise AssertionError) /\
  (16 <= len conf + len plaintext ->
   exists ctext,
     r = Ok ctext /\ len ctext = len conf + len plaintext + 12 /\
     decrypt E D HMAC_digest key keyusage ctext =
       Ok (skipn 16 (conf ++ plaintext))).
Proof.
  intros Ht Hk Hu conf r. subst r.
  destruct (supported_tag _ Ht) as (cls & Hprof & Hcls).
  destruct (usage_keys cls key keyusage Hcls Hk Hu)
    as (c55 & cAA & ki & ke & E55 & EAA & Eki & Eke & Hke).
  unfold encrypt, decrypt. rewrite Hprof. cbn [bind].
  unfold _SimplifiedEnctype_encrypt.
  rewrite E55, EAA. cbn [bind]. rewrite Eki, Eke. cbn [bind].
  assert (Hconst : padsize cls = 1 /\ macsize cls = 12 /\ blocksize cls = 16
                   /\ hashmod cls = SHA)
    by (destruct Hcls; subst; auto).
  destruct Hconst as (-> & -> & -> & ->).
  rewrite zeropad_1. cbn [bind]. fold conf.
  set (bp := conf ++ plaintext).
  assert (Lbp : len bp = len conf + len plaintext) by apply len_app.
  split.
  - intros Hs. unfold _AESEnctype_basic_encrypt.
    replace (16 <=? len bp) with false by lia. reflexivity.
  - intros Hl.
    destruct (cts_roundtrip ke bp Hke) as (ct0 & Henc & Lct & Hdec); [lia|].
    rewrite Henc. cbn [bind].
    set (mac := slice (HMAC_digest (contents ki) bp SHA) None (Some 12)).
    assert (Lmac : len mac = 12) by apply len_mac12.
    eexists. split; [reflexivity|]. split; [rewrite len_app; lia|].
    destruct (decrypt_split cls key keyusage c55 cAA ki ke ct0 mac)
      as (bp' & same & Hdec' & _ & Hiff & ->); auto; [lia|].
    rewrite Hdec in Hdec'. injection Hdec' as <-.
    destruct same; [reflexivity|].
    destruct Hiff as (_ & Hiff). now discriminate Hiff.
Qed.

Lemma pack_IB_cases (n c : Z) :
  0 <= c < 256 ->
  (uint32 n /\ exists s, pack_IB n c = Ok s /\ s <> []) \/
  (~ uint32 n /\ pack_IB n c = Raise StructError).
Proof.
  intros Hc. destruct (Z_le_dec 0 n) as [H0|H0];
    [destruct (Z_lt_dec n 4294967296) as [H1|H1]|].
  - left. split; [unfold uint32; lia|]. apply pack_IB_ok; [unfold uint32|]; lia.
  - right. split; [unfold uint32; lia|]. unfold pack_IB, pack_I.
    replace ((0 <=? n) && (n <? 4294967296)) with false by lia. reflexivity.
  - right. split; [unfold uint32; lia|]. unfold pack_IB, pack_I.
    replace ((0 <=? n) && (n <? 4294967296)) with false by lia. reflexivity.
Qed.

Lemma aes_key_dec (k : bytes) : aes_key k \/ ~ aes_key k.
Proof. unfold aes_key. lia. Qed.

(** X16: what an accepted ciphertext tells.  If [decrypt] returns a
    plaintext for a body followed by 12 MAC bytes, then the body has at
    least 16 bytes, the plaintext is 16 bytes shorter than the body, and the
    same body with any other 12 bytes in place of the MAC is refused with
    the integrity failure.  Nothing is assumed about the key or the key
    usage. *)
Theorem decrypt_authenticates (key : Key) (keyusage : Z)
    (body mac mac' plaintext : bytes) :
  enctype key = 17 \/ enctype key = 18 ->
  len mac = 12 -> len mac' = 12 ->
  decrypt E D HMAC_digest key keyusage (body ++ mac) = Ok plaintext ->
  16 <= len body /\ len plaintext = len body - 16 /\
  (mac' <> mac ->
   decrypt E D HMAC_digest key keyusage (body ++ mac') =
   Raise (ValueError "ciphertext integrity failure")).
Proof.
  intros Ht Hm Hm'.
  destruct (supported_tag _ Ht) as (cls & Hprof & Hcls).
  unfold decrypt. rewrite Hprof. cbn [bind]. intros Hok.
  destruct (pack_IB_cases keyusage 85) as [(Hu & _) | (_ & Hbad)]; [lia | |].
  2:{ unfold _SimplifiedEnctype_decrypt in Hok. rewrite Hbad in Hok.
      discriminate Hok. }
  destruct (aes_key_dec (contents key)) as [Hk | Hk].
  2:{ rewrite decrypt_bad_key in Hok by assumption. discriminate Hok. }
  destruct (usage_keys cls key keyusage Hcls Hk Hu)
    as (c55 & cAA & ki & ke & E55 & EAA & Eki & Eke & Hke).
  assert (Hb : 16 <= len body).
  { destruct (Z_lt_dec (len body) 16) as [Hs|]; [|lia]. exfalso.
    destruct (decrypt_valid_cases cls key keyusage (body ++ mac) Hcls Hk Hu)
      as [(_ & Hr) | (Hl & _)].
    - rewrite Hr in Hok. discriminate Hok.
    - rewrite len_app in Hl. lia. }
  split; [exact Hb|].
  destruct (decrypt_split cls key keyusage c55 cAA ki ke body mac)
    as (bp & same & Hdec & Lbp & Hiff & Hr); auto.
  rewrite Hr in Hok. destruct same; [|discriminate Hok].
  assert (Hp : plaintext = skipn 16 bp) by congruence. split.
  - rewrite Hp. unfold len in *. rewrite length_skipn. lia.
  - intros Hne.
    destruct (decrypt_split cls key keyusage c55 cAA ki ke body mac')
      as (bp' & same' & Hdec' & _ & Hiff' & ->); auto.
    rewrite Hdec in Hdec'. injection Hdec' as <-.
    destruct same'; [|reflexivity]. exfalso. apply Hne.
    destruct Hiff as (Hiff & _). destruct Hiff' as (Hiff' & _).
    rewrite (Hiff eq_refl), (Hiff' eq_refl). reflexivity.
Qed.

(** ** Further facts: checksums *)

(** X17: [verify_checksum] accepts what [make_checksum] returns and nothing
    else.  For the two registered checksum types, an AES key and a 32-bit
    key usage, [make_checksum] returns 12 bytes, [verify_checksum] returns
    on them, raises "checksum verification failure" on any other 12 bytes,
    and fails the length assertion of [_mac_equal] on a checksum of another
    length. *)
Theorem verify_checksum_accepts (cksumtype : Z) (key : Key) (keyusage : Z)
    (text : bytes) :
  cksumtype = 15 \/ cksumtype = 16 ->
  aes_key (contents key) -> uint32 keyusage ->
  exists cksum,
    make_checksum E HMAC_digest cksumtype key keyusage text = Ok cksum /\
    len cksum = 12 /\
    verify_checksum E HMAC_digest cksumtype key keyusage text cksum = Ok tt /\
    (forall other,
       other <> cksum ->
       verify_checksum E HMAC_digest cksumtype key keyusage text other =
       Raise (if len other =? 12
              then ValueError "checksum verification failure"
              else AssertionError)).
Proof.
  intros Hc Hk Hu.
  destruct (get_checksum_profile_supported cksumtype Hc)
    as (c & Hprof & Hcls & Hmac).
  destruct (pack_IB_ok keyusage 153 Hu) as (c99 & E99 & N99); [lia|].
  destruct (derive_ok (enc c) key c99 Hcls Hk N99) as (seed & Ekc & _).
  unfold make_checksum, verify_checksum. rewrite Hprof. cbn [bind].
  unfold _SimplifiedChecksum_verify, _SimplifiedChecksum_checksum.
  rewrite E99. cbn [bind]. rewrite Ekc. cbn [bind contents]. rewrite Hmac.
  assert (Hh : hashmod (enc c) = SHA) by (destruct Hcls as [-> | ->]; auto).
  rewrite Hh.
  set (ck := slice (HMAC_digest seed text SHA) None (Some 12)).
  assert (Lck : len ck = 12) by apply len_mac12.
  exists ck. split; [reflexivity|]. split; [exact Lck|]. split.
  - now rewrite mac_equal_refl.
  - intros other Hne. destruct (Z.eqb_spec (len other) 12) as [Ho|Ho].
    + destruct (mac_equal_decides other ck) as (same & -> & Hiff);
        [congruence|].
      cbn [bind]. destruct same; [|reflexivity].
      exfalso. apply Hne. now apply Hiff.
    + unfold _mac_equal. rewrite Lck.
      replace (len other =? 12) with false by lia. reflexivity.
Qed.

End CryptoFacts.

(** ** The small instance meets the assumptions *)

Lemma len_firstn16_key (k : bytes) : aes_key k -> len (firstn 16 k) = 16.
Proof.
  unfold aes_key, len. rewrite length_firstn. lia.
Qed.

Lemma toy_encrypt_block_len (k blk : bytes) :
  aes_key k -> is_block blk -> is_block (toy_encrypt_block k blk).
Proof.
  intros Hk Hb. pose proof (len_firstn16_key k Hk) as L.
  unfold toy_encrypt_block, is_block in *.
  unfold len at 1. rewrite length_rev. fold (len (xor_block blk (firstn 16 k))).
  rewrite len_xor_block; congruence.
Qed.

Lemma toy_decrypt_block_len (k blk : bytes) :
  aes_key k -> is_block blk -> is_block (toy_decrypt_block k blk).
Proof.
  intros Hk Hb. pose proof (len_firstn16_key k Hk) as L.
  assert (R : len (rev blk) = 16)
    by (unfold is_block, len in *; now rewrite length_rev).
  unfold toy_decrypt_block, is_block. rewrite len_xor_block; congruence.
Qed.

Lemma toy_decrypt_encrypt (k blk : bytes) :
  aes_key k -> is_block blk ->
  toy_decrypt_block k (toy_encrypt_block k blk) = blk.
Proof.
  intros Hk Hb. pose proof (len_firstn16_key k Hk) as L.
  unfold toy_decrypt_block, toy_encrypt_block. rewrite rev_involutive.
  apply xor_block_cancel. unfold is_block in Hb. congruence.
Qed.

Lemma toy_digest_len (k m : bytes) (h : hashmodule) :
  len (toy_digest k m h) = 20.
Proof.
  unfold toy_digest, len, zeros.
  rewrite length_firstn, !length_app, repeat_length. lia.
Qed.

(** ** Instances of the theorems above *)

Lemma basic_decrypt_encrypt_witness :
  (ctext <- _AESEnctype_basic_encrypt toy_encrypt_block key17
              (lit "a plaintext of 27 bytes ...") ;;
   _AESEnctype_basic_decrypt toy_decrypt_block key17 ctext)
  = Ok (lit "a plaintext of 27 bytes ...").
Proof.
  apply (basic_decrypt_encrypt toy_encrypt_block toy_decrypt_block
           toy_encrypt_block_len toy_decrypt_block_len toy_decrypt_encrypt
           key17 (lit "a plaintext of 27 bytes ...")).
  - left. reflexivity.
  - vm_compute. discriminate.
Defined.

Lemma decrypt_encrypt_witness :
  exists ctext,
    encrypt toy_encrypt_block toy_digest toy_random_bytes
            key17 2 (lit "9 bytesss") (Some (lit "CONFOUNDERconfou"))
      = Ok ctext /\
    decrypt toy_encrypt_block toy_decrypt_block toy_digest key17 2 ctext
      = Ok (lit "9 bytesss").
Proof.
  apply (decrypt_encrypt toy_encrypt_block toy_decrypt_block toy_digest
           toy_random_bytes
           toy_encrypt_block_len toy_decrypt_block_len toy_decrypt_encrypt
           toy_digest_len
           _AES128CTS key17 2 (lit "9 bytesss") (lit "CONFOUNDERconfou")).
  - reflexivity.
  - reflexivity.
  - unfold uint32. lia.
  - reflexivity.
Defined.

Lemma decrypt_too_short_iff_witness :
  decrypt toy_encrypt_block toy_decrypt_block toy_digest key17 2
          (lit "27 bytes are one too few...")
    = Raise (ValueError "ciphertext too short") /\
  decrypt toy_encrypt_block toy_decrypt_block toy_digest key17 2
          (lit "28 bytes are just enough ...")
    <> Raise (ValueError "ciphertext too short").
Proof.
  destruct (decrypt_too_short_iff toy_encrypt_block toy_decrypt_block
              toy_digest
              toy_encrypt_block_len toy_decrypt_block_len toy_digest_len
              _AES128CTS key17 2 (lit "27 bytes are one too few...")
              eq_refl) as (_ & _ & Hshort & _).
  destruct (decrypt_too_short_iff toy_encrypt_block toy_decrypt_block
              toy_digest
              toy_encrypt_block_len toy_decrypt_block_len toy_digest_len
              _AES128CTS key17 2 (lit "28 bytes are just enough ...")
              eq_refl) as (_ & _ & _ & Hlong).
  split.
  - apply Hshort; [left; reflexivity | unfold uint32; lia | reflexivity].
  - apply Hlong. vm_compute. discriminate.
Defined.

(** C5 as stated fails on a key of a supported enctype whose contents are no
    AES key: the empty ciphertext is below 28 bytes, yet the error is the
    cipher's key-size error, raised while the sub-keys are derived. *)
Lemma decrypt_too_short_counterexample :
  _get_enctype_profile (enctype (mkKey 17 (lit "abc"))) = Ok _AES128CTS /\
  len (@nil byte) < blocksize _AES128CTS + macsize _AES128CTS /\
  decrypt toy_encrypt_block toy_decrypt_block toy_digest
          (mkKey 17 (lit "abc")) 2 []
    = Raise (ValueError "AES key must be either 16, 24, or 32 bytes long").
Proof.
  split; [reflexivity|]. split; [reflexivity|]. vm_compute. reflexivity.
Qed.

Lemma decrypt_padding_unreachable_witness :
  decrypt toy_encrypt_block toy_decrypt_block toy_digest key18 7 (zeros 40)
    <> Raise (ValueError "ciphertext does not meet padding requirement") /\
  ((exists p, decrypt toy_encrypt_block toy_decrypt_block toy_digest
                      key18 7 (zeros 40) = Ok p) \/
   decrypt toy_encrypt_block toy_decrypt_block toy_digest key18 7 (zeros 40)
     = Raise (ValueError "ciphertext too short") \/
   decrypt toy_encrypt_block toy_decrypt_block toy_digest key18 7 (zeros 40)
     = Raise (ValueError "ciphertext integrity failure")).
Proof.
  destruct (decrypt_padding_unreachable toy_encrypt_block toy_decrypt_block
              toy_digest
              toy_encrypt_block_len toy_decrypt_block_len toy_digest_len
              _AES256CTS key18 7 (zeros 40) eq_refl) as (_ & Hpad & Hrest).
  split; [exact Hpad|].
  apply Hrest; [right; right; reflexivity | unfold uint32; lia].
Defined.

(** C9 as stated fails on a key of a supported enctype whose contents are no
    AES key: the error is neither "too short" nor the integrity failure. *)
Lemma decrypt_only_errors_counterexample :
  _get_enctype_profile (enctype (mkKey 18 (lit "abc"))) = Ok _AES256CTS /\
  decrypt toy_encrypt_block toy_decrypt_block toy_digest
          (mkKey 18 (lit "abc")) 7 (zeros 40)
    = Raise (ValueError "AES key must be either 16, 24, or 32 bytes long").
Proof.
  split; [reflexivity|]. vm_compute. reflexivity.
Qed.

(** ** The algorithm tag of a key *)

Section TagFacts.

Variable aes_encrypt_block : bytes -> bytes -> bytes.
Variable HMAC_digest : bytes -> bytes -> hashmodule -> bytes.
Variable PBKDF2 : bytes -> bytes -> Z -> Z -> (bytes -> bytes -> bytes) -> bytes.

Local Abbreviation derive := (_SimplifiedEnctype_derive aes_encrypt_block).

(** Only the contents of a key reach the cipher. *)
Lemma basic_encrypt_contents (k1 k2 : Key) (p : bytes) :
  contents k1 = contents k2 ->
  _AESEnctype_basic_encrypt aes_encrypt_block k1 p =
  _AESEnctype_basic_encrypt aes_encrypt_block k2 p.
Proof.
  intros H. unfold _AESEnctype_basic_encrypt. now rewrite H.
Qed.

Lemma derive_loop_contents (fuel : nat) (cls : EnctypeProfile) (k1 k2 : Key)
    (p seed : bytes) :
  contents k1 = contents k2 ->
  derive_loop aes_encrypt_block fuel cls k1 p seed =
  derive_loop aes_encrypt_block fuel cls k2 p seed.
Proof.
  intros H. revert p seed. induction fuel as [|fuel IH]; intros p seed;
    simpl; [reflexivity|].
  destruct (len seed <? seedsize cls); [|reflexivity].
  rewrite (basic_encrypt_contents k1 k2 p H).
  destruct (_AESEnctype_basic_encrypt aes_encrypt_block k2 p); simpl;
    [apply IH | reflexivity].
Qed.

Lemma derive_contents (cls : EnctypeProfile) (k1 k2 : Key) (c : bytes) :
  contents k1 = contents k2 -> derive cls k1 c = derive cls k2 c.
Proof.
  intros H. unfold _SimplifiedEnctype_derive.
  destruct (_nfold c (blocksize cls)); simpl; [|reflexivity].
  now rewrite (derive_loop_contents _ cls k1 k2 _ _ H).
Qed.

(** The tag [derive] puts on its result is the class attribute [enctype],
    which [_AESEnctype] sets to 18 for both of its subclasses; the tag of the
    base key plays no part. *)
Lemma derive_tag (cls : EnctypeProfile) (key k' : Key) (c : bytes) :
  supported cls -> derive cls key c = Ok k' ->
  enctype k' = Enctypenum.AES256_CTS.
Proof.
  intros Hcls. unfold _SimplifiedEnctype_derive. intros H.
  apply bind_Ok in H. destruct H as (p & _ & H).
  apply bind_Ok in H. destruct H as (seed & _ & H).
  injection H as <-. destruct Hcls; subst; reflexivity.
Qed.

Lemma random_to_key_tag (etype : Z) (seed : bytes) (k : Key) :
  random_to_key etype seed = Ok k -> enctype k = Enctypenum.AES256_CTS.
Proof.
  unfold random_to_key. intros H.
  apply bind_Ok in H. destruct H as (cls & Hprof & H).
  destruct (negb (len seed =? seedsize cls)); [discriminate|].
  injection H as <-.
  apply get_enctype_profile_supported in Hprof.
  destruct Hprof as [[_ ->] | [_ ->]]; reflexivity.
Qed.

(** C6: for a supported enctype, [string_to_key] is [derive], with the label
    "kerberos", of the key whose contents are PBKDF2 (HMAC-SHA1) of password
    and salt, [seedsize] bytes long, with the iteration count read from the
    four bytes of [params], or 4096 without [params].  The tag [t] given to
    that temporary key makes no difference. *)
Theorem string_to_key_spec (etype : Z) (cls : EnctypeProfile)
    (password salt : bytes) (params : option bytes) (t : Z) :
  _get_enctype_profile etype = Ok cls ->
  (forall p, params = Some p -> len p = 4) ->
  string_to_key aes_encrypt_block HMAC_digest PBKDF2
                etype password salt params =
  derive cls
         (mkKey t (PBKDF2 password salt (seedsize cls)
                          (iteration_count params)
                          (fun p s => HMAC_digest p s SHA)))
         (lit "kerberos").
Proof.
  intros Hprof Hparams. unfold string_to_key. rewrite Hprof. cbn [bind].
  unfold _AESEnctype_string_to_key.
  destruct params as [p|].
  - specialize (Hparams p eq_refl). unfold len in Hparams.
    destruct p as [|b3 [|b2 [|b1 [|b0 [|b4 p]]]]]; simpl in Hparams; try lia.
    cbn [unpack_L bind iteration_count be_uint fold_left].
    replace (ord b3 * 16777216 + ord b2 * 65536 + ord b1 * 256 + ord b0)
      with ((((0 * 256 + ord b3) * 256 + ord b2) * 256 + ord b1) * 256
            + ord b0) by lia.
    apply derive_contents. reflexivity.
  - cbn [unpack_L bind iteration_count].
    change (ord x00 * 16777216 + ord x00 * 65536 + ord x10 * 256 + ord x00)
      with 4096.
    apply derive_contents. reflexivity.
Qed.

(** C10: [make_checksum] and [verify_checksum] give the same result on two
    keys with the same contents, whatever their tags: the profile comes from
    [cksumtype] alone and only the contents of the key are used. *)
Theorem make_checksum_ignores_tag (cksumtype : Z) (k1 k2 : Key)
    (keyusage : Z) (text cksum : bytes) :
  contents k1 = contents k2 ->
  make_checksum aes_encrypt_block HMAC_digest cksumtype k1 keyusage text =
  make_checksum aes_encrypt_block HMAC_digest cksumtype k2 keyusage text /\
  verify_checksum aes_encrypt_block HMAC_digest
                  cksumtype k1 keyusage text cksum =
  verify_checksum aes_encrypt_block HMAC_digest
                  cksumtype k2 keyusage text cksum.
Proof.
  intros H.
  assert (C : forall cls,
             _SimplifiedChecksum_checksum aes_encrypt_block HMAC_digest
               cls k1 keyusage text =
             _SimplifiedChecksum_checksum aes_encrypt_block HMAC_digest
               cls k2 keyusage text).
  { intros cls. unfold _SimplifiedChecksum_checksum.
    destruct (pack_IB keyusage 153) as [c99|]; [|reflexivity].
    cbn [bind]. now rewrite (derive_contents (enc cls) k1 k2 c99 H). }
  unfold make_checksum, verify_checksum, _SimplifiedChecksum_verify.
  destruct (_get_checksum_profile cksumtype) as [c|]; [|auto].
  cbn [bind]. now rewrite C.
Qed.

End TagFacts.

Lemma string_to_key_spec_witness :
  string_to_key toy_encrypt_block toy_digest toy_PBKDF2
                17 (lit "password") (lit "ATHENA.MIT.EDUraeburn")
                (Some [x00; x00; x00; x02]) =
  _SimplifiedEnctype_derive toy_encrypt_block _AES128CTS
    (mkKey 17 (toy_PBKDF2 (lit "password") (lit "ATHENA.MIT.EDUraeburn")
                          16 2 (fun p s => toy_digest p s SHA)))
    (lit "kerberos").
Proof.
  apply (string_to_key_spec toy_encrypt_block toy_digest toy_PBKDF2
           17 _AES128CTS (lit "password") (lit "ATHENA.MIT.EDUraeburn")
           (Some [x00; x00; x00; x02]) 17).
  - reflexivity.
  - intros p [= <-]. reflexivity.
Defined.

Lemma make_checksum_ignores_tag_witness :
  make_checksum toy_encrypt_block toy_digest 16
                (mkKey 17 (contents key18)) 3 (lit "fourteen") =
  make_checksum toy_encrypt_block toy_digest 16 key18 3 (lit "fourteen") /\
  verify_checksum toy_encrypt_block toy_digest 16
                  (mkKey 17 (contents key18)) 3 (lit "fourteen") (zeros 12) =
  verify_checksum toy_encrypt_block toy_digest 16
                  key18 3 (lit "fourteen") (zeros 12).
Proof.
  apply (make_checksum_ignores_tag toy_encrypt_block toy_digest 16
           (mkKey 17 (contents key18)) key18 3 (lit "fourteen") (zeros 12)).
  reflexivity.
Defined.

(** C3 at its failing input: asked for a key of enctype 17, the public
    [random_to_key] returns one tagged 18, and [derive] under the AES128
    profile turns a base key tagged 17 into a key tagged 18. *)
Theorem random_to_key_aes128_tag :
  random_to_key Enctypenum.AES128_CTS (lit "0123456789abcdef") =
    Ok (mkKey Enctypenum.AES256_CTS (lit "0123456789abcdef")) /\
  enctype key17 = Enctypenum.AES128_CTS /\
  exists seed,
    _SimplifiedEnctype_derive toy_encrypt_block _AES128CTS key17
      (lit "label") = Ok (mkKey Enctypenum.AES256_CTS seed).
Proof.
  split; [reflexivity|]. split; [reflexivity|].
  eexists. vm_compute. reflexivity.
Qed.

(** ** spake.py: the shared point *)

Section GroupFacts.

Variable point : Type.
Variable ec : curve point.
Variable zero : point.
Hypothesis laws : group_laws ec zero.

Local Abbreviation add := (ec_add ec).
Local Abbreviation neg := (ec_neg ec).
Local Abbreviation mul := (ec_mul ec).

Lemma add_cancel_l (a c : point) : add (add a c) (neg a) = c.
Proof.
  rewrite (add_comm ec zero laws a c), <- (add_assoc ec zero laws).
  now rewrite (add_neg ec zero laws), (add_zero ec zero laws).
Qed.

Lemma add_cancel_r (a c : point) : add (add c a) (neg a) = c.
Proof.
  rewrite <- (add_assoc ec zero laws).
  now rewrite (add_neg ec zero laws), (add_zero ec zero laws).
Qed.

Lemma neg_unique (a c : point) : add a c = zero -> c = neg a.
Proof.
  intros H. rewrite <- (add_cancel_l a c), H.
  rewrite (add_comm ec zero laws). apply (add_zero ec zero laws).
Qed.

Lemma mul_pred (a : point) (n : Z) : mul a (n - 1) = add (mul a n) (neg a).
Proof.
  replace (mul a n) with (mul a (n - 1 + 1)) by (f_equal; lia).
  rewrite (mul_succ ec zero laws). symmetry. apply add_cancel_r.
Qed.

Lemma mul_add (a : point) (m n : Z) :
  mul a (m + n) = add (mul a m) (mul a n).
Proof.
  revert n. apply Z.peano_ind.
  - now rewrite Z.add_0_r, (mul_zero ec zero laws), (add_zero ec zero laws).
  - intros n IH. unfold Z.succ.
    rewrite Z.add_assoc, !(mul_succ ec zero laws), IH.
    symmetry. apply (add_assoc ec zero laws).
  - intros n IH. unfold Z.pred.
    replace (m + (n + -1)) with (m + n - 1) by lia.
    replace (n + -1) with (n - 1) by lia.
    rewrite !mul_pred, IH. symmetry. apply (add_assoc ec zero laws).
Qed.

Lemma mul_opp (a : point) (m : Z) : mul a (- m) = neg (mul a m).
Proof.
  apply neg_unique. rewrite <- mul_add.
  replace (m + - m) with 0 by lia. apply (mul_zero ec zero laws).
Qed.

Lemma mul_mul (a : point) (m n : Z) : mul (mul a m) n = mul a (m * n).
Proof.
  revert n. apply Z.peano_ind.
  - now rewrite Z.mul_0_r, !(mul_zero ec zero laws).
  - intros n IH. unfold Z.succ.
    rewrite (mul_succ ec zero laws), IH, <- mul_add. f_equal. lia.
  - intros n IH. unfold Z.pred.
    replace (n + -1) with (n - 1) by lia.
    rewrite mul_pred, IH, <- mul_opp, <- mul_add. f_equal. lia.
Qed.

(** C8: with [T = M*w + G*x] and [S = N*w + G*y], both ways of computing the
    shared point give [G] scaled by [x*y], so they agree, and the three
    assertions of [vectors] pass for every draw of the ephemeral scalars
    from a non-empty range. *)
Theorem shared_point_agrees (G M N : point) (w x y : Z) :
  let T := add (mul M w) (mul G x) in
  let S := add (mul N w) (mul G y) in
  mul (add S (neg (mul N w))) x = mul G (x * y) /\
  mul (add T (neg (mul M w))) y = mul G (x * y) /\
  forall order cofactor rx ry,
    0 < order -> x = rx * cofactor -> y = ry * cofactor ->
    vectors_points point ec order cofactor G M N w rx ry =
    Ok (x, y, mul G x, mul G y, T, S, mul G (x * y)).
Proof.
  intros T S. subst T S.
  rewrite !add_cancel_l, !mul_mul.
  replace (y * x) with (x * y) by lia.
  split; [reflexivity|]. split; [reflexivity|].
  intros order cofactor rx ry Ho -> ->. unfold vectors_points.
  replace (order <=? 0) with false by lia.
  rewrite !add_cancel_l, !mul_mul.
  replace (ry * cofactor * (rx * cofactor))
    with (rx * cofactor * (ry * cofactor)) by lia.
  assert (R : forall p, ec_eqb ec p p = true)
    by (intros p; now apply (eqb_eq ec zero laws)).
  rewrite R. reflexivity.
Qed.

End GroupFacts.

Lemma Zcurve_laws : group_laws Zcurve 0.
Proof.
  constructor; simpl; intros; lia.
Qed.

Lemma shared_point_agrees_witness :
  vectors_points Z Zcurve 101 8 3 5 7 4 11 13 =
  Ok (88, 104, 264, 312, 284, 340, 27456).
Proof.
  destruct (shared_point_agrees Z Zcurve 0 Zcurve_laws 3 5 7 4 88 104)
    as (_ & _ & H).
  exact (H 101 8 11 13 eq_refl eq_refl eq_refl).
Defined.

(** ** spake.py: the transcript checksum *)

Lemma updates_of_output (out : log) (l : string) (s : bytes) :
  updates_of (output out l s) =
  updates_of out ++ match update_of_label l with
                    | Some u => [u]
                    | None => []
                    end.
Proof.
  unfold updates_of, output. rewrite flat_map_app. simpl.
  now rewrite app_nil_r.
Qed.

Lemma logged_updates_output (out : log) (l : string) (s : bytes) :
  logged_updates (output out l s) =
  logged_updates out ++ match update_of_label l with
                        | Some u => [(u, s)]
                        | None => []
                        end.
Proof.
  unfold logged_updates, output. rewrite flat_map_app. simpl.
  now rewrite app_nil_r.
Qed.

Tactic Notation "inv_bind" hyp(H) "as" ident(a) ident(E) :=
  apply bind_Ok in H; destruct H as (a & E & H).

Ltac eval_labels :=
  rewrite ?updates_of_output, ?logged_updates_output;
  repeat match goal with
         | |- context [update_of_label ?l] =>
             let v := eval vm_compute in (update_of_label l) in
             change (update_of_label l) with v
         end.

Section SpakeFacts.

Variable aes_encrypt_block : bytes -> bytes -> bytes.
Variable HMAC_digest : bytes -> bytes -> hashmodule -> bytes.
Variable PBKDF2 : bytes -> bytes -> Z -> Z -> (bytes -> bytes -> bytes) -> bytes.
Variable prfplus : Key -> bytes -> Z -> bytes.
Variable crypto_seedsize : Z -> Z.
Variable make_support_encoding : Z -> bytes.
Variable make_challenge_encoding : Z -> bytes -> bytes.
Variable make_body_encoding : Z -> bytes.
Variable point : Type.

Local Abbreviation transcript :=
  (vectors_transcript aes_encrypt_block HMAC_digest
     make_support_encoding make_challenge_encoding).
Local Abbreviation update_cksum :=
  (update_checksum aes_encrypt_block HMAC_digest).

(** The transcript block appends to the log the updates expected from its
    arguments, and its checksum is the left fold of [update_checksum] over
    the corresponding messages, from a string of zero bytes. *)
Lemma vectors_transcript_spec (cksumtype gnum : Z) (k : Key)
    (Tbytes Sbytes : bytes) (skip_support : bool)
    (rejected_challenge : option bytes) (out0 out : log) (cksum : bytes) :
  transcript cksumtype gnum k Tbytes Sbytes skip_support rejected_challenge
             out0 = Ok (cksum, out) ->
  updates_of out =
    updates_of out0 ++ expected_updates skip_support rejected_challenge /\
  exists empty,
    make_checksum aes_encrypt_block HMAC_digest cksumtype k 0 [] = Ok empty /\
    fold_updates (update_cksum cksumtype k) (zeros (len empty))
      (expected_messages skip_support rejected_challenge
         (make_support_encoding gnum)
         (make_challenge_encoding gnum Tbytes) Sbytes) = Ok cksum.
Proof.
  unfold vectors_transcript, expected_updates, expected_messages. intros H.
  inv_bind H as empty Hempty.
  inv_bind H as st1 Hrej. destruct st1 as (c1, out1).
  inv_bind H as st2 Hsup. destruct st2 as (c2, out2).
  inv_bind H as c3 Hch. inv_bind H as c4 Hpub.
  injection H as <- <-.
  assert (H1 : updates_of out1 =
               updates_of out0
               ++ (if truthy rejected_challenge then [RejectedChallenge]
                   else []) /\
               fold_updates (update_cksum cksumtype k) (zeros (len empty))
                 match rejected_challenge with
                 | Some (x :: r) => [x :: r]
                 | _ => []
                 end = Ok c1).
  { destruct rejected_challenge as [[|x r]|]; cbn [truthy] in Hrej.
    - injection Hrej as <- <-. now rewrite app_nil_r.
    - inv_bind Hrej as c Hc. injection Hrej as <- <-. eval_labels.
      split; [now rewrite app_nil_r|].
      cbn [fold_updates]. rewrite Hc. reflexivity.
    - injection Hrej as <- <-. now rewrite app_nil_r. }
  destruct H1 as (U1 & F1).
  assert (H2 : updates_of out2 =
               updates_of out1 ++ (if skip_support then [] else [Support]) /\
               fold_updates (update_cksum cksumtype k) c1
                 (if skip_support then []
                  else [make_support_encoding gnum]) = Ok c2).
  { destruct skip_support; cbn [negb] in Hsup.
    - injection Hsup as <- <-. now rewrite app_nil_r.
    - inv_bind Hsup as c Hc. injection Hsup as <- <-. eval_labels.
      split; [now rewrite app_nil_r|].
      cbn [fold_updates]. rewrite Hc. reflexivity. }
  destruct H2 as (U2 & F2).
  split.
  - eval_labels. rewrite !app_nil_r, U2, U1, <- !app_assoc. reflexivity.
  - exists empty. split; [assumption|].
    assert (A : forall upd c ms ms' c',
               fold_updates upd c ms = Ok c' ->
               fold_updates upd c (ms ++ ms') = fold_updates upd c' ms').
    { intros upd c ms. revert c. induction ms as [|m ms IH]; intros c ms' c' F.
      - injection F as <-. reflexivity.
      - cbn [fold_updates app] in *. destruct (upd c m); [|discriminate].
        cbn [bind] in *. now apply IH. }
    rewrite (A _ _ _ _ _ F1), (A _ _ _ _ _ F2).
    cbn [fold_updates]. rewrite Hch. cbn [bind]. rewrite Hpub. reflexivity.
Qed.

(** The transcript block makes the expected updates one after the other,
    from a string of zero bytes, each on the message that belongs to it, and
    logs the checksum each one returns under the label of the update. *)
Lemma vectors_transcript_trace (cksumtype gnum : Z) (k : Key)
    (Tbytes Sbytes : bytes) (skip_support : bool)
    (rejected_challenge : option bytes) (out0 out : log) (cksum : bytes) :
  transcript cksumtype gnum k Tbytes Sbytes skip_support rejected_challenge
             out0 = Ok (cksum, out) ->
  exists empty tr,
    make_checksum aes_encrypt_block HMAC_digest cksumtype k 0 [] = Ok empty /\
    trace_updates (update_cksum cksumtype k) (zeros (len empty))
      (expected_steps skip_support rejected_challenge
         (make_support_encoding gnum)
         (make_challenge_encoding gnum Tbytes) Sbytes) = Ok tr /\
    logged_updates out = logged_updates out0 ++ tr.
Proof.
  unfold vectors_transcript. intros H.
  inv_bind H as empty Hempty.
  inv_bind H as st1 Hrej. destruct st1 as (c1, out1).
  inv_bind H as st2 Hsup. destruct st2 as (c2, out2).
  inv_bind H as c3 Hch. inv_bind H as c4 Hpub.
  injection H as <- <-. exists empty.
  assert (H1 : exists t1,
             trace_updates (update_cksum cksumtype k) (zeros (len empty))
               (combine
                  (if truthy rejected_challenge then [RejectedChallenge]
                   else [])
                  match rejected_challenge with
                  | Some (x :: r) => [x :: r]
                  | _ => []
                  end) = Ok t1 /\
             logged_updates out1 = logged_updates out0 ++ t1 /\
             forall rest t,
               trace_updates (update_cksum cksumtype k) c1 rest = Ok t ->
               trace_updates (update_cksum cksumtype k) (zeros (len empty))
                 (combine
                    (if truthy rejected_challenge then [RejectedChallenge]
                     else [])
                    match rejected_challenge with
                    | Some (x :: r) => [x :: r]
                    | _ => []
                    end ++ rest) = Ok (t1 ++ t)).
  { destruct rejected_challenge as [[|x r]|]; cbn [truthy] in Hrej |- *.
    - injection Hrej as <- <-. exists []. cbn [combine trace_updates app].
      rewrite app_nil_r. auto.
    - inv_bind Hrej as c Hc. injection Hrej as <- <-.
      exists [(RejectedChallenge, c)]. cbn [combine trace_updates app].
      rewrite Hc. cbn [bind]. split; [reflexivity|]. split.
      + eval_labels. now rewrite app_nil_r.
      + intros rest t Ht. rewrite Ht. reflexivity.
    - injection Hrej as <- <-. exists []. cbn [combine trace_updates app].
      rewrite app_nil_r. auto. }
  destruct H1 as (t1 & _ & L1 & F1).
  assert (H2 : exists t2,
             logged_updates out2 = logged_updates out1 ++ t2 /\
             forall rest t,
               trace_updates (update_cksum cksumtype k) c2 rest = Ok t ->
               trace_updates (update_cksum cksumtype k) c1
                 (combine (if skip_support then [] else [Support])
                          (if skip_support then []
                           else [make_support_encoding gnum]) ++ rest)
               = Ok (t2 ++ t)).
  { destruct skip_support; cbn [negb] in Hsup.
    - injection Hsup as <- <-. exists []. cbn [combine app].
      rewrite app_nil_r. auto.
    - inv_bind Hsup as c Hc. injection Hsup as <- <-.
      exists [(Support, c)]. cbn [combine trace_updates app]. split.
      + eval_labels. now rewrite app_nil_r.
      + intros rest t Ht. rewrite Hc. cbn [bind]. rewrite Ht. reflexivity. }
  destruct H2 as (t2 & L2 & F2).
  exists (t1 ++ t2 ++ [(Challenge, c3); (Pubkey, c4)]). split; [exact Hempty|].
  split.
  - unfold expected_steps, expected_updates, expected_messages.
    assert (C : forall (a b : list update) (x y : list bytes),
               length a = length x ->
               combine (a ++ b) (x ++ y) = combine a x ++ combine b y).
    { induction a as [|u a IH]; intros b [|m x] y Hl; simpl in Hl;
        try discriminate; [reflexivity|].
      cbn [app combine]. f_equal. apply IH. lia. }
    rewrite C by (destruct rejected_challenge as [[|x r]|]; reflexivity).
    rewrite C by (destruct skip_support; reflexivity).
    apply F1. apply F2. cbn [combine trace_updates].
    rewrite Hch. cbn [bind]. rewrite Hpub. reflexivity.
  - eval_labels. rewrite !app_nil_r, L2, L1, <- !app_assoc. reflexivity.
Qed.

(** C4, amended: in every run of [vectors] that completes, the transcript
    updates are, in this order: the rejected optimistic challenge when one
    is supplied (a non-empty byte string), the support message unless
    [skip_support] is set, then always the challenge and the peer's public
    point.  The opening assertion excludes a rejected challenge together with
    [skip_support], so the first two occur as (b) alone, as (a) then (b), or
    not at all.  The updates are made: from a string of zero bytes, each one
    replaces the running checksum by [update_checksum] of it and of its
    message, under the long-term key [k], and the checksums logged for the
    updates are the ones these calls return.  The messages are the rejected
    challenge, the encoded support message, the encoded challenge message
    with the point [T], and the encoded point [S]. *)
Theorem vectors_updates (etype cksumtype gnum : Z) (ec : curve point)
    (order cofactor wbytes : Z) (G M N : point) (skip_support : bool)
    (rejected_challenge : option bytes) (rx ry : Z) (out : log) :
  vectors aes_encrypt_block HMAC_digest PBKDF2 prfplus crypto_seedsize
          make_support_encoding make_challenge_encoding make_body_encoding
          point etype cksumtype gnum ec order cofactor wbytes G M N
          skip_support rejected_challenge rx ry = Ok out ->
  updates_of out = expected_updates skip_support rejected_challenge /\
  (skip_support = true -> truthy rejected_challenge = false) /\
  (updates_of out = [Support; Challenge; Pubkey] \/
   updates_of out = [RejectedChallenge; Support; Challenge; Pubkey] \/
   updates_of out = [Challenge; Pubkey]) /\
  exists k g4 empty,
    string_to_key aes_encrypt_block HMAC_digest PBKDF2 etype
      (lit "password") (lit "ATHENA.MIT.EDUraeburn") None = Ok k /\
    pack_I gnum = Ok g4 /\
    make_checksum aes_encrypt_block HMAC_digest cksumtype k 0 [] = Ok empty /\
    let w := ec_decode_int ec (prfplus k (lit "SPAKEsecret" ++ g4) wbytes)
             mod order in
    let T := ec_add ec (ec_mul ec M w) (ec_mul ec G (rx * cofactor)) in
    let S_ := ec_add ec (ec_mul ec N w) (ec_mul ec G (ry * cofactor)) in
    trace_updates (update_cksum cksumtype k) (zeros (len empty))
      (expected_steps skip_support rejected_challenge
         (make_support_encoding gnum)
         (make_challenge_encoding gnum (ec_encode_point ec T))
         (ec_encode_point ec S_))
    = Ok (logged_updates out).
Proof.
  unfold vectors. intros H.
  destruct (negb skip_support || negb (truthy rejected_challenge)) eqn:A;
    [|discriminate].
  inv_bind H as k Hk. inv_bind H as g4 Hg4. inv_bind H as w Hw.
  inv_bind H as pts Hpts.
  destruct pts as [[[[[[x y] X] Y] T] S_] K].
  inv_bind H as st Ht. destruct st as (cksum, out1).
  inv_bind H as K0 HK0. inv_bind H as K1 HK1.
  inv_bind H as K2 HK2. inv_bind H as K3 HK3.
  injection H as <-.
  pose proof Ht as Htr.
  apply vectors_transcript_spec in Ht. destruct Ht as (U & _).
  assert (Hupd : updates_of
                   (output (output (output (output (output out1
                      "KDC-REQ-BODY: " (make_body_encoding etype))
                      "K'[0]: " (contents K0)) "K'[1]: " (contents K1))
                      "K'[2]: " (contents K2)) "K'[3]: " (contents K3))
                 = expected_updates skip_support rejected_challenge).
  { eval_labels. rewrite !app_nil_r, U. eval_labels.
    now rewrite !app_nil_r. }
  assert (Hex : skip_support = true -> truthy rejected_challenge = false).
  { intros ->. destruct (truthy rejected_challenge); [discriminate|reflexivity]. }
  split; [exact Hupd|]. split; [exact Hex|]. split.
  { rewrite Hupd. unfold expected_updates.
    destruct skip_support.
    - rewrite (Hex eq_refl). auto.
    - destruct (truthy rejected_challenge); auto. }
  apply vectors_transcript_trace in Htr.
  destruct Htr as (empty & tr & Hempty & Htrace & Hlog).
  exists k, g4, empty. split; [exact Hk|]. split; [exact Hg4|].
  split; [exact Hempty|]. cbv zeta.
  unfold pymod in Hw. destruct (order =? 0); [discriminate|].
  injection Hw as <-.
  unfold vectors_points in Hpts.
  destruct (order <=? 0); [discriminate|].
  repeat match type of Hpts with
         | (if ?c then _ else _) = _ => destruct c; [|discriminate]
         end.
  injection Hpts as <- <- <- <- <- <- <-.
  transitivity (Ok tr); [exact Htrace|]. f_equal.
  eval_labels. rewrite !app_nil_r, Hlog. eval_labels.
  now rewrite !app_nil_r.
Qed.

End SpakeFacts.

Lemma toy_run_default : toy_vectors false None = Ok toy_log_default.
Proof. vm_compute. reflexivity. Qed.

Lemma vectors_updates_witness :
  exists out,
    toy_vectors false None = Ok out /\
    updates_of out = [Support; Challenge; Pubkey] /\
    exists k g4 empty,
      string_to_key toy_encrypt_block toy_digest toy_PBKDF2 18
        (lit "password") (lit "ATHENA.MIT.EDUraeburn") None = Ok k /\
      pack_I 1 = Ok g4 /\
      make_checksum toy_encrypt_block toy_digest 16 k 0 [] = Ok empty /\
      trace_updates
        (update_checksum toy_encrypt_block toy_digest 16 k)
        (zeros (len empty))
        (expected_steps false None (toy_support_encoding 1)
           (toy_challenge_encoding 1
              (ec_encode_point Zcurve
                 (5 * (be_uint (toy_prfplus k (lit "SPAKEsecret" ++ g4) 32)
                       mod 101) + 3 * (11 * 1))))
           (ec_encode_point Zcurve
              (7 * (be_uint (toy_prfplus k (lit "SPAKEsecret" ++ g4) 32)
                    mod 101) + 3 * (13 * 1))))
      = Ok (logged_updates out).
Proof.
  destruct (vectors_updates
              toy_encrypt_block toy_digest toy_PBKDF2 toy_prfplus
              toy_seedsize toy_support_encoding toy_challenge_encoding
              toy_body_encoding
              Z 18 16 1 Zcurve 101 1 32 3 5 7 false None 11 13 _
              toy_run_default) as (H1 & _ & _ & H4).
  exists toy_log_default. split; [exact toy_run_default|].
  split; [exact H1 | exact H4].
Defined.

(** C4 as stated fails: a run with a rejected optimistic challenge makes
    both initial updates, (a) then (b), and a run with [skip_support] makes
    neither.  The first is the last call of the script, the second its call
    "with accepted optimistic challenge". *)
Lemma vectors_updates_counterexample :
  (exists out,
     toy_vectors false (Some (lit "optimistic challenge")) = Ok out /\
     updates_of out = [RejectedChallenge; Support; Challenge; Pubkey]) /\
  (exists out,
     toy_vectors true None = Ok out /\
     updates_of out = [Challenge; Pubkey]).
Proof.
  split; eexists; (split; [vm_compute; reflexivity|]); vm_compute;
    reflexivity.
Qed.

(* ================================================================== *)
(** * Further facts about the helpers of crypto.py *)

(** X1: for a positive pad size, [_zeropad] appends fewer than [padsize]
    zero bytes and reaches a multiple of [padsize]; a string already on the
    boundary is returned as it is. *)
Theorem zeropad_spec (s : bytes) (padsize : Z) :
  0 < padsize ->
  exists k,
    _zeropad s padsize = Ok (s ++ zeros k) /\
    0 <= k < padsize /\
    len (s ++ zeros k) mod padsize = 0 /\
    (len s mod padsize = 0 -> s ++ zeros k = s).
Proof.
  intros Hp. unfold _zeropad, pymod.
  replace (padsize =? 0) with false by lia. cbn [bind].
  set (k := (padsize - len s mod padsize) mod padsize).
  pose proof (Z.mod_pos_bound (len s) padsize Hp) as Hr.
  pose proof (Z.mod_pos_bound (padsize - len s mod padsize) padsize Hp) as Hk.
  fold k in Hk. exists k. split; [reflexivity|]. split; [exact Hk|]. split.
  - rewrite len_app, len_zeros by lia. unfold k.
    rewrite Zplus_mod_idemp_r.
    replace (len s + (padsize - len s mod padsize))
      with (len s - len s mod padsize + 1 * padsize) by lia.
    rewrite Z.mod_add by lia.
    rewrite Zminus_mod_idemp_r, Z.sub_diag. apply Z.mod_0_l. lia.
  - intros H0. unfold k. rewrite H0, Z.sub_0_r, Z.mod_same by lia.
    apply app_nil_r.
Qed.

Lemma zeropad_spec_witness :
  exists k,
    _zeropad (lit "9 bytesss") 16 = Ok (lit "9 bytesss" ++ zeros k) /\
    0 <= k < 16 /\
    len (lit "9 bytesss" ++ zeros k) mod 16 = 0 /\
    (len (lit "9 bytesss") mod 16 = 0 ->
     lit "9 bytesss" ++ zeros k = lit "9 bytesss").
Proof.
  apply (zeropad_spec (lit "9 bytesss") 16). lia.
Defined.

(** X2: [_xorbytes] refuses strings of different lengths with an assertion
    error; on strings of one length it keeps the length, and xoring the
    result with the same mask again gives the first string back. *)
Theorem xorbytes_involutive (p q : bytes) :
  (len p <> len q -> _xorbytes p q = Raise AssertionError) /\
  (len p = len q ->
   exists r, _xorbytes p q = Ok r /\ len r = len p /\ _xorbytes r q = Ok p).
Proof.
  split.
  - intros H. unfold _xorbytes.
    replace (len p =? len q) with false by lia. reflexivity.
  - intros H. exists (xor_block p q).
    split; [now apply xorbytes_eq|].
    split; [now apply len_xor_block|].
    rewrite xorbytes_eq by (rewrite len_xor_block; assumption).
    now rewrite xor_block_cancel.
Qed.

Lemma xorbytes_involutive_witness :
  _xorbytes (lit "abc") (lit "de") = Raise AssertionError /\
  exists r, _xorbytes (lit "abc") (lit "xyz") = Ok r /\
            len r = len (lit "abc") /\ _xorbytes r (lit "xyz") = Ok (lit "abc").
Proof.
  destruct (xorbytes_involutive (lit "abc") (lit "de")) as (H1 & _).
  destruct (xorbytes_involutive (lit "abc") (lit "xyz")) as (_ & H2).
  split; [apply H1; vm_compute; discriminate | apply H2; reflexivity].
Defined.

(** X3: [_mac_equal] refuses MACs of different lengths with an assertion
    error; on MACs of one length it answers [True] exactly when they are the
    same string. *)
Theorem mac_equal_iff (mac1 mac2 : bytes) :
  (len mac1 <> len mac2 -> _mac_equal mac1 mac2 = Raise AssertionError) /\
  (len mac1 = len mac2 ->
   exists same, _mac_equal mac1 mac2 = Ok same /\
                (same = true <-> mac1 = mac2)).
Proof.
  split.
  - intros H. unfold _mac_equal.
    replace (len mac1 =? len mac2) with false by lia. reflexivity.
  - apply mac_equal_decides.
Qed.

Lemma mac_equal_iff_witness :
  _mac_equal (lit "abcd") (lit "abc") = Raise AssertionError /\
  exists same, _mac_equal (lit "abcd") (lit "abce") = Ok same /\
               (same = true <-> lit "abcd" = lit "abce").
Proof.
  destruct (mac_equal_iff (lit "abcd") (lit "abc")) as (H1 & _).
  destruct (mac_equal_iff (lit "abcd") (lit "abce")) as (_ & H2).
  split; [apply H1; vm_compute; discriminate | apply H2; reflexivity].
Defined.

(** ** [_nfold]: rotation, ones' complement addition, output size *)

(** X4: [rotate_right] raises [ZeroDivisionError] on the empty string; on
    any other string it keeps the length, and the rotation wraps within the
    string: [8 * len(str)] more bits give the same result. *)
Theorem rotate_right_periodic (s : bytes) (nbits : Z) :
  (s = [] -> rotate_right s nbits = Raise ZeroDivisionError) /\
  (s <> [] ->
   exists r, rotate_right s nbits = Ok r /\ len r = len s /\
             rotate_right s (nbits + 8 * len s) = Ok r).
Proof.
  split.
  - intros ->. reflexivity.
  - intros Hs. destruct (rotate_right_defined s nbits Hs) as (r & Hr & Lr).
    exists r. split; [assumption|]. split; [assumption|].
    rewrite <- Hr. unfold rotate_right.
    assert (Hn : 0 < len s).
    { destruct s; [congruence | unfold len; simpl; lia]. }
    replace (nbits + 8 * len s) with (nbits + len s * 8) by lia.
    rewrite Z.div_add, Z.mod_add by lia.
    unfold pymod. replace (len s =? 0) with false by lia.
    replace ((nbits / 8 + len s) mod len s) with ((nbits / 8) mod len s)
      by (rewrite <- (Z.mod_add (nbits / 8) 1 (len s)) by lia; f_equal; lia).
    reflexivity.
Qed.

Lemma rotate_right_periodic_witness :
  exists r, rotate_right (lit "kerberos") 13 = Ok r /\
            len r = len (lit "kerberos") /\
            rotate_right (lit "kerberos") (13 + 8 * len (lit "kerberos"))
              = Ok r.
Proof.
  destruct (rotate_right_periodic (lit "kerberos") 13) as (_ & H).
  apply H. discriminate.
Defined.

Lemma dv_acc (v : list Z) (a : Z) :
  fold_left (fun acc x => acc * 256 + x) v a =
  a * 256 ^ len v + digits_value v.
Proof.
  unfold digits_value. revert a. induction v as [|x v IH]; intros a.
  - simpl. change (len (@nil Z)) with 0. lia.
  - cbn [fold_left]. rewrite IH, (IH (0 * 256 + x)).
    replace (len (x :: v)) with (len v + 1) by (unfold len; simpl; lia).
    rewrite Z.pow_add_r by (pose proof (len_nonneg v); lia). lia.
Qed.

Lemma dv_add {A} (f g : A -> Z) (l : list A) (a c : Z) :
  fold_left (fun acc x => acc * 256 + x) (map (fun i => f i + g i) l) (a + c)
  = fold_left (fun acc x => acc * 256 + x) (map f l) a
    + fold_left (fun acc x => acc * 256 + x) (map g l) c.
Proof.
  revert a c. induction l as [|x l IH]; intros a c; [reflexivity|].
  cbn [map fold_left]. rewrite <- IH. f_equal. lia.
Qed.

Lemma dv_split (v : list Z) (a c : Z) :
  fold_left (fun acc x => acc * 256 + x) v (256 * a + c)
  = 256 * fold_left (fun acc x => acc * 256 + x)
                    (map (fun x => Z.shiftr x 8) v) a
    + fold_left (fun acc x => acc * 256 + x)
                (map (fun x => Z.land x 255) v) c.
Proof.
  revert a c. induction v as [|x v IH]; intros a c; [reflexivity|].
  cbn [map fold_left]. rewrite <- IH. f_equal.
  pose proof (split_byte x). lia.
Qed.

(** One pass of the carry loop changes the value by a multiple of
    [256^n - 1]: the carry out of the first byte re-enters at the last. *)
Lemma carry_step_value (v : list Z) :
  v <> [] ->
  digits_value v =
  digits_value (map (fun i => Z.shiftr (znth 0 v ((i + 1) mod len v)) 8
                              + Z.land (znth 0 v i) 255)
                    (xrange (len v)))
  + Z.shiftr (hd 0 v) 8 * (256 ^ len v - 1).
Proof.
  intros Hv. unfold digits_value at 2.
  change 0 with (0 + 0) at 3.
  rewrite (dv_add (fun i => Z.shiftr (znth 0 v ((i + 1) mod len v)) 8)
                  (fun i => Z.land (znth 0 v i) 255)).
  rewrite <- (map_map (znth 0 v) (fun x => Z.land x 255)), map_znth_xrange.
  destruct v as [|a r]; [congruence|]. cbn [hd].
  rewrite <- (map_map (fun i => znth 0 (a :: r) ((i + 1) mod len (a :: r)))
                      (fun x => Z.shiftr x 8)).
  rewrite map_znth_rot, map_app, fold_left_app. cbn [map fold_left].
  unfold digits_value at 1. change 0 with (256 * 0 + 0) at 1.
  rewrite dv_split. cbn [map fold_left].
  rewrite (dv_acc _ (0 * 256 + Z.shiftr a 8)).
  replace (len (a :: r)) with (len r + 1) by (unfold len; simpl; lia).
  rewrite Z.pow_add_r by (pose proof (len_nonneg r); lia).
  replace (len (map (fun x => Z.shiftr x 8) r)) with (len r)
    by (unfold len; now rewrite length_map).
  unfold digits_value. lia.
Qed.

Lemma carry_loop_value (fuel : nat) (v v' : list Z) :
  carry_loop fuel (len v) v = Ok v' ->
  (256 ^ len v - 1 | digits_value v - digits_value v').
Proof.
  revert v. induction fuel as [|fuel IH]; intros v; simpl.
  - destruct (has_carry v); [discriminate|]. intros [= <-].
    rewrite Z.sub_diag. apply Z.divide_0_r.
  - destruct (has_carry v) eqn:C.
    + assert (Hne : v <> []) by (intros ->; discriminate).
      rewrite carry_step_eq by assumption. cbn [bind].
      set (v1 := map _ (xrange (len v))).
      assert (L1 : len v1 = len v).
      { unfold v1, len. rewrite length_map, length_xrange. lia. }
      intros H. rewrite <- L1 in H. apply IH in H. rewrite L1 in H.
      pose proof (carry_step_value v Hne) as S. fold v1 in S.
      destruct H as (q & Hq).
      exists (q + Z.shiftr (hd 0 v) 8). lia.
    + intros [= <-]. rewrite Z.sub_diag. apply Z.divide_0_r.
Qed.

Lemma dv_combine (p q : bytes) (a c : Z) :
  length p = length q ->
  fold_left (fun acc x => acc * 256 + x)
            (map (fun '(x, y) => ord x + ord y) (combine p q)) (a + c)
  = fold_left (fun acc x => acc * 256 + ord x) p a
    + fold_left (fun acc x => acc * 256 + ord x) q c.
Proof.
  revert q a c. induction p as [|x p IH]; intros [|y q] a c H; simpl in H;
    try discriminate; [reflexivity|].
  cbn [combine map fold_left]. rewrite <- IH by lia. f_equal. lia.
Qed.

Lemma dv_bytes (v : list Z) (a : Z) :
  Forall (fun x => 0 <= x < 256) v ->
  fold_left (fun acc x => acc * 256 + ord x) (map byte_of_Z v) a
  = fold_left (fun acc x => acc * 256 + x) v a.
Proof.
  intros F. revert a. induction F as [|x v Hx F IH]; intros a; [reflexivity|].
  cbn [map fold_left]. rewrite ord_byte_of_Z by assumption. apply IH.
Qed.

(** X5: on two strings of one length [n], [add_ones_complement] returns a
    string of length [n] whose big-endian value differs from the sum of the
    two values by a multiple of [256^n - 1]: ones' complement addition with
    end-around carry. *)
Theorem add_ones_complement_value (str1 str2 : bytes) :
  len str1 = len str2 ->
  exists r,
    add_ones_complement str1 str2 = Ok r /\
    len r = len str1 /\
    (256 ^ len str1 - 1 | be_uint str1 + be_uint str2 - be_uint r).
Proof.
  intros H. unfold add_ones_complement.
  set (v := map _ (combine str1 str2)).
  assert (Lv : len v = len str1).
  { unfold v, len in *. rewrite length_map, length_combine. lia. }
  assert (Nv : Forall (fun x => 0 <= x) v).
  { unfold v. apply Forall_map, Forall_forall. intros [x y] _.
    pose proof (ord_range x). pose proof (ord_range y). lia. }
  destruct (carry_loop_defined (Z.to_nat (sumZ v)) v Nv (le_n _))
    as (v' & E & L & F).
  pose proof (carry_loop_value _ _ _ E) as V.
  rewrite <- Lv, E. cbn [bind].
  rewrite (mapM_map chr byte_of_Z)
    by (intros x Hx; rewrite Forall_forall in F; apply chr_ok; now apply F).
  eexists. split; [reflexivity|]. split.
  - unfold len in *. rewrite length_map. lia.
  - unfold be_uint. rewrite dv_bytes by assumption.
    replace (fold_left (fun acc x => acc * 256 + ord x) str1 0
             + fold_left (fun acc x => acc * 256 + ord x) str2 0)
      with (digits_value v); [exact V|].
    unfold digits_value, v. change 0 with (0 + 0) at 1.
    apply dv_combine. unfold len in H. lia.
Qed.

Lemma add_ones_complement_value_witness :
  exists r,
    add_ones_complement [xff; xfe] [x01; x03] = Ok r /\
    len r = len [xff; xfe] /\
    (256 ^ len [xff; xfe] - 1 | be_uint [xff; xfe] + be_uint [x01; x03]
                                - be_uint r).
Proof.
  apply (add_ones_complement_value [xff; xfe] [x01; x03]). reflexivity.
Defined.

(** X6: [_nfold] raises [ZeroDivisionError] on the empty string and the
    [xrange] step error for a target size of zero; for a non-empty string
    and a positive size it returns a string of exactly that size. *)
Theorem nfold_length (s : bytes) (nbytes : Z) :
  (s = [] -> _nfold s nbytes = Raise ZeroDivisionError) /\
  (s <> [] -> nbytes = 0 ->
   _nfold s nbytes = Raise (ValueError "xrange() arg 3 must not be zero")) /\
  (s <> [] -> 0 < nbytes ->
   exists r, _nfold s nbytes = Ok r /\ len r = nbytes).
Proof.
  split; [|split].
  - intros ->. unfold _nfold, gcd, pydiv. change (len (@nil byte)) with 0.
    cbn [Z.eqb]. rewrite Z.mul_0_r.
    destruct (nbytes =? 0); [reflexivity|]. reflexivity.
  - intros Hs ->. unfold _nfold.
    assert (Hn : 0 < len s).
    { destruct s; [congruence | unfold len; simpl; lia]. }
    assert (Hg : gcd 0 (len s) = len s).
    { unfold gcd. replace (len s =? 0) with false by lia.
      rewrite Z.sgn_pos, Z.gcd_0_l, Z.abs_eq by lia. lia. }
    rewrite Hg. unfold pydiv. replace (len s =? 0) with false by lia.
    cbn [bind]. rewrite Z.mul_0_l, !Z.div_0_l by lia. reflexivity.
  - apply nfold_defined.
Qed.

Lemma nfold_length_witness :
  exists r, _nfold (lit "kerberos") 21 = Ok r /\ len r = 21.
Proof.
  destruct (nfold_length (lit "kerberos") 21) as (_ & _ & H).
  apply H; [discriminate | lia].
Defined.

(** ** The module-level functions: tags, seeds and parameters *)

Lemma get_enctype_profile_unsupported (etype : Z) :
  etype <> 17 -> etype <> 18 ->
  _get_enctype_profile etype =
  Raise (ValueError (fmt_d "Invalid enctype " etype)).
Proof.
  intros H17 H18. unfold _get_enctype_profile, _enctype_table. cbn [lookup].
  unfold Enctypenum.AES128_CTS, Enctypenum.AES256_CTS.
  replace (etype =? 17) with false by lia.
  replace (etype =? 18) with false by lia. reflexivity.
Qed.

Lemma get_checksum_profile_cases (cksumtype : Z) :
  (cksumtype = 15 /\ _get_checksum_profile cksumtype = Ok _SHA1AES128) \/
  (cksumtype = 16 /\ _get_checksum_profile cksumtype = Ok _SHA1AES256) \/
  (cksumtype <> 15 /\ cksumtype <> 16 /\
   _get_checksum_profile cksumtype =
   Raise (ValueError (fmt_d "Invalid cksumtype " cksumtype))).
Proof.
  unfold _get_checksum_profile, _checksum_table. cbn [lookup].
  unfold Checksumtypenum.SHA1_AES128, Checksumtypenum.SHA1_AES256.
  destruct (Z.eqb_spec cksumtype 15); [left; subst; auto|].
  destruct (Z.eqb_spec cksumtype 16); [right; left; subst; auto|].
  right. right. auto.
Qed.

(** X7: [random_to_key] raises "Invalid enctype" for a tag other than 17 and
    18, and "Wrong crypto seed length" for a seed that has not the seed size
    of the profile (16 bytes for 17, 32 for 18); otherwise it returns a key
    holding exactly the seed. *)
Theorem random_to_key_spec (etype : Z) (seed : bytes) :
  (etype <> 17 -> etype <> 18 ->
   random_to_key etype seed =
   Raise (ValueError (fmt_d "Invalid enctype " etype))) /\
  (forall cls, _get_enctype_profile etype = Ok cls ->
               len seed <> seedsize cls ->
               random_to_key etype seed =
               Raise (ValueError "Wrong crypto seed length")) /\
  (forall cls, _get_enctype_profile etype = Ok cls ->
               len seed = seedsize cls ->
               exists k, random_to_key etype seed = Ok k /\
                         contents k = seed /\
                         len (contents k) = if etype =? 17 then 16 else 32).
Proof.
  unfold random_to_key. split; [|split].
  - intros H17 H18. now rewrite get_enctype_profile_unsupported.
  - intros cls Hp Hl. rewrite Hp. cbn [bind].
    replace (len seed =? seedsize cls) with false by lia. reflexivity.
  - intros cls Hp Hl. rewrite Hp. cbn [bind].
    replace (len seed =? seedsize cls) with true by lia. cbn [negb].
    eexists. split; [reflexivity|]. split; [reflexivity|].
    cbn [contents _Enctype_random_to_key]. rewrite Hl.
    apply get_enctype_profile_supported in Hp.
    destruct Hp as [[-> ->] | [-> ->]]; reflexivity.
Qed.

Lemma random_to_key_spec_witness :
  random_to_key 23 (zeros 16) = Raise (ValueError "Invalid enctype 23") /\
  random_to_key 17 (zeros 32) = Raise (ValueError "Wrong crypto seed length") /\
  exists k, random_to_key 18 (zeros 32) = Ok k /\ contents k = zeros 32 /\
            len (contents k) = 32.
Proof.
  destruct (random_to_key_spec 23 (zeros 16)) as (H1 & _ & _).
  destruct (random_to_key_spec 17 (zeros 32)) as (_ & H2 & _).
  destruct (random_to_key_spec 18 (zeros 32)) as (_ & _ & H3).
  split; [apply H1; lia|]. split.
  - apply (H2 _AES128CTS); [reflexivity | vm_compute; discriminate].
  - apply (H3 _AES256CTS); reflexivity.
Defined.

Section ApiFacts.

Variable aes_encrypt_block : bytes -> bytes -> bytes.
Variable aes_decrypt_block : bytes -> bytes -> bytes.
Variable HMAC_digest : bytes -> bytes -> hashmodule -> bytes.
Variable PBKDF2 : bytes -> bytes -> Z -> Z -> (bytes -> bytes -> bytes) -> bytes.
Variable get_random_bytes : Z -> bytes.

(** X8: a key whose tag is neither 17 nor 18 is refused by [encrypt] and
    [decrypt] with "Invalid enctype", and so is such a tag by
    [string_to_key]; a checksum type other than 15 and 16 is refused by
    [make_checksum] and [verify_checksum] with "Invalid cksumtype".  The
    other arguments are not looked at. *)
Theorem unsupported_tags (tag : Z) (key : Key) (keyusage : Z)
    (s t : bytes) (confounder params : option bytes) :
  (tag <> 17 -> tag <> 18 ->
   let bad := Raise (ValueError (fmt_d "Invalid enctype " tag)) in
   string_to_key aes_encrypt_block HMAC_digest PBKDF2 tag s t params
     = Raise (ValueError (fmt_d "Invalid enctype " tag)) /\
   encrypt aes_encrypt_block HMAC_digest get_random_bytes
           (mkKey tag (contents key)) keyusage s confounder = bad /\
   decrypt aes_encrypt_block aes_decrypt_block HMAC_digest
           (mkKey tag (contents key)) keyusage s = bad) /\
  (tag <> 15 -> tag <> 16 ->
   make_checksum aes_encrypt_block HMAC_digest tag key keyusage s
     = Raise (ValueError (fmt_d "Invalid cksumtype " tag)) /\
   verify_checksum aes_encrypt_block HMAC_digest tag key keyusage s t
     = Raise (ValueError (fmt_d "Invalid cksumtype " tag))).
Proof.
  split.
  - intros H17 H18 bad. subst bad.
    unfold string_to_key, encrypt, decrypt. cbn [enctype].
    rewrite get_enctype_profile_unsupported by assumption. auto.
  - intros H15 H16. unfold make_checksum, verify_checksum.
    destruct (get_checksum_profile_cases tag)
      as [(E & _) | [(E & _) | (_ & _ & ->)]]; [lia | lia | auto].
Qed.

(** X9: for a supported enctype, [string_to_key] takes the default
    iteration count for an empty [params] string as it does without
    [params], and raises the [struct] error for a [params] string of any
    other length than 4. *)
Theorem string_to_key_params (etype : Z) (cls : EnctypeProfile)
    (password salt : bytes) :
  _get_enctype_profile etype = Ok cls ->
  string_to_key aes_encrypt_block HMAC_digest PBKDF2
                etype password salt (Some []) =
  string_to_key aes_encrypt_block HMAC_digest PBKDF2
                etype password salt None /\
  forall p, p <> [] -> len p <> 4 ->
    string_to_key aes_encrypt_block HMAC_digest PBKDF2
                  etype password salt (Some p) = Raise StructError.
Proof.
  intros Hp. unfold string_to_key. rewrite Hp. cbn [bind].
  split; [reflexivity|].
  intros p Hne Hl. unfold _AESEnctype_string_to_key.
  destruct p as [|b3 [|b2 [|b1 [|b0 [|b4 p]]]]]; try reflexivity;
    [congruence | unfold len in Hl; simpl in Hl; lia].
Qed.

End ApiFacts.

Lemma unsupported_tags_witness :
  decrypt toy_encrypt_block toy_decrypt_block toy_digest
          (mkKey 23 (contents key17)) 2 (zeros 40)
    = Raise (ValueError "Invalid enctype 23") /\
  make_checksum toy_encrypt_block toy_digest 9 key17 2 (lit "text")
    = Raise (ValueError "Invalid cksumtype 9").
Proof.
  destruct (unsupported_tags toy_encrypt_block toy_decrypt_block toy_digest
              toy_PBKDF2 toy_random_bytes 23 key17 2 (zeros 40) []
              None None) as (H1 & _).
  destruct (unsupported_tags toy_encrypt_block toy_decrypt_block toy_digest
              toy_PBKDF2 toy_random_bytes 9 key17 2 (lit "text") []
              None None) as (_ & H2).
  split.
  - apply H1; lia.
  - apply H2; lia.
Defined.

Lemma string_to_key_params_witness :
  string_to_key toy_encrypt_block toy_digest toy_PBKDF2
                18 (lit "password") (lit "salt") (Some []) =
  string_to_key toy_encrypt_block toy_digest toy_PBKDF2
                18 (lit "password") (lit "salt") None /\
  forall p, p <> [] -> len p <> 4 ->
    string_to_key toy_encrypt_block toy_digest toy_PBKDF2
                  18 (lit "password") (lit "salt") (Some p)
    = Raise StructError.
Proof.
  apply (string_to_key_params toy_encrypt_block toy_digest toy_PBKDF2
           18 _AES256CTS (lit "password") (lit "salt")).
  reflexivity.
Defined.

(** ** Instances of the further facts on encryption and checksums *)

Lemma toy_encrypt_decrypt (k blk : bytes) :
  aes_key k -> is_block blk ->
  toy_encrypt_block k (toy_decrypt_block k blk) = blk.
Proof.
  intros Hk Hb. pose proof (len_firstn16_key k Hk) as L.
  unfold toy_decrypt_block, toy_encrypt_block.
  rewrite xor_block_cancel; [apply rev_involutive|].
  unfold is_block, len in *. rewrite length_rev. congruence.
Qed.

Lemma cts_keeps_length_witness :
  (_AESEnctype_basic_encrypt toy_encrypt_block key17 (lit "too short")
     = Raise AssertionError /\
   _AESEnctype_basic_decrypt toy_decrypt_block key17 (lit "too short")
     = Raise AssertionError) /\
  exists c p,
    _AESEnctype_basic_encrypt toy_encrypt_block key17
      (lit "seventeen bytes!!") = Ok c /\
    len c = len (lit "seventeen bytes!!") /\
    _AESEnctype_basic_decrypt toy_decrypt_block key17
      (lit "seventeen bytes!!") = Ok p /\
    len p = len (lit "seventeen bytes!!").
Proof.
  split.
  - apply (cts_keeps_length toy_encrypt_block toy_decrypt_block
             toy_encrypt_block_len toy_decrypt_block_len toy_decrypt_encrypt
             key17 (lit "too short")).
    vm_compute. reflexivity.
  - apply (cts_keeps_length toy_encrypt_block toy_decrypt_block
             toy_encrypt_block_len toy_decrypt_block_len toy_decrypt_encrypt
             key17 (lit "seventeen bytes!!")).
    + vm_compute. discriminate.
    + left. reflexivity.
Defined.

Lemma basic_encrypt_decrypt_witness :
  (ptext <- _AESEnctype_basic_decrypt toy_decrypt_block key17
              (lit "any 23 bytes whatsoever") ;;
   _AESEnctype_basic_encrypt toy_encrypt_block key17 ptext)
  = Ok (lit "any 23 bytes whatsoever").
Proof.
  apply (basic_encrypt_decrypt toy_encrypt_block toy_decrypt_block
           toy_encrypt_block_len toy_decrypt_block_len
           key17 (lit "any 23 bytes whatsoever")).
  - exact toy_encrypt_decrypt.
  - left. reflexivity.
  - vm_compute. discriminate.
Defined.

Lemma derive_chain_witness :
  _SimplifiedEnctype_derive toy_encrypt_block _AES128CTS key17
    (lit "kerberos")
  = Ok (mkKey 18 (toy_encrypt_block (contents key17) kerberos16)) /\
  _SimplifiedEnctype_derive toy_encrypt_block _AES256CTS key17
    (lit "kerberos")
  = Ok (mkKey 18
          (toy_encrypt_block (contents key17) kerberos16 ++
           toy_encrypt_block (contents key17)
             (toy_encrypt_block (contents key17) kerberos16))).
Proof.
  apply (derive_chain toy_encrypt_block toy_encrypt_block_len
           key17 (lit "kerberos") kerberos16).
  - left. reflexivity.
  - vm_compute. reflexivity.
Defined.

Lemma bad_key_rejected_witness :
  decrypt toy_encrypt_block toy_decrypt_block toy_digest
          (mkKey 17 []) 2 (zeros 40)
  = Raise (ValueError "Key cannot be the null string") /\
  make_checksum toy_encrypt_block toy_digest 16
                (mkKey 1 (lit "a key of 15 b.")) 2 (lit "text")
  = Raise (ValueError "AES key must be either 16, 24, or 32 bytes long").
Proof.
  assert (Hk0 : ~ aes_key (@nil byte))
    by (unfold aes_key; vm_compute; intuition discriminate).
  assert (Hk : ~ aes_key (lit "a key of 15 b."))
    by (unfold aes_key; vm_compute; intuition discriminate).
  assert (Hu : uint32 2) by (unfold uint32; lia).
  split.
  - pose proof (bad_key_rejected toy_encrypt_block toy_decrypt_block
                  toy_digest toy_random_bytes (mkKey 17 []) 2 Hk0 Hu) as H.
    cbv zeta in H. destruct H as (H & _).
    destruct (H (or_introl eq_refl)) as (_ & Hd). exact (Hd (zeros 40)).
  - pose proof (bad_key_rejected toy_encrypt_block toy_decrypt_block
                  toy_digest toy_random_bytes
                  (mkKey 1 (lit "a key of 15 b.")) 2 Hk Hu) as H.
    cbv zeta in H. destruct H as (_ & H).
    apply (H 16 (lit "text") []). right. reflexivity.
Defined.

Lemma keyusage_out_of_range_witness :
  encrypt toy_encrypt_block toy_digest toy_random_bytes
          key17 (-1) (lit "text") None = Raise StructError /\
  make_checksum toy_encrypt_block toy_digest 15 key17 4294967296 (lit "text")
  = Raise StructError.
Proof.
  split.
  - apply (keyusage_out_of_range toy_encrypt_block toy_decrypt_block
             toy_digest toy_random_bytes key17 (-1)).
    + unfold uint32. lia.
    + left. reflexivity.
  - apply (keyusage_out_of_range toy_encrypt_block toy_decrypt_block
             toy_digest toy_random_bytes key17 4294967296).
    + unfold uint32. lia.
    + left. reflexivity.
Defined.

Lemma encrypt_any_confounder_witness :
  encrypt toy_encrypt_block toy_digest toy_random_bytes
          key17 2 (lit "short") (Some (lit "too short"))
  = Raise AssertionError /\
  exists ctext,
    encrypt toy_encrypt_block toy_digest toy_random_bytes
            key17 2 (lit "plaintext") (Some (lit "a confounder of 22 b."))
    = Ok ctext /\
    len ctext = len (lit "a confounder of 22 b.") + len (lit "plaintext") + 12
    /\
    decrypt toy_encrypt_block toy_decrypt_block toy_digest key17 2 ctext
    = Ok (skipn 16 (lit "a confounder of 22 b." ++ lit "plaintext")).
Proof.
  assert (Hu : uint32 2) by (unfold uint32; lia).
  split.
  - apply (encrypt_any_confounder toy_encrypt_block toy_decrypt_block
             toy_digest toy_random_bytes
             toy_encrypt_block_len toy_decrypt_block_len toy_decrypt_encrypt
             toy_digest_len key17 2 (lit "short") (Some (lit "too short"))
             (or_introl eq_refl) (or_introl eq_refl) Hu).
    vm_compute. reflexivity.
  - apply (encrypt_any_confounder toy_encrypt_block toy_decrypt_block
             toy_digest toy_random_bytes
             toy_encrypt_block_len toy_decrypt_block_len toy_decrypt_encrypt
             toy_digest_len key17 2 (lit "plaintext")
             (Some (lit "a confounder of 22 b."))
             (or_introl eq_refl) (or_introl eq_refl) Hu).
    vm_compute. discriminate.
Defined.

Lemma decrypt_authenticates_witness :
  16 <= len toy_body /\
  len (lit "9 bytesss") = len toy_body - 16 /\
  decrypt toy_encrypt_block toy_decrypt_block toy_digest key17 2
          (toy_body ++ zeros 12)
  = Raise (ValueError "ciphertext integrity failure").
Proof.
  destruct (decrypt_authenticates toy_encrypt_block toy_decrypt_block
              toy_digest toy_encrypt_block_len toy_decrypt_block_len
              toy_digest_len key17 2 toy_body toy_mac (zeros 12)
              (lit "9 bytesss"))
    as (H1 & H2 & H3).
  - left. reflexivity.
  - reflexivity.
  - reflexivity.
  - vm_compute. reflexivity.
  - split; [exact H1|]. split; [exact H2|]. apply H3.
    vm_compute. discriminate.
Defined.

Lemma verify_checksum_accepts_witness :
  exists cksum,
    make_checksum toy_encrypt_block toy_digest 16 key18 2 (lit "text")
      = Ok cksum /\
    len cksum = 12 /\
    verify_checksum toy_encrypt_block toy_digest 16 key18 2 (lit "text") cksum
      = Ok tt /\
    (forall other,
       other <> cksum ->
       verify_checksum toy_encrypt_block toy_digest 16 key18 2 (lit "text")
                       other =
       Raise (if len other =? 12
              then ValueError "checksum verification failure"
              else AssertionError)).
Proof.
  apply (verify_checksum_accepts toy_encrypt_block toy_digest
           toy_encrypt_block_len toy_digest_len 16 key18 2 (lit "text")).
  - right. reflexivity.
  - right. right. reflexivity.
  - unfold uint32. lia.
Defined.

(* ================================================================== *)
(** * Further facts about spake.py *)

(** ** The line wrapping of [output] *)

Lemma len_hex_encode (b : bytes) : len (hex_encode b) = 2 * len b.
Proof.
  unfold hex_encode, len. induction b as [|x b IH]; [reflexivity|].
  cbn [flat_map app length]. lia.
Qed.

Lemma len_spaces (n : Z) : 0 <= n -> len (spaces n) = n.
Proof.
  intros H. unfold spaces, len. rewrite repeat_length. lia.
Qed.

Lemma indent_spaces (n : Z) (chunks : list bytes) :
  0 <= n -> indent (spaces n) chunks = map (app (spaces n)) chunks.
Proof.
  intros H. destruct chunks as [|c r]; [reflexivity|].
  unfold indent. now rewrite len_spaces.
Qed.

(** The loop cuts [s] into chunks of [maxlen] characters, the last one is
    what remains; with the last line added, the lines are the chunks laid out
    under the prefix. *)
Lemma wrap_loop_spec (fuel : nat) (maxlen : Z) (prefix s : bytes) :
  0 < maxlen -> (length s <= fuel)%nat ->
  exists lines prefix' s' chunks,
    wrap_loop fuel maxlen prefix s = Some (lines, prefix', s') /\
    lines ++ [prefix' ++ s'] = indent prefix chunks /\
    concat chunks = s /\
    Forall (fun c => len c <= maxlen) chunks.
Proof.
  intros Hm. revert prefix s.
  induction fuel as [|fuel IH]; intros prefix s Hf.
  - destruct s; [|simpl in Hf; lia]. cbn [wrap_loop].
    change (len (@nil byte)) with 0. replace (maxlen <? 0) with false by lia.
    exists [], prefix, [], [[]]. repeat split; auto.
    constructor; [|constructor]. change (len (@nil byte)) with 0. lia.
  - cbn [wrap_loop]. destruct (Z.ltb_spec maxlen (len s)) as [Hl|Hl].
    + rewrite slice_hi, slice_lo by lia.
      set (n := Z.to_nat maxlen).
      assert (Hn : (0 < n <= length s)%nat) by (unfold n, len in *; lia).
      destruct (IH (spaces (len prefix)) (skipn n s))
        as (lines & prefix' & s' & chunks & -> & Hlines & Hcat & Hall).
      { rewrite length_skipn. lia. }
      exists ((prefix ++ firstn n s) :: lines), prefix', s',
             (firstn n s :: chunks).
      split; [reflexivity|]. split; [|split].
      * cbn [app indent]. f_equal. rewrite Hlines.
        apply indent_spaces. apply len_nonneg.
      * cbn [concat]. rewrite Hcat. apply firstn_skipn.
      * constructor; [|exact Hall].
        unfold len. rewrite length_firstn. unfold n. lia.
    + exists [], prefix, s, [s]. split; [reflexivity|].
      split; [reflexivity|]. split; [apply app_nil_r|].
      constructor; [lia | constructor].
Qed.

Ltac split_cmp :=
  repeat match goal with
         | |- context [?a <=? ?b] => destruct (Z.leb_spec a b)
         | |- context [?a =? ?b] => destruct (Z.eqb_spec a b)
         end; cbn [andb].

Lemma output_maxlen_some (prefix s : bytes) (maxlen : Z) :
  output_maxlen 69 prefix s = Some maxlen ->
  0 < maxlen /\ len prefix + maxlen <= 69.
Proof.
  unfold output_maxlen. split_cmp; intros [= <-]; lia.
Qed.

(** X18: when [output] gives up.  It leaves the program, with status 1 and
    the message on the standard error stream, exactly when the prefix and
    the hexadecimal string exceed 69 characters together, the prefix has
    more than 37 characters, and it is not the case that the prefix has at
    most 49 characters and the value 20 bytes.  In every other case it
    prints its lines, and the loop bound of the model is never reached. *)
Theorem output_exit_iff (prefix : string) (b : bytes) :
  let p := len (lit prefix) in
  (output_lines prefix b = SysExit (lit "formatting error!" ++ [x0a]) 1 <->
   69 < p + 2 * len b /\ 37 < p /\ ~ (p <= 49 /\ len b = 20)) /\
  ((69 < p + 2 * len b /\ 37 < p /\ ~ (p <= 49 /\ len b = 20)) \/
   exists lines, output_lines prefix b = Lines lines).
Proof.
  intros p. unfold output_lines. fold p. rewrite len_hex_encode.
  destruct (Z.ltb_spec 69 (p + 2 * len b)) as [Hl|Hl].
  2:{ split; [split; [discriminate | lia] | right; eauto]. }
  destruct (output_maxlen 69 (lit prefix) (hex_encode b)) as [maxlen|] eqn:Hm.
  - destruct (output_maxlen_some _ _ _ Hm) as (H0 & H69).
    destruct (wrap_loop_spec (length (hex_encode b)) maxlen (lit prefix)
                (hex_encode b) H0 (le_n _))
      as (lines & prefix' & s' & chunks & -> & _).
    assert (Hno : ~ (37 < p /\ ~ (p <= 49 /\ len b = 20))).
    { revert Hm. unfold output_maxlen. rewrite len_hex_encode. fold p.
      split_cmp; intros [= <-]; lia. }
    split; [split; [discriminate | tauto] | right; eauto].
  - assert (Hyes : 37 < p /\ ~ (p <= 49 /\ len b = 20)).
    { revert Hm. unfold output_maxlen. rewrite len_hex_encode. fold p.
      split_cmp; intros [=]; lia. }
    split; [split; [tauto | reflexivity] | left; tauto].
Qed.

(** The lines of [output] are the chunks of the hexadecimal string under the
    prefix, and each chunk leaves room for the prefix. *)
Lemma output_lines_chunks (prefix : string) (b : bytes) (lines : list bytes) :
  output_lines prefix b = Lines lines ->
  exists chunks,
    lines = indent (lit prefix) chunks /\
    concat chunks = hex_encode b /\
    Forall (fun c => len (lit prefix) + len c <= 69) chunks.
Proof.
  unfold output_lines.
  destruct (Z.ltb_spec 69 (len (lit prefix) + len (hex_encode b))) as [Hl|Hl].
  2:{ intros [= <-]. exists [hex_encode b].
      split; [reflexivity|]. split; [apply app_nil_r|].
      constructor; [lia | constructor]. }
  destruct (output_maxlen 69 (lit prefix) (hex_encode b)) as [maxlen|] eqn:Hm;
    [|discriminate].
  destruct (output_maxlen_some _ _ _ Hm) as (H0 & H69).
  destruct (wrap_loop_spec (length (hex_encode b)) maxlen (lit prefix)
              (hex_encode b) H0 (le_n _))
    as (ls & prefix' & s' & chunks & -> & Hlines & Hcat & Hall).
  intros [= <-]. exists chunks. split; [exact Hlines|].
  split; [exact Hcat|].
  eapply Forall_impl; [|exact Hall]. intros c Hc. cbn beta in *. lia.
Qed.

(** X19: what [output] prints.  Every printed line has at most 69
    characters, and the lines are the hexadecimal form of the value, cut
    into chunks and laid out under the prefix: the first line starts with
    the prefix, each further line with as many spaces. *)
Theorem output_lines_wrap (prefix : string) (b : bytes) (lines : list bytes) :
  output_lines prefix b = Lines lines ->
  Forall (fun l => len l <= 69) lines /\
  exists chunks,
    lines = indent (lit prefix) chunks /\
    concat chunks = hex_encode b.
Proof.
  intros H.
  destruct (output_lines_chunks _ _ _ H) as (chunks & -> & Hcat & Hall).
  split; [|eauto].
  pose proof (len_nonneg (lit prefix)) as Hp.
  destruct chunks as [|c r]; [constructor|].
  inversion Hall as [|? ? Hc Hr]; subst. cbn [indent]. constructor.
  - rewrite len_app. lia.
  - apply Forall_map. eapply Forall_impl; [|exact Hr].
    intros x Hx. cbn beta in *. rewrite len_app, len_spaces by lia. lia.
Qed.

Lemma hex_digit_inj (d1 d2 : Z) :
  0 <= d1 < 16 -> 0 <= d2 < 16 -> hex_digit d1 = hex_digit d2 -> d1 = d2.
Proof.
  intros H1 H2 H. apply (f_equal ord) in H. unfold hex_digit in H.
  destruct (Z.ltb_spec d1 10); destruct (Z.ltb_spec d2 10);
    rewrite !ord_byte_of_Z in H by lia; lia.
Qed.

Lemma hex_encode_inj (a b : bytes) : hex_encode a = hex_encode b -> a = b.
Proof.
  revert b. induction a as [|x a IH]; intros [|y b];
    cbn [hex_encode flat_map app]; try discriminate; [reflexivity|].
  intros H. injection H as Hhi Hlo Hrest.
  pose proof (ord_range x) as Rx. pose proof (ord_range y) as Ry.
  apply hex_digit_inj in Hhi;
    try (split; [apply Z.div_pos | apply Z.div_lt_upper_bound]; lia).
  apply hex_digit_inj in Hlo; try (apply Z.mod_pos_bound; lia).
  f_equal; [|now apply IH].
  apply ord_inj.
  rewrite (Z.div_mod (ord x) 16), (Z.div_mod (ord y) 16) by lia.
  now rewrite Hhi, Hlo.
Qed.

Lemma indent_inj (prefix : bytes) (c1 c2 : list bytes) :
  indent prefix c1 = indent prefix c2 -> c1 = c2.
Proof.
  assert (M : forall p (l1 l2 : list bytes),
             map (app p) l1 = map (app p) l2 -> l1 = l2).
  { intros p l1. induction l1 as [|x l1 IH]; intros [|y l2]; cbn [map];
      try discriminate; [reflexivity|].
    intros H. injection H as Hx Hl. apply app_inv_head in Hx.
    f_equal; [exact Hx | now apply IH]. }
  destruct c1 as [|x c1]; destruct c2 as [|y c2]; cbn [indent];
    try discriminate; [reflexivity|].
  intros H. injection H as Hx Hl. apply app_inv_head in Hx.
  f_equal; [exact Hx | now apply M in Hl].
Qed.

(** X20: the printed lines determine the value.  Two values that [output]
    prints as the same lines under the same prefix are equal: cutting the
    hexadecimal string into chunks loses nothing, and the hexadecimal form
    is one-to-one. *)
Theorem output_lines_determine (prefix : string) (a b : bytes)
    (lines : list bytes) :
  output_lines prefix a = Lines lines ->
  output_lines prefix b = Lines lines ->
  a = b.
Proof.
  intros Ha Hb.
  destruct (output_lines_chunks _ _ _ Ha) as (ca & Ea & Hca & _).
  destruct (output_lines_chunks _ _ _ Hb) as (cb & Eb & Hcb & _).
  rewrite Ea in Eb. apply indent_inj in Eb. subst cb.
  apply hex_encode_inj. now rewrite <- Hca, <- Hcb.
Qed.

(** A prefix of at most 37 characters always leaves room for a chunk, and a
    value that fits the line is printed as it is. *)
Lemma output_prints (prefix : string) (b : bytes) :
  len (lit prefix) <= 37 \/ len (lit prefix) + 2 * len b <= 69 ->
  prints (prefix, b).
Proof.
  intros H. unfold prints, output_lines. cbn [fst snd].
  rewrite len_hex_encode.
  destruct (Z.ltb_spec 69 (len (lit prefix) + 2 * len b)) as [Hl|Hl];
    [|eauto].
  destruct (output_maxlen 69 (lit prefix) (hex_encode b)) as [maxlen|] eqn:Hm.
  - destruct (output_maxlen_some _ _ _ Hm) as (H0 & _).
    destruct (wrap_loop_spec (length (hex_encode b)) maxlen (lit prefix)
                (hex_encode b) H0 (le_n _))
      as (lines & prefix' & s' & chunks & -> & _).
    eauto.
  - exfalso. revert Hm. unfold output_maxlen.
    split_cmp; intros [=]; lia.
Qed.

(** ** The session keys and the transcript checksum *)

Lemma pack_I_Ok (n : Z) (s : bytes) : pack_I n = Ok s -> uint32 n.
Proof.
  unfold pack_I, uint32.
  destruct (Z.leb_spec 0 n); destruct (Z.ltb_spec n 4294967296);
    cbn [andb]; intros [=]; lia.
Qed.

Lemma pack_I_defined (n : Z) : uint32 n -> exists s, pack_I n = Ok s.
Proof.
  intros H. unfold pack_I, uint32 in *.
  replace ((0 <=? n) && (n <? 4294967296)) with true by lia. eauto.
Qed.

Section SpakeKeyFacts.

Variable aes_encrypt_block : bytes -> bytes -> bytes.
Variable HMAC_digest : bytes -> bytes -> hashmodule -> bytes.
Variable PBKDF2 : bytes -> bytes -> Z -> Z -> (bytes -> bytes -> bytes) -> bytes.
Variable prfplus : Key -> bytes -> Z -> bytes.
Variable crypto_seedsize : Z -> Z.
Variable make_support_encoding : Z -> bytes.
Variable make_challenge_encoding : Z -> bytes -> bytes.
Variable make_body_encoding : Z -> bytes.
Variable point : Type.

Local Abbreviation checksum := (make_checksum aes_encrypt_block HMAC_digest).
Local Abbreviation transcript :=
  (vectors_transcript aes_encrypt_block HMAC_digest
     make_support_encoding make_challenge_encoding).

(** X21: when [derive_key] returns.  It returns a key exactly when the group
    number and the counter fit 32 bits, the tag of [k] is 17 or 18, and
    [prfplus] returned as many bytes as the seed size of that enctype; the
    key then holds the [prfplus] output on the string built from the seven
    parts, under the tag 18. *)
Theorem derive_key_returns (k : Key) (gnum : Z) (Kbytes cksum body : bytes)
    (n : Z) (key' : Key) :
  derive_key prfplus crypto_seedsize k gnum Kbytes cksum body n = Ok key' <->
  (enctype k = 17 \/ enctype k = 18) /\
  exists g4 e4 n4,
    pack_I gnum = Ok g4 /\ pack_I (enctype k) = Ok e4 /\ pack_I n = Ok n4 /\
    let seed :=
      prfplus k (lit "SPAKEkey" ++ g4 ++ e4 ++ Kbytes ++ cksum ++ body ++ n4)
              (crypto_seedsize (enctype k)) in
    len seed = (if enctype k =? 17 then 16 else 32) /\
    key' = mkKey 18 seed.
Proof.
  unfold derive_key. split.
  - intros H. inv_bind H as g4 Hg. inv_bind H as e4 He. inv_bind H as n4 Hn.
    unfold random_to_key in H. inv_bind H as cls Hcls.
    apply get_enctype_profile_supported in Hcls.
    destruct (Z.eqb_spec (len (prfplus k
                (lit "SPAKEkey" ++ g4 ++ e4 ++ Kbytes ++ cksum ++ body ++ n4)
                (crypto_seedsize (enctype k)))) (seedsize cls)) as [Hl|Hl];
      [|discriminate]. cbn [negb] in H. injection H as <-.
    split; [destruct Hcls as [(Ht & _) | (Ht & _)]; auto|].
    exists g4, e4, n4. repeat split; try assumption.
    + cbv zeta. rewrite Hl.
      destruct Hcls as [(-> & ->) | (-> & ->)]; reflexivity.
    + destruct Hcls as [(_ & ->) | (_ & ->)]; reflexivity.
  - intros (Ht & g4 & e4 & n4 & -> & -> & -> & Hl & ->). cbn [bind].
    cbv zeta in Hl. unfold random_to_key.
    destruct Ht as [Ht | Ht]; rewrite Ht in *; cbn [bind].
    + change (seedsize _AES128CTS) with 16. cbn [Z.eqb Pos.eqb] in Hl.
      rewrite Hl. reflexivity.
    + change (seedsize _AES256CTS) with 32. cbn [Z.eqb Pos.eqb] in Hl.
      rewrite Hl. reflexivity.
Qed.

(** What [make_checksum] returns is the HMAC under some key, cut to 12
    bytes. *)
Lemma make_checksum_Ok (cksumtype : Z) (key : Key) (keyusage : Z)
    (text ck : bytes) :
  checksum cksumtype key keyusage text = Ok ck ->
  (cksumtype = 15 \/ cksumtype = 16) /\
  exists kc, ck = slice (HMAC_digest kc text SHA) None (Some 12).
Proof.
  unfold make_checksum. intros H. inv_bind H as c Hc.
  unfold _SimplifiedChecksum_checksum in H.
  inv_bind H as c99 H99. inv_bind H as kc Hkc. injection H as <-.
  destruct (get_checksum_profile_cases cksumtype)
    as [(-> & E) | [(-> & E) | (_ & _ & E)]];
    rewrite E in Hc; [| |discriminate]; injection Hc as <-;
    (split; [auto|]); exists (contents kc); reflexivity.
Qed.

Lemma len_slice_12 (s : bytes) : len (slice s None (Some 12)) <= 12.
Proof.
  rewrite slice_hi by lia. unfold len. rewrite length_firstn. lia.
Qed.

(** X22: the transcript checksum.  When the transcript block of [vectors]
    completes and the HMAC has 20 bytes, the checksum type is 15 or 16, the
    running checksum starts from 12 zero bytes, and the final checksum, of 12
    bytes again, is the left fold over the messages of
    [make_checksum(cksumtype, k, 65, cksum + message)]; it is the value
    logged last. *)
Theorem transcript_checksum (cksumtype gnum : Z) (k : Key)
    (Tbytes Sbytes : bytes) (skip_support : bool)
    (rejected_challenge : option bytes) (out0 out : log) (cksum : bytes) :
  (forall key m h, len (HMAC_digest key m h) = 20) ->
  transcript cksumtype gnum k Tbytes Sbytes skip_support rejected_challenge
             out0 = Ok (cksum, out) ->
  (cksumtype = 15 \/ cksumtype = 16) /\
  len cksum = 12 /\
  fold_updates (fun c m => checksum cksumtype k 65 (c ++ m)) (zeros 12)
    (expected_messages skip_support rejected_challenge
       (make_support_encoding gnum) (make_challenge_encoding gnum Tbytes)
       Sbytes) = Ok cksum /\
  last out (EmptyString, []) = ("Final checksum after pubkey: "%string, cksum).
Proof.
  intros HL H.
  assert (L12 : forall kc m,
             len (slice (HMAC_digest kc m SHA) None (Some 12)) = 12).
  { intros kc m. rewrite slice_hi by lia. pose proof (HL kc m SHA) as E.
    unfold len in *. rewrite length_firstn. lia. }
  destruct (vectors_transcript_spec _ _ _ _ _ _ _ _ _ _ _ _ _ _ H)
    as (_ & empty & Hempty & Hfold).
  destruct (make_checksum_Ok _ _ _ _ _ Hempty) as (Ht & kc & ->).
  rewrite L12 in Hfold.
  unfold vectors_transcript in H.
  inv_bind H as empty' Hempty'.
  inv_bind H as st1 Hrej. destruct st1 as (c1, out1).
  inv_bind H as st2 Hsup. destruct st2 as (c2, out2).
  inv_bind H as c3 Hch. inv_bind H as c4 Hpub.
  injection H as <- <-.
  destruct (make_checksum_Ok _ _ _ _ _ Hpub) as (_ & kc' & ->).
  split; [exact Ht|]. split; [apply L12|]. split; [exact Hfold|].
  unfold output. apply last_last.
Qed.

(** Every entry the transcript block adds to the log is printed: its
    prefixes leave room for a chunk, but for the 40 characters before the
    checksum of a rejected challenge, and a checksum of at most 12 bytes fits
    the line after them. *)
Lemma transcript_prints (cksumtype gnum : Z) (k : Key)
    (Tbytes Sbytes : bytes) (skip_support : bool)
    (rejected_challenge : option bytes) (out0 out : log) (cksum : bytes) :
  transcript cksumtype gnum k Tbytes Sbytes skip_support rejected_challenge
             out0 = Ok (cksum, out) ->
  Forall prints out0 -> Forall prints out.
Proof.
  unfold vectors_transcript. intros H H0.
  inv_bind H as empty Hempty.
  inv_bind H as st1 Hrej. destruct st1 as (c1, out1).
  inv_bind H as st2 Hsup. destruct st2 as (c2, out2).
  inv_bind H as c3 Hch. inv_bind H as c4 Hpub.
  injection H as <- <-.
  assert (P : forall o l v, Forall prints o -> len (lit l) <= 37 ->
                            Forall prints (output o l v)).
  { intros o l v Ho Hl. unfold output. apply Forall_app. split; [exact Ho|].
    constructor; [|constructor]. apply output_prints. now left. }
  assert (H1 : Forall prints out1).
  { destruct (truthy rejected_challenge); [|now injection Hrej as <- <-].
    inv_bind Hrej as c Hc. injection Hrej as <- <-.
    unfold output at 1. apply Forall_app. split.
    - apply P; [exact H0 | vm_compute; discriminate].
    - constructor; [|constructor]. apply output_prints. right.
      destruct (make_checksum_Ok _ _ _ _ _ Hc) as (_ & kc & ->).
      match goal with
      | |- context [len (slice ?h None (Some 12))] =>
          pose proof (len_slice_12 h) as L
      end.
      change (len (lit "Checksum after optimist SPAKEChallenge: ")) with 40.
      lia. }
  assert (H2 : Forall prints out2).
  { destruct (negb skip_support); [|now injection Hsup as <- <-].
    inv_bind Hsup as c Hc. injection Hsup as <- <-.
    apply P; [apply P|]; [exact H1 | |]; vm_compute; discriminate. }
  apply P; [apply P; [apply P|]|]; [exact H2 | | |]; vm_compute; discriminate.
Qed.

(** X23: [output] never gives up in a run of [vectors].  Every entry in the
    log of a completed run is one that [output] prints: the formatting error
    and its [sys.exit(1)] are out of reach, whatever the curve, the encoders
    and the lengths of the values. *)
Theorem vectors_prints_all (etype cksumtype gnum : Z) (ec : curve point)
    (order cofactor wbytes : Z) (G M N : point) (skip_support : bool)
    (rejected_challenge : option bytes) (rx ry : Z) (out : log) :
  vectors aes_encrypt_block HMAC_digest PBKDF2 prfplus crypto_seedsize
          make_support_encoding make_challenge_encoding make_body_encoding
          point etype cksumtype gnum ec order cofactor wbytes G M N
          skip_support rejected_challenge rx ry = Ok out ->
  Forall prints out.
Proof.
  unfold vectors. intros H.
  destruct (negb skip_support || negb (truthy rejected_challenge));
    [|discriminate].
  inv_bind H as k Hk. inv_bind H as g4 Hg4. inv_bind H as w Hw.
  inv_bind H as pts Hpts.
  destruct pts as [[[[[[x y] X] Y] T] S_] K].
  inv_bind H as st Ht. destruct st as (cksum, out1).
  inv_bind H as K0 HK0. inv_bind H as K1 HK1.
  inv_bind H as K2 HK2. inv_bind H as K3 HK3.
  injection H as <-.
  assert (P : forall o l v, Forall prints o -> len (lit l) <= 37 ->
                            Forall prints (output o l v)).
  { intros o l v Ho Hl. unfold output. apply Forall_app. split; [exact Ho|].
    constructor; [|constructor]. apply output_prints. now left. }
  apply transcript_prints in Ht.
  - repeat (apply P; [|vm_compute; discriminate]). exact Ht.
  - repeat (apply P; [|vm_compute; discriminate]). constructor.
Qed.

(** X24: [vectors] fails early.  With [skip_support] and a non-empty
    rejected challenge together it stops at its opening assertion; otherwise
    an enctype other than 17 and 18 stops it in [string_to_key] with
    "Invalid enctype", before any use of the curve. *)
Theorem vectors_fails_early (etype cksumtype gnum : Z) (ec : curve point)
    (order cofactor wbytes : Z) (G M N : point) (skip_support : bool)
    (rejected_challenge : option bytes) (rx ry : Z) :
  let r := vectors aes_encrypt_block HMAC_digest PBKDF2 prfplus
             crypto_seedsize make_support_encoding make_challenge_encoding
             make_body_encoding point etype cksumtype gnum ec order cofactor
             wbytes G M N skip_support rejected_challenge rx ry in
  (skip_support = true -> truthy rejected_challenge = true ->
   r = Raise AssertionError) /\
  (skip_support = false \/ truthy rejected_challenge = false ->
   etype <> 17 -> etype <> 18 ->
   r = Raise (ValueError (fmt_d "Invalid enctype " etype))).
Proof.
  intros r. subst r. unfold vectors. split.
  - intros -> ->. reflexivity.
  - intros Hs H17 H18.
    replace (negb skip_support || negb (truthy rejected_challenge))
      with true by (destruct Hs as [-> | ->];
                    [reflexivity | now rewrite orb_true_r]).
    unfold string_to_key.
    now rewrite get_enctype_profile_unsupported.
Qed.

End SpakeKeyFacts.

(** ** Instances of the further facts on spake.py *)

Lemma output_exit_iff_witness :
  output_lines "Checksum after optimist SPAKEChallenge: " (zeros 16)
  = SysExit (lit "formatting error!" ++ [x0a]) 1.
Proof.
  apply (output_exit_iff "Checksum after optimist SPAKEChallenge: "
           (zeros 16)).
  vm_compute. intuition discriminate.
Defined.

Lemma output_lines_wrap_witness :
  Forall (fun l => len l <= 69) toy_lines /\
  exists chunks,
    toy_lines = indent (lit "KDC-REQ-BODY: ") chunks /\
    concat chunks = hex_encode (lit "a request body of forty bytes in all ...").
Proof.
  apply (output_lines_wrap "KDC-REQ-BODY: "
           (lit "a request body of forty bytes in all ...") toy_lines).
  vm_compute. reflexivity.
Defined.

Lemma derive_key_returns_witness :
  derive_key toy_prfplus toy_seedsize key18 1 (lit "K") (zeros 12)
             (lit "body") 0
  = Ok (mkKey 18
          (toy_prfplus key18
             (lit "SPAKEkey" ++ [x00; x00; x00; x01] ++ [x00; x00; x00; x12]
              ++ lit "K" ++ zeros 12 ++ lit "body" ++ [x00; x00; x00; x00])
             (toy_seedsize (enctype key18)))).
Proof.
  apply (derive_key_returns toy_prfplus toy_seedsize key18 1 (lit "K")
           (zeros 12) (lit "body") 0).
  split; [right; reflexivity|].
  exists [x00; x00; x00; x01], [x00; x00; x00; x12], [x00; x00; x00; x00].
  repeat split; vm_compute; reflexivity.
Defined.

Lemma transcript_checksum_witness :
  (16 = 15 \/ 16 = 16) /\
  len (fst toy_transcript) = 12 /\
  fold_updates
    (fun c m => make_checksum toy_encrypt_block toy_digest 16 key18 65
                              (c ++ m))
    (zeros 12)
    (expected_messages false (Some (lit "rejected"))
       (toy_support_encoding 1) (toy_challenge_encoding 1 (lit "T"))
       (lit "S")) = Ok (fst toy_transcript) /\
  last (snd toy_transcript) (EmptyString, [])
  = ("Final checksum after pubkey: "%string, fst toy_transcript).
Proof.
  apply (transcript_checksum toy_encrypt_block toy_digest
           toy_support_encoding toy_challenge_encoding
           16 1 key18 (lit "T") (lit "S") false (Some (lit "rejected")) []
           (snd toy_transcript) (fst toy_transcript)).
  - exact toy_digest_len.
  - vm_compute. reflexivity.
Defined.

Lemma vectors_prints_all_witness : Forall prints toy_log_default.
Proof.
  apply (vectors_prints_all toy_encrypt_block toy_digest toy_PBKDF2
           toy_prfplus toy_seedsize toy_support_encoding
           toy_challenge_encoding toy_body_encoding Z
           18 16 1 Zcurve 101 1 32 3 5 7 false None 11 13 toy_log_default).
  exact toy_run_default.
Defined.

Lemma vectors_fails_early_witness :
  vectors toy_encrypt_block toy_digest toy_PBKDF2 toy_prfplus toy_seedsize
    toy_support_encoding toy_challenge_encoding toy_body_encoding
    Z 18 16 1 Zcurve 101 1 32 3 5 7 true (Some (lit "rejected")) 11 13
  = Raise AssertionError /\
  vectors toy_encrypt_block toy_digest toy_PBKDF2 toy_prfplus toy_seedsize
    toy_support_encoding toy_challenge_encoding toy_body_encoding
    Z 16 12 1 Zcurve 101 1 32 3 5 7 false None 11 13
  = Raise (ValueError "Invalid enctype 16").
Proof.
  split.
  - apply (vectors_fails_early toy_encrypt_block toy_digest toy_PBKDF2
             toy_prfplus toy_seedsize toy_support_encoding
             toy_challenge_encoding toy_body_encoding Z
             18 16 1 Zcurve 101 1 32 3 5 7 true (Some (lit "rejected"))
             11 13); reflexivity.
  - apply (vectors_fails_early toy_encrypt_block toy_digest toy_PBKDF2
             toy_prfplus toy_seedsize toy_support_encoding
             toy_challenge_encoding toy_body_encoding Z
             16 12 1 Zcurve 101 1 32 3 5 7 false None 11 13);
      [left; reflexivity | lia | lia].
Defined.

(** ** Complete runs of [vectors] *)

Lemma vectors_points_ok {point : Type} (ec : curve point) (zero : point)
    (order cofactor : Z) (G M N : point) (w rx ry : Z) :
  group_laws ec zero -> 0 < order ->
  exists pts, vectors_points point ec order cofactor G M N w rx ry = Ok pts.
Proof.
  intros laws Ho. unfold vectors_points.
  replace (order <=? 0) with false by lia.
  rewrite !(add_cancel_l point ec zero laws), !(mul_mul point ec zero laws).
  replace (ry * cofactor * (rx * cofactor))
    with (rx * cofactor * (ry * cofactor)) by lia.
  assert (R : forall p, ec_eqb ec p p = true)
    by (intros p; now apply (eqb_eq ec zero laws)).
  rewrite R. eauto.
Qed.

Section VectorsFacts.

Variable aes_encrypt_block : bytes -> bytes -> bytes.
Variable HMAC_digest : bytes -> bytes -> hashmodule -> bytes.
Variable PBKDF2 : bytes -> bytes -> Z -> Z -> (bytes -> bytes -> bytes) -> bytes.
Variable prfplus : Key -> bytes -> Z -> bytes.
Variable crypto_seedsize : Z -> Z.
Variable make_support_encoding : Z -> bytes.
Variable make_challenge_encoding : Z -> bytes -> bytes.
Variable make_body_encoding : Z -> bytes.
Variable point : Type.

Local Abbreviation E := aes_encrypt_block.
Local Abbreviation derive := (_SimplifiedEnctype_derive aes_encrypt_block).
Local Abbreviation checksum := (make_checksum aes_encrypt_block HMAC_digest).
Local Abbreviation transcript :=
  (vectors_transcript aes_encrypt_block HMAC_digest
     make_support_encoding make_challenge_encoding).
Local Abbreviation run :=
  (vectors aes_encrypt_block HMAC_digest PBKDF2 prfplus crypto_seedsize
           make_support_encoding make_challenge_encoding make_body_encoding
           point).

Lemma derive_loop_Ok_len (fuel : nat) (cls : EnctypeProfile) (key : Key)
    (p seed r : bytes) :
  derive_loop E fuel cls key p seed = Ok r -> seedsize cls <= len r.
Proof.
  revert p seed. induction fuel as [|fuel IH]; intros p seed; cbn [derive_loop];
    destruct (Z.ltb_spec (len seed) (seedsize cls)) as [Hl|Hl];
    try discriminate; try (intros [= <-]; exact Hl).
  intros H. inv_bind H as c Hc. exact (IH _ _ H).
Qed.

(** Whatever the key, a key returned by [derive] has the seed size of the
    profile and the tag 18. *)
Lemma derive_Ok_len (cls : EnctypeProfile) (key k' : Key) (c : bytes) :
  supported cls -> derive cls key c = Ok k' ->
  len (contents k') = seedsize cls /\ enctype k' = 18.
Proof.
  intros Hcls H. unfold _SimplifiedEnctype_derive in H.
  inv_bind H as p Hp. inv_bind H as seed Hseed. injection H as <-.
  apply derive_loop_Ok_len in Hseed.
  assert (0 <= seedsize cls) by (destruct Hcls; subst; cbn; lia).
  cbn [contents enctype _Enctype_random_to_key]. split.
  - rewrite len_slice_within by lia. lia.
  - destruct Hcls; subst; reflexivity.
Qed.

Lemma string_to_key_Ok (etype : Z) (password salt : bytes)
    (params : option bytes) (k : Key) :
  string_to_key E HMAC_digest PBKDF2 etype password salt params = Ok k ->
  (etype = 17 \/ etype = 18) /\ enctype k = 18 /\
  len (contents k) = (if etype =? 17 then 16 else 32).
Proof.
  unfold string_to_key. intros H. inv_bind H as cls Hcls.
  apply get_enctype_profile_supported in Hcls.
  unfold _AESEnctype_string_to_key in H. inv_bind H as it Hit.
  assert (Hs : supported cls) by (destruct Hcls as [(_ & ->) | (_ & ->)];
                                  [left | right]; reflexivity).
  destruct (derive_Ok_len _ _ _ _ Hs H) as (Hl & Ht).
  split; [tauto|]. split; [exact Ht|]. rewrite Hl.
  destruct Hcls as [(-> & ->) | (-> & ->)]; reflexivity.
Qed.

Lemma derive_key_Ok (k : Key) (gnum : Z) (Kbytes cksum body : bytes)
    (n : Z) (key' : Key) :
  enctype k = 18 ->
  derive_key prfplus crypto_seedsize k gnum Kbytes cksum body n = Ok key' ->
  len (contents key') = 32.
Proof.
  intros Ht H. unfold derive_key in H. rewrite Ht in H.
  inv_bind H as g4 Hg. inv_bind H as e4 He. inv_bind H as n4 Hn.
  unfold random_to_key in H. cbn [_get_enctype_profile bind] in H.
  change (_get_enctype_profile 18) with (Ok _AES256CTS) in H.
  cbn [bind] in H. change (seedsize _AES256CTS) with 32 in H.
  match type of H with
  | context [len ?s =? 32] => destruct (Z.eqb_spec (len s) 32) as [Hl|Hl]
  end; [|discriminate].
  cbn [negb] in H. injection H as <-. exact Hl.
Qed.

(** X25: the keys a run of [vectors] prints.  In every completed run the
    first entry of the log holds the contents of the long-term key [k] that
    [string_to_key] returns for the password and the salt of the script, and
    the last four entries hold the contents of the keys that [derive_key]
    returns for [k], the group number, the encoded shared point
    [K = (G*x)*y], the final transcript checksum, which is the entry logged
    before the request body, the encoded request body, and the counters 0 to
    3.  The long-term key has 16 bytes for enctype 17 and 32 bytes for
    enctype 18 and carries the tag 18 either way; [derive_key] follows that
    tag, so the four keys have 32 bytes for both enctypes. *)
Theorem vectors_session_keys (etype cksumtype gnum : Z) (ec : curve point)
    (order cofactor wbytes : Z) (G M N : point) (skip_support : bool)
    (rejected_challenge : option bytes) (rx ry : Z) (out : log) :
  run etype cksumtype gnum ec order cofactor wbytes G M N
      skip_support rejected_challenge rx ry = Ok out ->
  (etype = 17 \/ etype = 18) /\
  exists k cksum mid K0 K1 K2 K3,
    string_to_key E HMAC_digest PBKDF2 etype
      (lit "password") (lit "ATHENA.MIT.EDUraeburn") None = Ok k /\
    let Kbytes :=
      ec_encode_point ec
        (ec_mul ec (ec_mul ec G (rx * cofactor)) (ry * cofactor)) in
    let body := make_body_encoding etype in
    derive_key prfplus crypto_seedsize k gnum Kbytes cksum body 0 = Ok K0 /\
    derive_key prfplus crypto_seedsize k gnum Kbytes cksum body 1 = Ok K1 /\
    derive_key prfplus crypto_seedsize k gnum Kbytes cksum body 2 = Ok K2 /\
    derive_key prfplus crypto_seedsize k gnum Kbytes cksum body 3 = Ok K3 /\
    out = [("key: "%string, contents k)] ++ mid ++
          [("Final checksum after pubkey: "%string, cksum);
           ("KDC-REQ-BODY: "%string, body);
           ("K'[0]: "%string, contents K0); ("K'[1]: "%string, contents K1);
           ("K'[2]: "%string, contents K2); ("K'[3]: "%string, contents K3)]
    /\
    enctype k = 18 /\
    len (contents k) = (if etype =? 17 then 16 else 32) /\
    len (contents K0) = 32 /\ len (contents K1) = 32 /\
    len (contents K2) = 32 /\ len (contents K3) = 32.
Proof.
  unfold vectors. intros H.
  destruct (negb skip_support || negb (truthy rejected_challenge));
    [|discriminate].
  inv_bind H as k Hk. inv_bind H as g4 Hg4. inv_bind H as w Hw.
  inv_bind H as pts Hpts.
  destruct pts as [[[[[[x y] X] Y] T] S_] K].
  inv_bind H as st Ht. destruct st as (cksum, out1).
  inv_bind H as K0 HK0. inv_bind H as K1 HK1.
  inv_bind H as K2 HK2. inv_bind H as K3 HK3.
  injection H as <-.
  destruct (string_to_key_Ok _ _ _ _ _ Hk) as (He & Htag & Hlen).
  split; [exact He|].
  assert (HK : K = ec_mul ec (ec_mul ec G (rx * cofactor)) (ry * cofactor)).
  { clear - Hpts. unfold vectors_points in Hpts.
    destruct (order <=? 0); [discriminate|].
    repeat match type of Hpts with
           | (if ?c then _ else _) = _ => destruct c; [|discriminate]
           end.
    now injection Hpts as _ _ _ _ _ _ <-. }
  subst K.
  assert (Hpre : exists added,
             out1 = ("key: "%string, contents k) :: added ++
                    [("Final checksum after pubkey: "%string, cksum)]).
  { clear - Ht. unfold vectors_transcript in Ht.
    inv_bind Ht as empty Hempty.
    inv_bind Ht as st1 Hrej. destruct st1 as (c1, o1).
    inv_bind Ht as st2 Hsup. destruct st2 as (c2, o2).
    inv_bind Ht as c3 Hch. inv_bind Ht as c4 Hpub.
    injection Ht as <- <-.
    assert (H1 : exists a, o1 = ("key: "%string, contents k) :: a).
    { destruct (truthy rejected_challenge).
      - inv_bind Hrej as c Hc. injection Hrej as _ <-.
        unfold output. cbn [app]. eauto.
      - injection Hrej as _ <-. unfold output. cbn [app]. eauto. }
    destruct H1 as (a1 & ->).
    assert (H2 : exists a, o2 = ("key: "%string, contents k) :: a).
    { destruct (negb skip_support).
      - inv_bind Hsup as c Hc. injection Hsup as _ <-.
        unfold output. cbn [app]. eauto.
      - injection Hsup as _ <-. eauto. }
    destruct H2 as (a2 & ->). unfold output. cbn [app].
    exists (a2 ++
            [("SPAKEChallenge: "%string,
              make_challenge_encoding gnum (ec_encode_point ec T));
             ("Checksum after SPAKEChallenge: "%string, c3)]).
    rewrite <- !app_assoc. reflexivity. }
  destruct Hpre as (added & ->).
  exists k, cksum, added, K0, K1, K2, K3.
  split; [exact Hk|]. cbv zeta.
  split; [exact HK0|]. split; [exact HK1|].
  split; [exact HK2|]. split; [exact HK3|]. split.
  - unfold output. cbn [app]. rewrite <- !app_assoc. reflexivity.
  - split; [exact Htag|]. split; [exact Hlen|].
    repeat split; eapply derive_key_Ok; eauto.
Qed.

Lemma make_checksum_defined (cksumtype : Z) (key : Key) (keyusage : Z)
    (text : bytes) :
  (forall k blk, aes_key k -> is_block blk -> is_block (E k blk)) ->
  cksumtype = 15 \/ cksumtype = 16 ->
  aes_key (contents key) -> uint32 keyusage ->
  exists ck, checksum cksumtype key keyusage text = Ok ck.
Proof.
  intros HE Hc Hk Hu.
  assert (Hp : exists c, _get_checksum_profile cksumtype = Ok c /\
                         supported (enc c)).
  { destruct Hc as [-> | ->]; eexists; (split; [reflexivity|]);
      [left | right]; reflexivity. }
  destruct Hp as (c & Hprof & Hcls).
  destruct (pack_IB_ok keyusage 153 Hu) as (c99 & E99 & N99); [lia|].
  destruct (derive_ok E HE (enc c) key c99 Hcls Hk N99) as (seed & Ekc & _).
  unfold make_checksum. rewrite Hprof. cbn [bind].
  unfold _SimplifiedChecksum_checksum.
  rewrite E99. cbn [bind]. rewrite Ekc. cbn [bind]. eauto.
Qed.

Lemma transcript_defined (cksumtype gnum : Z) (k : Key)
    (Tbytes Sbytes : bytes) (skip_support : bool)
    (rejected_challenge : option bytes) (out0 : log) :
  (forall k blk, aes_key k -> is_block blk -> is_block (E k blk)) ->
  cksumtype = 15 \/ cksumtype = 16 -> aes_key (contents k) ->
  exists cksum out,
    transcript cksumtype gnum k Tbytes Sbytes skip_support
               rejected_challenge out0 = Ok (cksum, out) /\
    length out = (length out0 + 3
                  + (if truthy rejected_challenge then 2 else 0)
                  + (if skip_support then 0 else 2))%nat.
Proof.
  intros HE Hc Hk.
  assert (U : forall cks s,
            exists c, update_checksum E HMAC_digest cksumtype k cks s = Ok c).
  { intros cks s. unfold update_checksum.
    apply make_checksum_defined; auto.
    unfold uint32, KEY_USAGE_SPAKE_TRANSCRIPT. lia. }
  unfold vectors_transcript.
  destruct (make_checksum_defined cksumtype k 0 [] HE Hc Hk) as (empty & ->);
    [unfold uint32; lia|]. cbn [bind].
  destruct (truthy rejected_challenge);
    destruct skip_support; cbn [negb bind];
    repeat match goal with
           | |- context [update_checksum E HMAC_digest cksumtype k ?c ?s] =>
               let x := fresh "c" in
               destruct (U c s) as (x & ->); cbn [bind]
           end;
    do 2 eexists; (split; [reflexivity|]);
    unfold output; rewrite !length_app; cbn [length]; lia.
Qed.

(** X26: [vectors] completes.  For enctype 17 or 18, checksum type 15 or
    16, a 32-bit group number, a positive order, a curve that is a group,
    not both of [skip_support] and a rejected challenge, a block cipher that
    maps blocks to blocks, and [PBKDF2] and [prfplus] returning strings of
    the length asked of them (here 32 bytes from [prfplus], for enctype 17
    too), the run returns its log, of 17 entries and two more for each of
    the two optional messages. *)
Theorem vectors_completes (etype cksumtype gnum : Z) (ec : curve point)
    (zero : point) (order cofactor wbytes : Z) (G M N : point)
    (skip_support : bool) (rejected_challenge : option bytes) (rx ry : Z) :
  (forall k blk, aes_key k -> is_block blk -> is_block (E k blk)) ->
  (forall pw salt n it prf, 0 <= n -> len (PBKDF2 pw salt n it prf) = n) ->
  (forall k s, len (prfplus k s (crypto_seedsize 18)) = 32) ->
  group_laws ec zero ->
  etype = 17 \/ etype = 18 -> cksumtype = 15 \/ cksumtype = 16 ->
  uint32 gnum -> 0 < order ->
  skip_support = false \/ truthy rejected_challenge = false ->
  exists out,
    run etype cksumtype gnum ec order cofactor wbytes G M N
        skip_support rejected_challenge rx ry = Ok out /\
    length out = (17 + (if truthy rejected_challenge then 2 else 0)
                     + (if skip_support then 0 else 2))%nat.
Proof.
  intros HE HP HR laws He Hc Hg Ho Hs. unfold vectors.
  replace (negb skip_support || negb (truthy rejected_challenge))
    with true by (destruct Hs as [-> | ->];
                  [reflexivity | now rewrite orb_true_r]).
  (* the long-term key *)
  assert (Hk : exists k,
             string_to_key E HMAC_digest PBKDF2 etype (lit "password")
               (lit "ATHENA.MIT.EDUraeburn") None = Ok k /\
             enctype k = 18 /\ aes_key (contents k)).
  { assert (Hp : exists cls, _get_enctype_profile etype = Ok cls /\
                             supported cls).
    { destruct He as [-> | ->]; eexists; (split; [reflexivity|]);
        [left | right]; reflexivity. }
    destruct Hp as (cls & Hprof & Hcls).
    unfold string_to_key. rewrite Hprof. cbn [bind].
    unfold _AESEnctype_string_to_key. cbn [unpack_L bind].
    match goal with
    | |- context [_SimplifiedEnctype_derive _ cls ?t ?c] =>
        destruct (derive_ok E HE cls t c Hcls) as (seed & -> & Hl)
    end.
    - cbn [contents _Enctype_random_to_key].
      eapply seed_is_aes_key; [exact Hcls|]. apply HP.
      destruct Hcls; subst; cbn; lia.
    - discriminate.
    - eexists. split; [reflexivity|]. split; [reflexivity|].
      exact (seed_is_aes_key cls seed Hcls Hl). }
  destruct Hk as (k & -> & Htag & Hkey). cbn [bind].
  destruct (pack_I_defined gnum Hg) as (g4 & Eg). rewrite Eg. cbn [bind].
  unfold pymod. replace (order =? 0) with false by lia. cbn [bind].
  match goal with
  | |- context [vectors_points point ec order cofactor G M N ?w rx ry] =>
      destruct (vectors_points_ok ec zero order cofactor G M N w rx ry
                  laws Ho) as (pts & ->)
  end.
  cbn [bind]. destruct pts as [[[[[[x y] X] Y] T] S_] K].
  match goal with
  | |- context [vectors_transcript _ _ _ _ cksumtype gnum k ?t ?s
                  skip_support rejected_challenge ?o] =>
      destruct (transcript_defined cksumtype gnum k t s skip_support
                  rejected_challenge o HE Hc Hkey)
        as (cksum & out1 & -> & Hlen)
  end.
  cbn [bind].
  assert (DK : forall Kb ck body n, 0 <= n < 4 ->
             exists K', derive_key prfplus crypto_seedsize k gnum Kb ck body n
                        = Ok K').
  { intros Kb ck body n Hn. unfold derive_key. rewrite Eg, Htag. cbn [bind].
    destruct (pack_I_defined 18) as (e4 & ->); [unfold uint32; lia|].
    destruct (pack_I_defined n) as (n4 & ->); [unfold uint32; lia|].
    cbn [bind]. unfold random_to_key.
    change (_get_enctype_profile 18) with (Ok _AES256CTS). cbn [bind].
    change (seedsize _AES256CTS) with 32. rewrite HR. cbn [Z.eqb Pos.eqb negb].
    eauto. }
  repeat match goal with
         | |- context [derive_key prfplus crypto_seedsize k gnum ?a ?b ?c ?n] =>
             let x := fresh "K'" in
             destruct (DK a b c n) as (x & ->); [lia|]; cbn [bind]
         end.
  eexists. split; [reflexivity|].
  unfold output in *. rewrite !length_app in *. cbn [length] in *. lia.
Qed.

End VectorsFacts.

Lemma toy_PBKDF2_len (pw salt : bytes) (n it : Z)
    (prf : bytes -> bytes -> bytes) :
  0 <= n -> len (toy_PBKDF2 pw salt n it prf) = n.
Proof.
  intros H. unfold toy_PBKDF2, len, zeros.
  rewrite length_firstn, length_app, repeat_length. lia.
Qed.

Lemma toy_prfplus_len (k : Key) (s : bytes) :
  len (toy_prfplus k s (toy_seedsize 18)) = 32.
Proof.
  unfold toy_prfplus, len, zeros. change (toy_seedsize 18) with 32.
  rewrite length_firstn, !length_app, repeat_length. lia.
Qed.

Lemma vectors_session_keys_witness :
  (18 = 17 \/ 18 = 18) /\
  exists k cksum mid K0 K1 K2 K3,
    string_to_key toy_encrypt_block toy_digest toy_PBKDF2 18
      (lit "password") (lit "ATHENA.MIT.EDUraeburn") None = Ok k /\
    derive_key toy_prfplus toy_seedsize k 1
      (ec_encode_point Zcurve (3 * (11 * 1) * (13 * 1))) cksum
      (toy_body_encoding 18) 0 = Ok K0 /\
    derive_key toy_prfplus toy_seedsize k 1
      (ec_encode_point Zcurve (3 * (11 * 1) * (13 * 1))) cksum
      (toy_body_encoding 18) 1 = Ok K1 /\
    derive_key toy_prfplus toy_seedsize k 1
      (ec_encode_point Zcurve (3 * (11 * 1) * (13 * 1))) cksum
      (toy_body_encoding 18) 2 = Ok K2 /\
    derive_key toy_prfplus toy_seedsize k 1
      (ec_encode_point Zcurve (3 * (11 * 1) * (13 * 1))) cksum
      (toy_body_encoding 18) 3 = Ok K3 /\
    toy_log_default =
      [("key: "%string, contents k)] ++ mid ++
      [("Final checksum after pubkey: "%string, cksum);
       ("KDC-REQ-BODY: "%string, toy_body_encoding 18);
       ("K'[0]: "%string, contents K0); ("K'[1]: "%string, contents K1);
       ("K'[2]: "%string, contents K2); ("K'[3]: "%string, contents K3)] /\
    enctype k = 18 /\
    len (contents k) = 32 /\
    len (contents K0) = 32 /\ len (contents K1) = 32 /\
    len (contents K2) = 32 /\ len (contents K3) = 32.
Proof.
  exact (vectors_session_keys toy_encrypt_block toy_digest toy_PBKDF2
           toy_prfplus toy_seedsize toy_support_encoding
           toy_challenge_encoding toy_body_encoding Z
           18 16 1 Zcurve 101 1 32 3 5 7 false None 11 13 toy_log_default
           toy_run_default).
Defined.

Lemma vectors_completes_witness :
  exists out,
    vectors toy_encrypt_block toy_digest toy_PBKDF2 toy_prfplus toy_seedsize
      toy_support_encoding toy_challenge_encoding toy_body_encoding
      Z 17 15 1 Zcurve 101 1 32 3 5 7 false None 11 13 = Ok out /\
    length out = (17 + (if truthy None then 2 else 0)
                     + (if false then 0 else 2))%nat.
Proof.
  apply (vectors_completes toy_encrypt_block toy_digest toy_PBKDF2
           toy_prfplus toy_seedsize toy_support_encoding
           toy_challenge_encoding toy_body_encoding Z
           17 15 1 Zcurve 0 101 1 32 3 5 7 false None 11 13).
  - exact toy_encrypt_block_len.
  - exact toy_PBKDF2_len.
  - exact toy_prfplus_len.
  - exact Zcurve_laws.
  - left. reflexivity.
  - left. reflexivity.
  - unfold uint32. lia.
  - lia.
  - left. reflexivity.
Defined.

Lemma output_lines_determine_witness :
  lit "a request body of forty bytes in all ..." =
  lit "a request body of forty bytes in all ...".
Proof.
  apply (output_lines_determine "KDC-REQ-BODY: "
           (lit "a request body of forty bytes in all ...")
           (lit "a request body of forty bytes in all ...") toy_lines);
    vm_compute; reflexivity.
Defined.
